(** * Agent-RAG retrieval layer: fusion engine, coordinator, adapter parsing
      and query builder, embedded from the Go sources.

    Conventions of the embedding.
    - [float64] scores, weights and decay parameters are real numbers
      ([R]); rounding, NaN and infinities are outside the model.
    - [time.Time] is an instant counted in nanoseconds ([Z]);
      [time.Duration] is a signed 64-bit count of nanoseconds and
      [Time.Sub] saturates at its bounds, as in package [time].
    - Go maps are [gmap]s.  The order in which [range] visits a map and
      the order [sort.Slice] leaves equal elements in are not fixed by the
      language; both are supplied by a [GoRuntime] and every theorem holds
      for all of them.
    - [error] values are an inductive type: the sentinels of errors.go and
      the messages built with [fmt.Errorf]. *)

From Stdlib Require Import Reals Lra Lia ZArith QArith Qround Qabs List Sorting.Sorted Sorting.Permutation.
From Stdlib Require Import Strings.String Strings.Ascii DecimalString.
From stdpp Require Import gmap strings list fin_maps.

Local Open Scope Z_scope.
Local Open Scope R_scope.

(** ** Package time (the part the retriever uses) *)

Module time.

Definition Time := Z.
Definition Duration := Z.

Definition minDuration : Duration := (- 2 ^ 63)%Z.
Definition maxDuration : Duration := (2 ^ 63 - 1)%Z.

Definition Nanosecond : Duration := 1%Z.
Definition Second : Duration := 1000000000%Z.
Definition Minute : Duration := (60 * Second)%Z.

(** [func (t Time) Sub(u Time) Duration]: the difference, saturated to the
    range of [Duration]. *)
Definition Sub (t u : Time) : Duration :=
  let d := (t - u)%Z in
  if (d <? minDuration)%Z then minDuration
  else if (maxDuration <? d)%Z then maxDuration
  else d.

(** [func (d Duration) Minutes() float64]:
    [min := d / Minute; nsec := d % Minute;
     return float64(min) + float64(nsec)/(60*1e9)]. *)
Definition Minutes (d : Duration) : R :=
  IZR (Z.quot d Minute) + IZR (Z.rem d Minute) / (60 * 1000000000).

(** [func (t Time) Add(d Duration) Time] *)
Definition Add (t : Time) (d : Duration) : Time := (t + d)%Z.

(** [-d] on a [Duration]: the negation of an [int64], which wraps at the
    least value and so leaves it as it is. *)
Definition Neg (d : Duration) : Duration :=
  if (d =? minDuration)%Z then minDuration else (- d)%Z.

End time.


(** ** Package fmt and strings (the verbs and helpers the builder uses) *)

Module fmt.

Definition quote : string := String "034"%char EmptyString.
Definition backslash : string := String "092"%char EmptyString.

(** [%d] *)
Definition formatInt (z : Z) : string := NilZero.string_of_int (Z.to_int z).

(** Nearest integer to a non-negative rational, ties to even: the rounding
    [strconv] applies to the exact value of a float. *)
Definition roundHalfEven (q : Q) : Z :=
  let f := Qfloor q in
  match Qcompare (Qmult (2 # 1) (Qminus q (inject_Z f))) (1 # 1) with
  | Lt => f
  | Gt => (f + 1)%Z
  | Eq => if Z.even f then f else (f + 1)%Z
  end.

Fixpoint zeros (n : nat) : string :=
  match n with
  | O => EmptyString
  | S n' => String "0"%char (zeros n')
  end.

Definition padLeft (width : nat) (s : string) : string :=
  zeros (width - String.length s) +:+ s.

(** [%.<prec>f] of a finite float, given by its exact rational value. *)
Definition formatFixed (prec : nat) (v : Q) : string :=
  let scale := (10 ^ Z.of_nat prec)%Z in
  let n := roundHalfEven (Qmult (Qabs v) (inject_Z scale)) in
  let sign := if Qlt_le_dec v (0 # 1) then "-"%string else EmptyString in
  let frac :=
    match prec with
    | O => EmptyString
    | _ => "." +:+ padLeft prec (formatInt (n mod scale))
    end in
  sign +:+ formatInt (n / scale) +:+ frac.

(** [strings.Join] *)
Fixpoint Join (elems : list string) (sep : string) : string :=
  match elems with
  | [] => EmptyString
  | [e] => e
  | e :: rest => e +:+ sep +:+ Join rest sep
  end.

(** [strings.ReplaceAll] for a one-byte pattern. *)
Fixpoint ReplaceAll (s : string) (old : ascii) (new : string) : string :=
  match s with
  | EmptyString => EmptyString
  | String c rest =>
      (if Ascii.eqb c old then new else String c EmptyString)
        +:+ ReplaceAll rest old new
  end.

(** [strings.Contains] *)
Fixpoint Contains (s substr : string) : bool :=
  String.prefix substr s ||
  match s with
  | EmptyString => false
  | String _ rest => Contains rest substr
  end.

End fmt.

(** ** Package graphql: the query builder *)

Module graphql.

Import fmt.

(** [func GetResultPath(className string) []string] *)
Definition GetResultPath (className : string) : list string :=
  ["Get"%string; className].

Record QueryBuilder : Type := NewQueryBuilder {
  className : string;
  limit : Z
}.

(** A [float32] component, by its exact value. *)
Definition float32 := Q.

Definition formatVector (vector : list float32) : string :=
  match vector with
  | [] => EmptyString
  | _ => Join (map (formatFixed 6) vector) ","
  end.

Definition escapeGraphQL (s : string) : string :=
  let s := ReplaceAll s "092"%char (backslash +:+ backslash) in
  let s := ReplaceAll s "034"%char (backslash +:+ quote) in
  let s := ReplaceAll s "010"%char (backslash +:+ "n") in
  let s := ReplaceAll s "013"%char (backslash +:+ "r") in
  let s := ReplaceAll s "009"%char (backslash +:+ "t") in
  s.

Definition buildFieldList (qb : QueryBuilder) : string :=
  if String.eqb (className qb) "Conversation" then "message,speaker,timestamp"%string
  else "title,content"%string.

Definition HybridQuery (qb : QueryBuilder) (queryText : string)
    (vector : list float32) (alpha : Q) : string :=
  let vectorStr := formatVector vector in
  let escapedText := escapeGraphQL queryText in
  "{ Get { " +:+ className qb +:+ "(hybrid:{query:" +:+ quote +:+ escapedText +:+ quote
    +:+ ",vector:[" +:+ vectorStr +:+ "],alpha:" +:+ formatFixed 2 alpha
    +:+ "},limit:" +:+ formatInt (limit qb)
    +:+ "){_additional{id,score,vector}" +:+ buildFieldList qb +:+ "}}}".

Definition NearVectorQuery (qb : QueryBuilder) (vector : list float32)
    (certainty : Q) : string :=
  let vectorStr := formatVector vector in
  let certaintyClause :=
    if Qlt_le_dec (0 # 1) certainty then ",certainty:" +:+ formatFixed 4 certainty
    else EmptyString in
  "{ Get { " +:+ className qb +:+ "(nearVector:{vector:[" +:+ vectorStr +:+ "]"
    +:+ certaintyClause +:+ "},limit:" +:+ formatInt (limit qb)
    +:+ "){_additional{id,score,vector}" +:+ buildFieldList qb +:+ "}}}".

(** The dynamic [Value interface{}] of a filter, for the scalar kinds whose
    [%v] rendering is their native one. *)
Inductive FilterValue : Type :=
| VString (s : string)
| VInt (z : Z)
| VBool (b : bool).

Definition formatValue (v : FilterValue) : string :=
  match v with
  | VString s => s
  | VInt z => formatInt z
  | VBool true => "true"
  | VBool false => "false"
  end.

#[warnings="-register-all"]
Inductive WhereFilter : Type := mkWhereFilter {
  Operator : string;
  Path : list string;
  Value : option FilterValue;
  Operands : list WhereFilter
}.

Fixpoint buildWhereRecursive (filter : WhereFilter) : string :=
  let parts := [] in
  let parts :=
    if String.eqb (Operator filter) EmptyString then parts
    else parts ++ ["operator:" +:+ Operator filter] in
  let parts :=
    match Path filter with
    | [] => parts
    | _ => parts ++ ["path:[" +:+ Join (Path filter) "," +:+ "]"]
    end in
  let parts :=
    match Value filter with
    | None => parts
    | Some v => parts ++ ["value:" +:+ formatValue v]
    end in
  let parts :=
    match Operands filter with
    | [] => parts
    | _ =>
        let operandStrs := map buildWhereRecursive (Operands filter) in
        parts ++ ["operands:[" +:+ Join operandStrs "," +:+ "]"]
    end in
  "{" +:+ Join parts "," +:+ "}".

Definition BuildWhereClause (qb : QueryBuilder) (filter : WhereFilter) : string :=
  buildWhereRecursive filter.

Definition NearVectorWithWhere (qb : QueryBuilder) (vector : list float32)
    (where_ : WhereFilter) : string :=
  let vectorStr := formatVector vector in
  let whereClause := BuildWhereClause qb where_ in
  "{ Get { " +:+ className qb +:+ "(nearVector:{vector:[" +:+ vectorStr +:+ "]},where:"
    +:+ whereClause +:+ ",limit:" +:+ formatInt (limit qb)
    +:+ "){_additional{id,score}" +:+ buildFieldList qb +:+ "}}}".

Definition ConversationQuery (qb : QueryBuilder) (vector : list float32)
    (sinceTime : string) : string :=
  let vectorStr := formatVector vector in
  let timeFilter :=
    if String.eqb sinceTime EmptyString then EmptyString
    else ",where:{operator:GreaterThanEqual,path:[" +:+ quote +:+ "timestamp" +:+ quote
           +:+ "],valueDate:" +:+ quote +:+ sinceTime +:+ quote +:+ "}" in
  "{ Get { " +:+ className qb +:+ "(nearVector:{vector:[" +:+ vectorStr +:+ "]}"
    +:+ timeFilter +:+ ",limit:" +:+ formatInt (limit qb)
    +:+ "){_additional{id,score}message,speaker,timestamp}}}".

Definition BatchDeleteQuery (qb : QueryBuilder) (where_ : WhereFilter) : string :=
  let whereClause := BuildWhereClause qb where_ in
  "mutation{BatchDelete{objects(class:" +:+ quote +:+ className qb +:+ quote
    +:+ ",where:" +:+ whereClause +:+ "){id}}}".

End graphql.

(** ** errors.go and the temporal decay *)

Module retriever.

Import time.

(** Comparisons of [float64] values used as conditions. *)
Definition Rltb (x y : R) : bool := if Rlt_dec x y then true else false.
Definition Rgtb (x y : R) : bool := if Rgt_dec x y then true else false.
Definition Rleb (x y : R) : bool := if Rle_dec x y then true else false.
Definition Rgeb (x y : R) : bool := if Rge_dec x y then true else false.

Inductive error : Type :=
| ErrInvalidWeight
| ErrInvalidHalfLife
| ErrInvalidMinWeight
| ErrNoResults
| ErrIndexNotFound
| ErrVectorMismatch
| ErrClosedRetriever
(* fmt.Errorf without and with a wrapped error ("%w") *)
| Errorf (msg : string)
| Wrapf (prefix : string) (wrapped : error).

(** [err.Error()] *)
Fixpoint Error (e : error) : string :=
  match e with
  | ErrInvalidWeight => "weight must be between 0 and 1"
  | ErrInvalidHalfLife => "half-life must be positive"
  | ErrInvalidMinWeight => "minimum weight must be between 0 and 1"
  | ErrNoResults => "no results found"
  | ErrIndexNotFound => "index not found"
  | ErrVectorMismatch => "vector dimension mismatch"
  | ErrClosedRetriever => "retriever is closed"
  | Errorf msg => msg
  | Wrapf prefix wrapped => prefix ++ Error wrapped
  end.

Record TemporalDecay : Type := NewTemporalDecay {
  halfLifeMinutes : R;
  minWeight : R;
  enabled : bool
}.

(** [math.Ln2] *)
Definition Ln2 : R := ln 2.

(** The local [decayFactor] of [Apply], after the floor has been applied. *)
Definition decayFactor (td : TemporalDecay) (timestamp currentTime : Time) : R :=
  let timeDiff := Minutes (Sub currentTime timestamp) in
  let decayFactor := exp (- Ln2 * timeDiff / halfLifeMinutes td) in
  if Rltb decayFactor (minWeight td) then minWeight td else decayFactor.

Definition Apply (td : TemporalDecay) (score : R) (timestamp currentTime : Time) : R :=
  if negb (enabled td) then score
  else score * decayFactor td timestamp currentTime.


(** [func (td *TemporalDecay) HalfLife() float64] and its two siblings. *)
Definition HalfLife (td : TemporalDecay) : R := halfLifeMinutes td.
Definition MinWeight (td : TemporalDecay) : R := minWeight td.
Definition Enabled (td : TemporalDecay) : bool := enabled td.

(** [math.Log] is the natural logarithm. *)
Definition CalculateHalfLifeFromRetention (retentionMinutes targetRetention : R) : R :=
  if Rleb targetRetention 0 || Rgeb targetRetention 1 then 30
  else - Ln2 * retentionMinutes / ln targetRetention.

(** ** types.go *)

(** A decoded JSON value, as [encoding/json] stores it in an
    [interface{}]. *)
#[warnings="-register-all"]
Inductive JValue : Type :=
| JNull
| JBool (b : bool)
| JNumber (x : R)
| JString (s : string)
| JArray (elems : list JValue)
| JObject (fields : gmap string JValue).

Definition SourceType := string.
Definition SourceStatic : SourceType := "static".
Definition SourceConversation : SourceType := "conversation".

Record SearchResult : Type := mkSearchResult {
  ID : string;
  DocID : string;
  Score : R;
  Text : string;
  Metadata : gmap string JValue;
  Source : SourceType;
  Timestamp : option Time
}.

Abbreviation SearchResults := (list SearchResult).

(** The zero value of the struct. *)
Definition zeroSearchResult : SearchResult :=
  mkSearchResult EmptyString EmptyString 0 EmptyString ∅ EmptyString None.

(** [result.Score = score] on a copy. *)
Definition setScore (result : SearchResult) (score : R) : SearchResult :=
  mkSearchResult (ID result) (DocID result) score (Text result)
    (Metadata result) (Source result) (Timestamp result).

Definition setSource (result : SearchResult) (source : SourceType) : SearchResult :=
  mkSearchResult (ID result) (DocID result) (Score result) (Text result)
    (Metadata result) source (Timestamp result).

Definition setTimestamp (result : SearchResult) (ts : option Time) : SearchResult :=
  mkSearchResult (ID result) (DocID result) (Score result) (Text result)
    (Metadata result) (Source result) ts.

Record MergeConfig : Type := mkMergeConfig {
  StaticWeight : R;
  ConversationWeight : R;
  TemporalDecayEnabled : bool;
  HalfLifeMinutes : R;
  MinTemporalWeight : R;
  Algorithm : string;
  RRFK : Z
}.

Definition DefaultMergeConfig : MergeConfig :=
  mkMergeConfig (6 / 10) (4 / 10) true 30 (1 / 100) "weighted" 60.

(** [func (c *MergeConfig) Validate() error]; [None] is the nil error. *)
Definition Validate (c : MergeConfig) : option error :=
  if Rltb (StaticWeight c) 0 || Rgtb (StaticWeight c) 1 then Some ErrInvalidWeight
  else if Rltb (ConversationWeight c) 0 || Rgtb (ConversationWeight c) 1 then Some ErrInvalidWeight
  else if Rleb (HalfLifeMinutes c) 0 then Some ErrInvalidHalfLife
  else if Rltb (MinTemporalWeight c) 0 || Rgtb (MinTemporalWeight c) 1 then Some ErrInvalidMinWeight
  else None.

Record TimeRange : Type := mkTimeRange {
  Since : Time;
  Until : Time
}.

Record Query : Type := mkQuery {
  QText : string;
  Vector : list graphql.float32;
  Filters : gmap string JValue;
  Limit : Z;
  QTimeRange : option TimeRange;
  IncludeMeta : bool
}.

Record IndexConfig : Type := mkIndexConfig {
  StaticIndexName : string;
  ConversationIndexName : string;
  Vectorizer : string;
  DistanceMetric : string
}.

Definition DefaultIndexConfig : IndexConfig :=
  mkIndexConfig "KnowledgeBase" "Conversation" "text2vec-transformers" "cosine".

(** ** The bulk form of the decay *)

Definition ApplyToResults (td : TemporalDecay) (results : SearchResults)
    (currentTime : Time) : SearchResults :=
  map (fun result =>
         match Timestamp result with
         | Some ts =>
             if String.eqb (Source result) SourceConversation
             then setScore result (Apply td (Score result) ts currentTime)
             else result
         | None => result
         end) results.

(** ** What the language leaves open

    [range] over a map visits the entries in an unspecified order and
    [sort.Slice] is not stable; a [GoRuntime] fixes one choice of each. *)

Class GoRuntime : Type := {
  rangeMap : forall {A : Type}, gmap string A -> list (string * A);
  rangeMap_perm : forall (A : Type) (m : gmap string A),
    Permutation (rangeMap m) (map_to_list m);
  sortSlice : forall {A : Type}, (A -> A -> bool) -> list A -> list A;
  sortSlice_perm : forall (A : Type) (less : A -> A -> bool) (l : list A),
    Permutation (sortSlice less l) l;
  sortSlice_sorted : forall (A : Type) (less : A -> A -> bool) (l : list A),
    (forall x y, less x y = true -> less y x = false) ->
    (forall x y z, less x y = true -> less y z = true -> less x z = true) ->
    StronglySorted (fun x y => less y x = false) (sortSlice less l)
}.

(** ** The result merger *)

Record ResultMerger : Type := mkResultMerger {
  rm_config : MergeConfig;
  rm_temporalDecay : TemporalDecay
}.

Definition NewResultMerger (config : MergeConfig) : ResultMerger + error :=
  match Validate config with
  | Some err => inr err
  | None =>
      inl (mkResultMerger config
             (NewTemporalDecay (HalfLifeMinutes config) (MinTemporalWeight config)
                (TemporalDecayEnabled config)))
  end.

(** The pair [scoreMap], [resultMap] the two merges build. *)
Definition MergeMaps : Type := gmap string R * gmap string SearchResult.

(** [scoreMap[result.ID] = weightedScore; resultMap[result.ID] = result] *)
Definition insertBoth (maps : MergeMaps) (result : SearchResult)
    (weightedScore : R) : MergeMaps :=
  (<[ID result := weightedScore]> (fst maps), <[ID result := result]> (snd maps)).

(** Body of the loop over [staticResults] in [mergeWeighted]. *)
Definition weightedStaticStep (rm : ResultMerger) (maps : MergeMaps)
    (result : SearchResult) : MergeMaps :=
  let weightedScore := Score result * StaticWeight (rm_config rm) in
  insertBoth maps result weightedScore.

(** The weighted, possibly decayed, score of one conversation record. *)
Definition weightedConvScore (rm : ResultMerger) (currentTime : Time)
    (result : SearchResult) : R :=
  match Timestamp result with
  | Some ts =>
      let baseScore := Score result * ConversationWeight (rm_config rm) in
      Apply (rm_temporalDecay rm) baseScore ts currentTime
  | None => Score result * ConversationWeight (rm_config rm)
  end.

(** The cross-source step shared by both merges. *)
Definition addOrInsert (maps : MergeMaps) (result : SearchResult)
    (weightedScore : R) : MergeMaps :=
  match fst maps !! ID result with
  | Some existingScore =>
      (<[ID result := existingScore + weightedScore]> (fst maps), snd maps)
  | None => insertBoth maps result weightedScore
  end.

(** Body of the loop over [convResults] in [mergeWeighted]. *)
Definition weightedConvStep (rm : ResultMerger) (currentTime : Time)
    (maps : MergeMaps) (result : SearchResult) : MergeMaps :=
  addOrInsert maps result (weightedConvScore rm currentTime result).

(** The comparison handed to [sort.Slice]. *)
Definition byScoreDesc (a b : SearchResult) : bool := Rgtb (Score a) (Score b).

(** "Convert map back to sorted slice". *)
Definition collect `{GoRuntime} (maps : MergeMaps) : SearchResults :=
  let results :=
    map (fun entry : string * R =>
           let result := default zeroSearchResult (snd maps !! fst entry) in
           setScore result (snd entry))
        (rangeMap (fst maps)) in
  sortSlice byScoreDesc results.

Definition weightedMaps (rm : ResultMerger) (staticResults convResults : SearchResults)
    (currentTime : Time) : MergeMaps :=
  let maps := foldl (weightedStaticStep rm) (∅, ∅) staticResults in
  foldl (weightedConvStep rm currentTime) maps convResults.

Definition mergeWeighted `{GoRuntime} (rm : ResultMerger)
    (staticResults convResults : SearchResults) (currentTime : Time) : SearchResults :=
  collect (weightedMaps rm staticResults convResults currentTime).

(** [1.0 / (k + float64(rank))].  The quotient is the code's wherever
    [k + rank] is not 0; there the code's division yields an infinity,
    which a real number cannot be, and the statements about the value of a
    rank score assume [0 < k]. *)
Definition rankScore (k : R) (rank : nat) : R := 1 / (k + INR rank).

(** The loop over [staticResults] in [mergeRRF], from rank [rank] on. *)
Fixpoint rrfStaticLoop (rm : ResultMerger) (k : R) (rank : nat)
    (results : SearchResults) (maps : MergeMaps) : MergeMaps :=
  match results with
  | [] => maps
  | result :: rest =>
      let weightedScore := rankScore k rank * StaticWeight (rm_config rm) in
      rrfStaticLoop rm k (S rank) rest (insertBoth maps result weightedScore)
  end.

(** The loop over [decayedConv] in [mergeRRF], from rank [rank] on. *)
Fixpoint rrfConvLoop (rm : ResultMerger) (k : R) (rank : nat)
    (results : SearchResults) (maps : MergeMaps) : MergeMaps :=
  match results with
  | [] => maps
  | result :: rest =>
      let weightedScore := rankScore k rank * ConversationWeight (rm_config rm) in
      rrfConvLoop rm k (S rank) rest (addOrInsert maps result weightedScore)
  end.

Definition rrfMaps `{GoRuntime} (rm : ResultMerger)
    (staticResults convResults : SearchResults) (currentTime : Time) : MergeMaps :=
  let k := IZR (RRFK (rm_config rm)) in
  let maps := rrfStaticLoop rm k 0 staticResults (∅, ∅) in
  let decayedConv := ApplyToResults (rm_temporalDecay rm) convResults currentTime in
  let decayedConv := sortSlice byScoreDesc decayedConv in
  rrfConvLoop rm k 0 decayedConv maps.

Definition mergeRRF `{GoRuntime} (rm : ResultMerger)
    (staticResults convResults : SearchResults) (currentTime : Time) : SearchResults :=
  collect (rrfMaps rm staticResults convResults currentTime).

Definition Merge `{GoRuntime} (rm : ResultMerger)
    (staticResults convResults : SearchResults) (currentTime : Time) : SearchResults :=
  if String.eqb (Algorithm (rm_config rm)) "rrf"
     || String.eqb (Algorithm (rm_config rm)) "reciprocal_rank_fusion"
  then mergeRRF rm staticResults convResults currentTime
  else mergeWeighted rm staticResults convResults currentTime.

(** [SetConfig] returns the error and the merger as it is afterwards. *)
Definition SetConfig (rm : ResultMerger) (config : MergeConfig)
    : option error * ResultMerger :=
  match Validate config with
  | Some err => (Some err, rm)
  | None =>
      (None,
       mkResultMerger config
         (NewTemporalDecay (HalfLifeMinutes config) (MinTemporalWeight config)
            (TemporalDecayEnabled config)))
  end.

Definition GetConfig (rm : ResultMerger) : MergeConfig := rm_config rm.


(** ** The backing-store adapter (weaviate_client.go)

    The HTTP exchanges and the two functions of package [time] that need
    a calendar are the environment of the adapter.  A failed exchange
    yields the error [executeGraphQL] (resp. [createObject]) returns for
    it: request construction, transport, reading and decoding failures
    are not told apart. *)

Record GraphQLResponse : Type := mkGraphQLResponse {
  Data : gmap string JValue;
  Errors : list string
}.

Class Backend : Type := {
  postGraphQL : string -> GraphQLResponse + error;
  postObject : gmap string JValue -> gmap string JValue + error;
  formatRFC3339 : Time -> string;
  parseRFC3339 : string -> option Time
}.

(** What went through the [http.Client]. *)
Inductive Request : Type :=
| GraphQLRequest (query : string)
| ObjectRequest (object : gmap string JValue)
| CloseIdleConnections.

(** [sent] stands for the [httpClient] field: the traffic so far. *)
Record WeaviateClient : Type := mkWeaviateClient {
  host : string;
  apiKey : string;
  wc_config : IndexConfig;
  sent : list Request
}.

Definition record (wc : WeaviateClient) (req : Request) : WeaviateClient :=
  mkWeaviateClient (host wc) (apiKey wc) (wc_config wc) (sent wc ++ [req]).

Definition setID (result : SearchResult) (id : string) : SearchResult :=
  mkSearchResult id (DocID result) (Score result) (Text result)
    (Metadata result) (Source result) (Timestamp result).

(** [result.Text = text; result.DocID = result.ID] *)
Definition setText (result : SearchResult) (text : string) : SearchResult :=
  mkSearchResult (ID result) (ID result) (Score result) text
    (Metadata result) (Source result) (Timestamp result).

Definition setMetadata (result : SearchResult) (metadata : gmap string JValue)
    : SearchResult :=
  mkSearchResult (ID result) (DocID result) (Score result) (Text result)
    metadata (Source result) (Timestamp result).

(** The comma-ok type assertions [v.(map[string]interface{})],
    [v.(string)], [v.(float64)] and [v.([]interface{})] on the result of a
    map lookup; a missing key is the nil interface and fails each of them. *)
Definition assertObject (v : option JValue) : option (gmap string JValue) :=
  match v with Some (JObject m) => Some m | _ => None end.

Definition assertString (v : option JValue) : option string :=
  match v with Some (JString s) => Some s | _ => None end.

Definition assertNumber (v : option JValue) : option R :=
  match v with Some (JNumber x) => Some x | _ => None end.

Definition assertArray (v : option JValue) : option (list JValue) :=
  match v with Some (JArray l) => Some l | _ => None end.

Module Client.

Definition NewWeaviateClient (host apiKey : string) (config : option IndexConfig)
    : WeaviateClient + error :=
  inl (mkWeaviateClient host apiKey (default DefaultIndexConfig config) []).

Definition executeGraphQL `{Backend} (wc : WeaviateClient) (query : string)
    : (gmap string JValue + error) * WeaviateClient :=
  let wc := record wc (GraphQLRequest query) in
  match postGraphQL query with
  | inr err => (inr err, wc)
  | inl gqlResp =>
      match Errors gqlResp with
      | message :: _ => (inr (Errorf ("GraphQL error: " +:+ message)), wc)
      | [] => (inl (Data gqlResp), wc)
      end
  end.

(** The navigation loop that opens both parsers. *)
Fixpoint navigate (current : JValue) (path : list string) : JValue + error :=
  match path with
  | [] => inl current
  | key :: rest =>
      match assertObject (Some current) with
      | Some m =>
          match m !! key with
          | Some val => navigate val rest
          | None => inr (Errorf ("key not found: " +:+ key))
          end
      | None => inr (Errorf ("unexpected type at path " +:+ key))
      end
  end.

Definition extractSearchResult (objMap : gmap string JValue) : SearchResult :=
  let result := zeroSearchResult in
  let result :=
    match assertObject (objMap !! "_additional"%string) with
    | Some additional =>
        let result :=
          match assertString (additional !! "id"%string) with
          | Some id => setID result id
          | None => result
          end in
        match assertNumber (additional !! "score"%string) with
        | Some score => setScore result score
        | None => result
        end
    | None => result
    end in
  let result :=
    match assertString (objMap !! "message"%string) with
    | Some message => setText result message
    | None =>
        match assertString (objMap !! "content"%string) with
        | Some content => setText result content
        | None =>
            match assertString (objMap !! "title"%string) with
            | Some title => setText result title
            | None => result
            end
        end
    end in
  setMetadata result
    (filter (fun kv : string * JValue =>
               fst kv ≠ "_additional"%string ∧ fst kv ≠ "message"%string
               ∧ fst kv ≠ "content"%string ∧ fst kv ≠ "title"%string) objMap).

(** The loop over the decoded array; elements that are not objects are
    passed over. *)
Definition extractObjects (current : JValue)
    (extract : gmap string JValue -> SearchResult) : SearchResults :=
  match assertArray (Some current) with
  | Some objects =>
      omap (fun obj => match assertObject (Some obj) with
                       | Some objMap => Some (extract objMap)
                       | None => None
                       end) objects
  | None => []
  end.

Definition parseSearchResults (data : gmap string JValue) (path : list string)
    : SearchResults + error :=
  match navigate (JObject data) path with
  | inr err => inr err
  | inl current =>
      inl (extractObjects current
             (fun objMap => setSource (extractSearchResult objMap) SourceStatic))
  end.

Definition parseConversationResults `{Backend} (data : gmap string JValue)
    (path : list string) : SearchResults + error :=
  match navigate (JObject data) path with
  | inr err => inr err
  | inl current =>
      inl (extractObjects current
             (fun objMap =>
                let result := setSource (extractSearchResult objMap) SourceConversation in
                match assertString (objMap !! "timestamp"%string) with
                | Some tsStr =>
                    match parseRFC3339 tsStr with
                    | Some ts => setTimestamp result (Some ts)
                    | None => result
                    end
                | None => result
                end))
  end.

Definition SearchStatic `{Backend} (wc : WeaviateClient) (query : Query)
    : (SearchResults + error) * WeaviateClient :=
  let qb := graphql.NewQueryBuilder (StaticIndexName (wc_config wc)) (Limit query) in
  let graphQLQuery := graphql.HybridQuery qb (QText query) (Vector query) (1 # 2) in
  match executeGraphQL wc graphQLQuery with
  | (inr err, wc) => (inr (Wrapf "static search failed: " err), wc)
  | (inl response, wc) =>
      (parseSearchResults response
         (graphql.GetResultPath (StaticIndexName (wc_config wc))), wc)
  end.

Definition SearchConversation `{Backend} (wc : WeaviateClient) (query : Query)
    : (SearchResults + error) * WeaviateClient :=
  let qb := graphql.NewQueryBuilder (ConversationIndexName (wc_config wc)) (Limit query) in
  let sinceTime :=
    match QTimeRange query with
    | Some tr => formatRFC3339 (Since tr)
    | None => EmptyString
    end in
  let graphQLQuery := graphql.ConversationQuery qb (Vector query) sinceTime in
  match executeGraphQL wc graphQLQuery with
  | (inr err, wc) => (inr (Wrapf "conversation search failed: " err), wc)
  | (inl response, wc) =>
      (parseConversationResults response
         (graphql.GetResultPath (ConversationIndexName (wc_config wc))), wc)
  end.

Definition createObject `{Backend} (wc : WeaviateClient) (object : gmap string JValue)
    : (string + error) * WeaviateClient :=
  let wc := record wc (ObjectRequest object) in
  match postObject object with
  | inr err => (inr err, wc)
  | inl result =>
      match assertString (result !! "id"%string) with
      | Some id => (inl id, wc)
      | None => (inr (Errorf "no ID in response"), wc)
      end
  end.

(** [now] is the reading of [time.Now()]. *)
Definition AddConversationTurn `{Backend} (wc : WeaviateClient) (now : Time)
    (message speaker : string) (metadata : gmap string JValue)
    : (string + error) * WeaviateClient :=
  let properties : gmap string JValue :=
    <["message"%string := JString message]>
      (<["speaker"%string := JString speaker]>
         (<["timestamp"%string := JString (formatRFC3339 now)]> ∅)) in
  let properties := metadata ∪ properties in
  let object : gmap string JValue :=
    <["class"%string := JString (ConversationIndexName (wc_config wc))]>
      (<["properties"%string := JObject properties]> ∅) in
  match createObject wc object with
  | (inr err, wc) => (inr (Wrapf "failed to add conversation turn: " err), wc)
  | (inl id, wc) => (inl id, wc)
  end.

Definition AddKnowledgeDocument `{Backend} (wc : WeaviateClient) (now : Time)
    (title content : string) (metadata : gmap string JValue)
    : (string + error) * WeaviateClient :=
  let properties : gmap string JValue :=
    <["title"%string := JString title]>
      (<["content"%string := JString content]>
         (<["updatedAt"%string := JString (formatRFC3339 now)]> ∅)) in
  let properties := metadata ∪ properties in
  let object : gmap string JValue :=
    <["class"%string := JString (StaticIndexName (wc_config wc))]>
      (<["properties"%string := JObject properties]> ∅) in
  match createObject wc object with
  | (inr err, wc) => (inr (Wrapf "failed to add document: " err), wc)
  | (inl id, wc) => (inl id, wc)
  end.

Definition executeBatchDelete `{Backend} (wc : WeaviateClient) (query : string)
    : (Z + error) * WeaviateClient :=
  match executeGraphQL wc query with
  | (inr err, wc) => (inr err, wc)
  | (inl _, wc) => (inl 0%Z, wc)
  end.

Definition PruneOldConversations `{Backend} (wc : WeaviateClient) (now : Time)
    (maxAge : Duration) : (Z + error) * WeaviateClient :=
  let cutoffTime := Add now (Neg maxAge) in
  let qb := graphql.NewQueryBuilder (ConversationIndexName (wc_config wc)) 0 in
  let filter :=
    graphql.mkWhereFilter "LessThan" ["timestamp"%string]
      (Some (graphql.VString (formatRFC3339 cutoffTime))) [] in
  let deleteQuery := graphql.BatchDeleteQuery qb filter in
  match executeBatchDelete wc deleteQuery with
  | (inr err, wc) => (inr (Wrapf "pruning failed: " err), wc)
  | (inl count, wc) => (inl count, wc)
  end.

Definition HealthCheck `{Backend} (wc : WeaviateClient) : option error * WeaviateClient :=
  match executeGraphQL wc "{Meta{hostname}}" with
  | (inr err, wc) => (Some err, wc)
  | (inl _, wc) => (None, wc)
  end.

Definition Close (wc : WeaviateClient) : option error * WeaviateClient :=
  (None, record wc CloseIdleConnections).

End Client.


(** ** The retrieval coordinator (retriever.go)

    Every method holds the mutex for its whole body, so each is one atomic
    step on the retriever; a step returns its result and the retriever as
    it is afterwards.  The two goroutines of [SearchHybrid] are joined by
    the [WaitGroup] before their results are read.  The code fixes no
    order between the two requests they send; the log lists the static one
    first, and what is stated of the traffic of a hybrid search is stated
    up to the order of the two. *)

Record AgentRAGRetriever : Type := mkAgentRAGRetriever {
  client : WeaviateClient;
  merger : ResultMerger;
  config : MergeConfig;
  indexConfig : IndexConfig;
  temporalDecay : TemporalDecay;
  closed : bool
}.

Definition withClient (r : AgentRAGRetriever) (wc : WeaviateClient) : AgentRAGRetriever :=
  mkAgentRAGRetriever wc (merger r) (config r) (indexConfig r) (temporalDecay r) (closed r).

Definition NewAgentRAGRetriever (weaviateHost apiKey : string)
    (mergeConfig : option MergeConfig) (indexConfig : option IndexConfig)
    : AgentRAGRetriever + error :=
  let mergeConfig := default DefaultMergeConfig mergeConfig in
  let indexConfig := default DefaultIndexConfig indexConfig in
  match Validate mergeConfig with
  | Some err => inr (Wrapf "invalid config: " err)
  | None =>
      match Client.NewWeaviateClient weaviateHost apiKey (Some indexConfig) with
      | inr err => inr (Wrapf "failed to create client: " err)
      | inl client =>
          match NewResultMerger mergeConfig with
          | inr err => inr (Wrapf "failed to create merger: " err)
          | inl merger =>
              let temporalDecay :=
                NewTemporalDecay (HalfLifeMinutes mergeConfig)
                  (MinTemporalWeight mergeConfig) (TemporalDecayEnabled mergeConfig) in
              inl (mkAgentRAGRetriever client merger mergeConfig indexConfig
                     temporalDecay false)
          end
      end
  end.

Definition SearchStatic `{Backend} (r : AgentRAGRetriever) (query : Query)
    : (SearchResults + error) * AgentRAGRetriever :=
  if closed r then (inr ErrClosedRetriever, r)
  else
    match Client.SearchStatic (client r) query with
    | (inr err, wc) => (inr err, withClient r wc)
    | (inl results, wc) => (inl results, withClient r wc)
    end.

Definition SearchConversation `{Backend} (r : AgentRAGRetriever) (now : Time)
    (query : Query) : (SearchResults + error) * AgentRAGRetriever :=
  if closed r then (inr ErrClosedRetriever, r)
  else
    match Client.SearchConversation (client r) query with
    | (inr err, wc) => (inr err, withClient r wc)
    | (inl results, wc) =>
        let decayedResults := ApplyToResults (temporalDecay r) results now in
        (inl decayedResults, withClient r wc)
    end.

(** [mergedResults[:query.Limit]] under its guard. *)
Definition applyLimit (query : Query) (mergedResults : SearchResults) : SearchResults :=
  if ((0 <? Limit query) && (Limit query <? Z.of_nat (length mergedResults)))%Z
  then take (Z.to_nat (Limit query)) mergedResults
  else mergedResults.

Definition SearchHybrid `{GoRuntime} `{Backend} (r : AgentRAGRetriever) (now : Time)
    (query : Query) : (SearchResults + error) * AgentRAGRetriever :=
  if closed r then (inr ErrClosedRetriever, r)
  else
    let '(staticOutcome, wc) := Client.SearchStatic (client r) query in
    let '(convOutcome, wc) := Client.SearchConversation wc query in
    let r := withClient r wc in
    match staticOutcome, convOutcome with
    | inr staticErr, inr convErr =>
        (inr (Errorf ("both searches failed: static=" +:+ Error staticErr
                        +:+ ", conversation=" +:+ Error convErr)), r)
    | _, _ =>
        let staticResults :=
          match staticOutcome with inl results => results | inr _ => [] end in
        let convResults :=
          match convOutcome with inl results => results | inr _ => [] end in
        let mergedResults := Merge (merger r) staticResults convResults now in
        (inl (applyLimit query mergedResults), r)
    end.

Definition AddConversationTurn `{Backend} (r : AgentRAGRetriever) (now : Time)
    (message speaker : string) (metadata : gmap string JValue)
    : (string + error) * AgentRAGRetriever :=
  if closed r then (inr ErrClosedRetriever, r)
  else
    let '(res, wc) := Client.AddConversationTurn (client r) now message speaker metadata in
    (res, withClient r wc).

Definition AddKnowledgeDocument `{Backend} (r : AgentRAGRetriever) (now : Time)
    (title content : string) (metadata : gmap string JValue)
    : (string + error) * AgentRAGRetriever :=
  if closed r then (inr ErrClosedRetriever, r)
  else
    let '(res, wc) := Client.AddKnowledgeDocument (client r) now title content metadata in
    (res, withClient r wc).

Definition PruneOldConversations `{Backend} (r : AgentRAGRetriever) (now : Time)
    (maxAge : Duration) : (Z + error) * AgentRAGRetriever :=
  if closed r then (inr ErrClosedRetriever, r)
  else
    let '(res, wc) := Client.PruneOldConversations (client r) now maxAge in
    (res, withClient r wc).

Definition UpdateConfig (r : AgentRAGRetriever) (config : MergeConfig)
    : option error * AgentRAGRetriever :=
  match Validate config with
  | Some err => (Some err, r)
  | None =>
      let merger := snd (SetConfig (merger r) config) in
      (None,
       mkAgentRAGRetriever (client r) merger config (indexConfig r)
         (NewTemporalDecay (HalfLifeMinutes config) (MinTemporalWeight config)
            (TemporalDecayEnabled config))
         (closed r))
  end.

Definition GetRetrieverConfig (r : AgentRAGRetriever) : MergeConfig := config r.

Definition GetIndexConfig (r : AgentRAGRetriever) : IndexConfig := indexConfig r.

Definition HealthCheck `{Backend} (r : AgentRAGRetriever)
    : option error * AgentRAGRetriever :=
  if closed r then (Some ErrClosedRetriever, r)
  else
    let '(err, wc) := Client.HealthCheck (client r) in
    (err, withClient r wc).

Definition Close (r : AgentRAGRetriever) : option error * AgentRAGRetriever :=
  if closed r then (None, r)
  else
    let r := mkAgentRAGRetriever (client r) (merger r) (config r) (indexConfig r)
               (temporalDecay r) true in
    let '(err, wc) := Client.Close (client r) in
    (err, withClient r wc).

Definition IsClosed (r : AgentRAGRetriever) : bool := closed r.

End retriever.

Import time fmt graphql retriever.

(** * Vocabulary of the statements *)

(** The exponential of [Apply] before the floor is applied. *)
Definition rawFactor (td : TemporalDecay) (timestamp currentTime : Time) : R :=
  exp (- Ln2 * Minutes (Sub currentTime timestamp) / halfLifeMinutes td).

(** The records of a list that carry a given identifier, in list order. *)
Definition withID (id : string) (results : SearchResults) : SearchResults :=
  filter (fun result => ID result = id) results.

(** The last record of a list with a given identifier: the one a loop of
    map assignments leaves in place. *)
Definition lastWithID (id : string) (results : SearchResults) : option SearchResult :=
  last (withID id results).

Definition sumR (xs : list R) : R := foldr Rplus 0 xs.

(** Contribution of the static list to an identifier. *)
Definition staticContribution (rm : ResultMerger) (staticResults : SearchResults)
    (id : string) : R :=
  match lastWithID id staticResults with
  | Some s => Score s * StaticWeight (rm_config rm)
  | None => 0
  end.

(** Contribution of the conversation list to an identifier. *)
Definition convContribution (rm : ResultMerger) (convResults : SearchResults)
    (currentTime : Time) (id : string) : R :=
  sumR (map (weightedConvScore rm currentTime) (withID id convResults)).

Definition fusedScore (rm : ResultMerger) (staticResults convResults : SearchResults)
    (currentTime : Time) (id : string) : R :=
  staticContribution rm staticResults id
  + convContribution rm convResults currentTime id.

(** The two maps of a merge agree on their keys and file every record
    under its own identifier. *)
Definition mapsWf (maps : MergeMaps) : Prop :=
  (forall id, is_Some (fst maps !! id) <-> is_Some (snd maps !! id))
  /\ (forall id s, snd maps !! id = Some s -> ID s = id).

(** The four constraints [Validate] enforces. *)
Definition rangesOk (c : MergeConfig) : Prop :=
  0 <= StaticWeight c <= 1 /\ 0 <= ConversationWeight c <= 1
  /\ 0 < HalfLifeMinutes c /\ 0 <= MinTemporalWeight c <= 1.

(** The text a record yields: [message], else [content], else [title]. *)
Definition textField (objMap : gmap string JValue) : option string :=
  match assertString (objMap !! "message"%string) with
  | Some message => Some message
  | None =>
      match assertString (objMap !! "content"%string) with
      | Some content => Some content
      | None => assertString (objMap !! "title"%string)
      end
  end.

(** One step of the loop of [ApplyToResults]. *)
Definition decayOne (td : TemporalDecay) (currentTime : Time) (result : SearchResult)
    : SearchResult :=
  match Timestamp result with
  | Some ts =>
      if String.eqb (Source result) SourceConversation
      then setScore result (Apply td (Score result) ts currentTime)
      else result
  | None => result
  end.

(** Rank contributions of a list scanned from rank [rank] on: the one a
    loop of map assignments leaves for an identifier (that of its last
    occurrence), and the sum a loop of additions accumulates. *)
Fixpoint lastRankScore (w k : R) (rank : nat) (results : SearchResults) (id : string)
    : option R :=
  match results with
  | [] => None
  | r :: rest =>
      match lastRankScore w k (S rank) rest id with
      | Some x => Some x
      | None => if decide (ID r = id) then Some (rankScore k rank * w) else None
      end
  end.

Fixpoint rankScoreSum (w k : R) (rank : nat) (results : SearchResults) (id : string) : R :=
  match results with
  | [] => 0
  | r :: rest =>
      (if decide (ID r = id) then rankScore k rank * w else 0)
      + rankScoreSum w k (S rank) rest id
  end.

(** The conversation list as [mergeRRF] ranks it. *)
Definition rankedConv `{GoRuntime} (rm : ResultMerger) (convResults : SearchResults)
    (currentTime : Time) : SearchResults :=
  sortSlice byScoreDesc (ApplyToResults (rm_temporalDecay rm) convResults currentTime).

(** The decay parameters a config prescribes. *)
Definition decayOf (c : MergeConfig) : TemporalDecay :=
  NewTemporalDecay (HalfLifeMinutes c) (MinTemporalWeight c) (TemporalDecayEnabled c).

(** The retriever, its merger and its adapter agree: one valid config, the
    decay parameters it prescribes, one index config. *)
Definition retrieverConsistent (r : AgentRAGRetriever) : Prop :=
  rm_config (merger r) = config r
  /\ rm_temporalDecay (merger r) = decayOf (config r)
  /\ temporalDecay r = decayOf (config r)
  /\ rangesOk (config r)
  /\ wc_config (client r) = indexConfig r.

(** The object [AddConversationTurn] and [AddKnowledgeDocument] post. *)
Definition turnProperties `{Backend} (now : Time) (message speaker : string)
    (metadata : gmap string JValue) : gmap string JValue :=
  metadata ∪
    <["message"%string := JString message]>
      (<["speaker"%string := JString speaker]>
         (<["timestamp"%string := JString (formatRFC3339 now)]> ∅)).

Definition documentProperties `{Backend} (now : Time) (title content : string)
    (metadata : gmap string JValue) : gmap string JValue :=
  metadata ∪
    <["title"%string := JString title]>
      (<["content"%string := JString content]>
         (<["updatedAt"%string := JString (formatRFC3339 now)]> ∅)).

Definition objectOf (collection : string) (properties : gmap string JValue)
    : gmap string JValue :=
  <["class"%string := JString collection]>
    (<["properties"%string := JObject properties]> ∅).

(** What [createObject] makes of the exchange. *)
Definition createOutcome `{Backend} (object : gmap string JValue) : string + error :=
  match postObject object with
  | inr err => inr err
  | inl result =>
      match assertString (result !! "id"%string) with
      | Some id => inl id
      | None => inr (Errorf "no ID in response")
      end
  end.

Definition wrapOutcome {A : Type} (prefix : string) (outcome : A + error) : A + error :=
  match outcome with
  | inl x => inl x
  | inr err => inr (Wrapf prefix err)
  end.


(** The elements of a decoded array that are objects, in order. *)
Definition objectsOf (elems : list JValue) : list (gmap string JValue) :=
  omap (fun v => assertObject (Some v)) elems.

(** The keys [extractSearchResult] keeps out of the metadata. *)
Definition reservedKey (k : string) : Prop :=
  k = "_additional"%string \/ k = "message"%string
  \/ k = "content"%string \/ k = "title"%string.

(** The escape of one byte: what the five passes of [escapeGraphQL] leave
    of it. *)
Definition escapeChar (c : ascii) : string :=
  if Ascii.eqb c "092" then backslash +:+ backslash
  else if Ascii.eqb c "034" then backslash +:+ quote
  else if Ascii.eqb c "010" then backslash +:+ "n"
  else if Ascii.eqb c "013" then backslash +:+ "r"
  else if Ascii.eqb c "009" then backslash +:+ "t"
  else String c EmptyString.

(** A reader of the body of a GraphQL string literal, from just after the
    opening quote: it stops at the first unescaped quote and returns the
    text read and what follows the closing quote.  A raw line feed or
    carriage return, an unknown escape and a missing closing quote are
    refused. *)
Fixpoint readLiteral (s : string) : option (string * string) :=
  match s with
  | EmptyString => None
  | String c rest =>
      if Ascii.eqb c "034" then Some (EmptyString, rest)
      else if Ascii.eqb c "010" || Ascii.eqb c "013" then None
      else if Ascii.eqb c "092" then
        match rest with
        | EmptyString => None
        | String e rest' =>
            let decoded :=
              if Ascii.eqb e "092" then Some "092"%char
              else if Ascii.eqb e "034" then Some "034"%char
              else if Ascii.eqb e "n" then Some "010"%char
              else if Ascii.eqb e "r" then Some "013"%char
              else if Ascii.eqb e "t" then Some "009"%char
              else None in
            match decoded, readLiteral rest' with
            | Some d, Some (body, after) => Some (String d body, after)
            | _, _ => None
            end
        end
      else
        match readLiteral rest with
        | Some (body, after) => Some (String c body, after)
        | None => None
        end
  end.

(** Every record filed in the record map comes from a given list. *)
Definition recordsFrom (pool : SearchResults) (maps : MergeMaps) : Prop :=
  forall id s, snd maps !! id = Some s -> s ∈ pool.

(** The maps either merge builds, by the configured algorithm. *)
Definition mergeMaps {rt : GoRuntime} (rm : ResultMerger)
    (staticResults convResults : SearchResults) (currentTime : Time) : MergeMaps :=
  if String.eqb (Algorithm (rm_config rm)) "rrf"
     || String.eqb (Algorithm (rm_config rm)) "reciprocal_rank_fusion"
  then rrfMaps rm staticResults convResults currentTime
  else weightedMaps rm staticResults convResults currentTime.


(** The lower bound of the time window as [SearchConversation] renders it. *)
Definition sinceOf {be : Backend} (query : Query) : string :=
  match QTimeRange query with
  | Some tr => formatRFC3339 (Since tr)
  | None => EmptyString
  end.

(** The mutation [PruneOldConversations] sends for a cutoff. *)
Definition pruneMutation (collection cutoff : string) : string :=
  "mutation{BatchDelete{objects(class:" +:+ quote +:+ collection +:+ quote
    +:+ ",where:{operator:LessThan,path:[timestamp],value:" +:+ cutoff +:+ "}){id}}}".

(** The record [parseConversationResults] builds from one object. *)
Definition conversationRecord {be : Backend} (objMap : gmap string JValue)
    : SearchResult :=
  let result := setSource (Client.extractSearchResult objMap) SourceConversation in
  match assertString (objMap !! "timestamp"%string) with
  | Some tsStr =>
      match parseRFC3339 tsStr with
      | Some ts => setTimestamp result (Some ts)
      | None => result
      end
  | None => result
  end.

(** The merger [NewResultMerger] builds from [DefaultMergeConfig]. *)
Definition defaultMerger : ResultMerger :=
  mkResultMerger DefaultMergeConfig (NewTemporalDecay 30 (1 / 100) true).

(** The retriever [NewAgentRAGRetriever host key nil nil] returns. *)
Definition defaultRetriever (weaviateHost apiKey : string) : AgentRAGRetriever :=
  mkAgentRAGRetriever
    (mkWeaviateClient weaviateHost apiKey DefaultIndexConfig [])
    defaultMerger DefaultMergeConfig DefaultIndexConfig
    (NewTemporalDecay 30 (1 / 100) true) false.

(** A backing store whose knowledge-base collection is unreachable while
    the conversation collection answers with the single turn Y, score 0.7. *)
Definition turnY : gmap string JValue :=
  <["_additional"%string :=
      JObject (<["id"%string := JString "Y"]> {[ "score"%string := JNumber (7 / 10) ]})]>
    (<["message"%string := JString "about Y"]>
       {[ "timestamp"%string := JString "2026-02-20T10:00:00Z" ]}).

Definition staticDownBackend (now : Time) : Backend :=
  {| postGraphQL := fun query =>
       if String.prefix "{ Get { KnowledgeBase" query
       then inr (Errorf "request failed: connection refused")
       else inl (mkGraphQLResponse
                   {[ "Get"%string :=
                        JObject {[ "Conversation"%string := JArray [JObject turnY] ]} ]}
                   []);
     postObject := fun _ => inr (Errorf "request failed: connection refused");
     formatRFC3339 := fun _ => "2026-02-20T10:00:00Z"%string;
     parseRFC3339 := fun _ => Some now |}.

(** A backing store that answers every mutation with the identifiers of
    two deleted objects. *)
Definition twoDeletedBackend : Backend :=
  {| postGraphQL := fun _ =>
       inl (mkGraphQLResponse
              {[ "BatchDelete"%string :=
                   JObject {[ "objects"%string :=
                     JArray [JObject {[ "id"%string := JString "a" ]};
                             JObject {[ "id"%string := JString "b" ]}] ]} ]}
              []);
     postObject := fun _ => inr (Errorf "request failed: connection refused");
     formatRFC3339 := fun _ => "2026-02-20T10:00:00Z"%string;
     parseRFC3339 := fun _ => None |}.

(** The [float32] nearest to 0.1, 0.2 and 0.3: what the literals of
    [[]float32{0.1, 0.2, 0.3}] denote. *)
Definition f32_0_1 : float32 := (13421773 # 134217728)%Q.
Definition f32_0_2 : float32 := (13421773 # 67108864)%Q.
Definition f32_0_3 : float32 := (10066330 # 33554432)%Q.

(** A reference runtime: [range] in the order of [map_to_list], and the
    insertion sort [sort.Slice] runs on slices of at most twelve elements. *)
Fixpoint insertBy {A : Type} (less : A -> A -> bool) (x : A) (l : list A) : list A :=
  match l with
  | [] => [x]
  | y :: rest => if less x y then x :: l else y :: insertBy less x rest
  end.

Definition insertionSort {A : Type} (less : A -> A -> bool) (l : list A) : list A :=
  foldl (fun sorted x => insertBy less x sorted) [] l.

(** * Properties *)

(** ** Package time *)

Section TimeFacts.

Lemma Minutes_eq (d : Duration) : Minutes d = IZR d / 60000000000.
Proof.
  unfold Minutes, Minute, Second.
  change (60 * 1000000000)%Z with 60000000000%Z.
  replace (60 * 1000000000) with 60000000000 by lra.
  rewrite (Z.quot_rem' d 60000000000) at 3.
  rewrite plus_IZR, mult_IZR. field.
Qed.

Lemma Sub_nonneg (t u : Time) : (u <= t)%Z -> (0 <= Sub t u)%Z.
Proof.
  intros H. unfold Sub, minDuration, maxDuration.
  repeat case_match; lia.
Qed.

Lemma Sub_neg (t u : Time) : (t < u)%Z -> (Sub t u < 0)%Z.
Proof.
  intros H. unfold Sub, minDuration, maxDuration.
  repeat case_match; lia.
Qed.

Lemma Minutes_nonneg (d : Duration) : (0 <= d)%Z -> 0 <= Minutes d.
Proof.
  intros H. rewrite Minutes_eq. apply IZR_le in H.
  apply Rmult_le_pos; [exact H | lra].
Qed.

Lemma Minutes_neg (d : Duration) : (d < 0)%Z -> Minutes d < 0.
Proof.
  intros H. rewrite Minutes_eq. apply IZR_lt in H.
  unfold Rdiv. assert (0 < / 60000000000) by (apply Rinv_0_lt_compat; lra). nra.
Qed.

Lemma Sub_self (t : Time) : Sub t t = 0%Z.
Proof. unfold Sub. rewrite Z.sub_diag. reflexivity. Qed.

Lemma Minutes_0 : Minutes 0%Z = 0.
Proof. rewrite Minutes_eq. lra. Qed.

End TimeFacts.

(** ** Comparisons *)

Lemma Rltb_true x y : Rltb x y = true <-> x < y.
Proof. unfold Rltb. destruct (Rlt_dec x y); split; intros; try easy. Qed.

Lemma Rltb_false x y : Rltb x y = false <-> y <= x.
Proof. unfold Rltb. destruct (Rlt_dec x y); split; intros; try easy; lra. Qed.

Lemma Rgtb_true x y : Rgtb x y = true <-> y < x.
Proof. unfold Rgtb. destruct (Rgt_dec x y); split; intros; try easy. Qed.

Lemma Rgtb_false x y : Rgtb x y = false <-> x <= y.
Proof. unfold Rgtb. destruct (Rgt_dec x y); split; intros; try easy; lra. Qed.

Lemma Rleb_true x y : Rleb x y = true <-> x <= y.
Proof. unfold Rleb. destruct (Rle_dec x y); split; intros; try easy. Qed.

Lemma Rleb_false x y : Rleb x y = false <-> y < x.
Proof. unfold Rleb. destruct (Rle_dec x y); split; intros; try easy; lra. Qed.

(** ** Temporal decay *)

Section Decay.

Variable td : TemporalDecay.

Lemma decayFactor_max (timestamp currentTime : Time) :
  decayFactor td timestamp currentTime
  = Rmax (minWeight td) (rawFactor td timestamp currentTime).
Proof.
  unfold decayFactor, rawFactor, Rmax.
  destruct (Rltb _ _) eqn:E.
  - apply Rltb_true in E. destruct (Rle_dec _ _); lra.
  - apply Rltb_false in E. destruct (Rle_dec _ _); lra.
Qed.

Lemma Ln2_pos : 0 < Ln2.
Proof. unfold Ln2. rewrite <- ln_1. apply ln_increasing; lra. Qed.

Lemma exp_Ln2 : exp Ln2 = 2.
Proof. unfold Ln2. apply exp_ln. lra. Qed.

Lemma rawFactor_at (timestamp currentTime : Time) (n : R) :
  0 < halfLifeMinutes td ->
  Minutes (Sub currentTime timestamp) = n * halfLifeMinutes td ->
  rawFactor td timestamp currentTime = / exp (n * Ln2).
Proof.
  intros HH Hd. unfold rawFactor. rewrite Hd, <- exp_Ropp. f_equal. field. lra.
Qed.

Lemma rawFactor_le_1 (timestamp currentTime : Time) :
  0 < halfLifeMinutes td -> (timestamp <= currentTime)%Z ->
  rawFactor td timestamp currentTime <= 1.
Proof.
  intros HH Hle. unfold rawFactor. rewrite <- exp_0.
  pose proof (Minutes_nonneg _ (Sub_nonneg _ _ Hle)) as Hm.
  pose proof Ln2_pos as Hl.
  set (x := - Ln2 * _ / _).
  assert (x <= 0) as Hx.
  { unfold x, Rdiv. assert (0 < / halfLifeMinutes td) by (apply Rinv_0_lt_compat; lra).
    assert (0 <= Ln2 * Minutes (Sub currentTime timestamp)) by nra.
    nra. }
  destruct Hx as [Hx | Hx]; [left; apply exp_increasing; exact Hx | rewrite Hx; lra].
Qed.

Lemma rawFactor_gt_1 (timestamp currentTime : Time) :
  0 < halfLifeMinutes td -> (currentTime < timestamp)%Z ->
  1 < rawFactor td timestamp currentTime.
Proof.
  intros HH Hlt. unfold rawFactor. rewrite <- exp_0.
  pose proof (Minutes_neg _ (Sub_neg _ _ Hlt)) as Hm.
  pose proof Ln2_pos as Hl.
  apply exp_increasing.
  unfold Rdiv. assert (0 < / halfLifeMinutes td) by (apply Rinv_0_lt_compat; lra).
  assert (0 < - Ln2 * Minutes (Sub currentTime timestamp)) by nra.
  nra.
Qed.

End Decay.

Lemma Apply_enabled (td : TemporalDecay) (score : R) (timestamp currentTime : Time) :
  enabled td = true ->
  Apply td score timestamp currentTime
  = score * Rmax (minWeight td)
              (exp (- ln 2 * Minutes (Sub currentTime timestamp) / halfLifeMinutes td)).
Proof.
  intros Hen. unfold Apply. rewrite Hen. simpl.
  rewrite decayFactor_max. reflexivity.
Qed.

Lemma exp_at_half_lives (H age n : R) :
  0 < H -> age = n * H -> exp (- ln 2 * age / H) = / exp (n * ln 2).
Proof.
  intros HH ->. rewrite <- exp_Ropp. f_equal. field. lra.
Qed.

Lemma exp_one_half_life (H age : R) :
  0 < H -> age = H -> exp (- ln 2 * age / H) = 1 / 2.
Proof.
  intros HH Ha. rewrite (exp_at_half_lives H age 1 HH) by lra.
  rewrite Rmult_1_l. fold Ln2. rewrite exp_Ln2. lra.
Qed.

Lemma exp_two_half_lives (H age : R) :
  0 < H -> age = 2 * H -> exp (- ln 2 * age / H) = 1 / 4.
Proof.
  intros HH Ha. rewrite (exp_at_half_lives H age 2 HH) by lra.
  replace (2 * ln 2) with (ln 2 + ln 2) by lra.
  fold Ln2. rewrite exp_plus, exp_Ln2. lra.
Qed.

Lemma exp_positive_age (H age : R) :
  0 < H -> 0 < age -> exp (- ln 2 * age / H) < 1.
Proof.
  intros HH Ha. rewrite <- exp_0. apply exp_increasing.
  pose proof Ln2_pos as Hl. unfold Ln2 in Hl.
  unfold Rdiv. assert (0 < / H) by (apply Rinv_0_lt_compat; lra).
  assert (0 < ln 2 * age) by nra. nra.
Qed.

(** C4, as the code has it.  For a non-negative score, an enabled decay with
    half-life H > 0 and floor m in [0,1], and a timestamp not after the
    reference time, m * score <= Apply <= score, and [Apply] returns the
    score times the larger of the floor and exp(-ln 2 * age / H), the age
    in minutes.  So it returns the score itself at age 0, the score times
    the larger of the floor and 1/2 at age H, and times the larger of the
    floor and 1/4 at age 2H: exactly one half and one quarter of the score
    once the floor is at most 1/4.  A positive score of positive age is
    strictly reduced unless the floor is 1. *)
Theorem Apply_bounds_and_multipliers
    (td : TemporalDecay) (score : R) (timestamp currentTime : Time) :
  enabled td = true ->
  0 < halfLifeMinutes td ->
  0 <= minWeight td <= 1 ->
  0 <= score ->
  (timestamp <= currentTime)%Z ->
  let age := Minutes (Sub currentTime timestamp) in
  (minWeight td * score <= Apply td score timestamp currentTime <= score)
  /\ Apply td score timestamp currentTime
     = score * Rmax (minWeight td) (exp (- ln 2 * age / halfLifeMinutes td))
  /\ (age = 0 -> Apply td score timestamp currentTime = score)
  /\ (age = halfLifeMinutes td ->
      Apply td score timestamp currentTime = score * Rmax (minWeight td) (1 / 2))
  /\ (age = 2 * halfLifeMinutes td ->
      Apply td score timestamp currentTime = score * Rmax (minWeight td) (1 / 4))
  /\ (minWeight td <= 1 / 4 ->
      (age = halfLifeMinutes td ->
       Apply td score timestamp currentTime = score * (1 / 2))
      /\ (age = 2 * halfLifeMinutes td ->
          Apply td score timestamp currentTime = score * (1 / 4)))
  /\ (0 < score -> minWeight td < 1 -> 0 < age ->
      Apply td score timestamp currentTime < score).
Proof.
  intros Hen HH [Hm0 Hm1] Hs Hle age.
  pose proof (rawFactor_le_1 td timestamp currentTime HH Hle) as Hraw.
  unfold rawFactor, Ln2 in Hraw. fold age in Hraw.
  pose proof (Apply_enabled td score timestamp currentTime Hen) as Happ.
  fold age in Happ.
  set (raw := exp (- ln 2 * age / halfLifeMinutes td)) in *.
  split; [| split; [| split; [| split; [| split; [| split]]]]].
  - rewrite Happ.
    pose proof (Rmax_l (minWeight td) raw).
    assert (Rmax (minWeight td) raw <= 1) by (apply Rmax_lub; lra).
    split; nra.
  - exact Happ.
  - intros Hd. rewrite Happ. unfold raw. rewrite Hd.
    replace (- ln 2 * 0 / halfLifeMinutes td) with 0 by (field; lra).
    rewrite exp_0, Rmax_right by lra. lra.
  - intros Hd. rewrite Happ. unfold raw.
    rewrite (exp_one_half_life _ _ HH Hd). reflexivity.
  - intros Hd. rewrite Happ. unfold raw.
    rewrite (exp_two_half_lives _ _ HH Hd). reflexivity.
  - intros Hq. split; intros Hd; rewrite Happ; unfold raw.
    + rewrite (exp_one_half_life _ _ HH Hd), Rmax_right by lra. reflexivity.
    + rewrite (exp_two_half_lives _ _ HH Hd), Rmax_right by lra. reflexivity.
  - intros Hpos Hm Ha. rewrite Happ.
    pose proof (exp_positive_age _ _ HH Ha) as Hlt. fold raw in Hlt.
    assert (Rmax (minWeight td) raw < 1) by (apply Rmax_lub_lt; lra).
    nra.
Qed.

Lemma Apply_bounds_and_multipliers_witness :
  let td := NewTemporalDecay 30 (1 / 100) true in
  Apply td 1 0%Z 1800000000000%Z = 1 * (1 / 2)
  /\ Apply td 1 0%Z 3600000000000%Z = 1 * (1 / 4)
  /\ Apply td 1 0%Z 0%Z = 1.
Proof.
  intros td.
  assert (H30 : Minutes (Sub 1800000000000%Z 0%Z) = halfLifeMinutes td).
  { rewrite Minutes_eq. change (Sub 1800000000000%Z 0%Z) with 1800000000000%Z.
    simpl. lra. }
  assert (H60 : Minutes (Sub 3600000000000%Z 0%Z) = 2 * halfLifeMinutes td).
  { rewrite Minutes_eq. change (Sub 3600000000000%Z 0%Z) with 3600000000000%Z.
    simpl. lra. }
  assert (H0 : Minutes (Sub 0%Z 0%Z) = 0).
  { rewrite Minutes_eq. change (Sub 0%Z 0%Z) with 0%Z. lra. }
  assert (Hq : minWeight td <= 1 / 4) by (simpl; lra).
  split; [| split].
  - apply (Apply_bounds_and_multipliers td 1 0%Z 1800000000000%Z);
      [reflexivity | simpl; lra | simpl; lra | lra | lia | exact Hq | exact H30].
  - apply (Apply_bounds_and_multipliers td 1 0%Z 3600000000000%Z);
      [reflexivity | simpl; lra | simpl; lra | lra | lia | exact Hq | exact H60].
  - apply (Apply_bounds_and_multipliers td 1 0%Z 0%Z);
      [reflexivity | simpl; lra | simpl; lra | lra | lia | exact H0].
Defined.

(** C4 as stated fails when the floor exceeds 1/2: with half-life 30 and
    floor 0.6, a record of score 1 exactly one half-life old comes back
    with 0.6: the multiplier is 0.6, not 0.5. *)
Lemma Apply_multiplier_at_half_life_counterexample :
  let td := NewTemporalDecay 30 (6 / 10) true in
  enabled td = true
  /\ 0 < halfLifeMinutes td
  /\ 0 <= minWeight td <= 1
  /\ (0 <= 1800000000000)%Z
  /\ Minutes (Sub 1800000000000%Z 0%Z) = halfLifeMinutes td
  /\ Apply td 1 0%Z 1800000000000%Z = 6 / 10
  /\ decayFactor td 0%Z 1800000000000%Z = 6 / 10
  /\ Rabs (Apply td 1 0%Z 1800000000000%Z - 1 / 2) > 1 / 1000000000.
Proof.
  intros td.
  assert (Hmin : Minutes (Sub 1800000000000%Z 0%Z) = 30).
  { rewrite Minutes_eq. change (Sub 1800000000000%Z 0%Z) with 1800000000000%Z. lra. }
  assert (Hf : decayFactor td 0%Z 1800000000000%Z = 6 / 10).
  { rewrite decayFactor_max.
    rewrite (rawFactor_at td _ _ 1) by (simpl; lra).
    rewrite Rmult_1_l, exp_Ln2. simpl. apply Rmax_left. lra. }
  assert (Ha : Apply td 1 0%Z 1800000000000%Z = 6 / 10).
  { unfold Apply. simpl. rewrite Hf. lra. }
  repeat split; simpl; try lra; try lia; try exact Hmin; try exact Hf;
    try exact Ha.
  rewrite Ha. replace (6 / 10 - 1 / 2) with (1 / 10) by lra.
  rewrite Rabs_pos_eq by lra. lra.
Qed.

(** C5, as the code has it.  For an enabled decay with a positive
    half-life and a record dated after the reference time, the multiplier
    is not clamped: it is strictly above 1, equal to the larger of the floor
    and the exponential, and a positive base score comes back strictly
    larger (a zero score stays zero). *)
Theorem Apply_future_dated_not_clamped
    (td : TemporalDecay) (score : R) (timestamp currentTime : Time) :
  enabled td = true ->
  0 < halfLifeMinutes td ->
  (currentTime < timestamp)%Z ->
  1 < decayFactor td timestamp currentTime
  /\ decayFactor td timestamp currentTime
     = Rmax (minWeight td) (rawFactor td timestamp currentTime)
  /\ (0 < score -> score < Apply td score timestamp currentTime)
  /\ (score = 0 -> Apply td score timestamp currentTime = 0).
Proof.
  intros Hen HH Hlt.
  pose proof (rawFactor_gt_1 td timestamp currentTime HH Hlt) as Hraw.
  pose proof (decayFactor_max td timestamp currentTime) as Hmax.
  pose proof (Rmax_r (minWeight td) (rawFactor td timestamp currentTime)) as Hr.
  assert (Hgt : 1 < decayFactor td timestamp currentTime) by (rewrite Hmax; lra).
  repeat split; try assumption.
  - intros Hs. unfold Apply. rewrite Hen. simpl. nra.
  - intros Hs. unfold Apply. rewrite Hen. simpl. rewrite Hs. lra.
Qed.

Lemma Apply_future_dated_not_clamped_witness :
  let td := NewTemporalDecay 30 (1 / 100) true in
  1 < decayFactor td 1800000000000%Z 0%Z
  /\ decayFactor td 1800000000000%Z 0%Z
     = Rmax (minWeight td) (rawFactor td 1800000000000%Z 0%Z)
  /\ (0 < 1 -> 1 < Apply td 1 1800000000000%Z 0%Z)
  /\ (1 = 0 -> Apply td 1 1800000000000%Z 0%Z = 0).
Proof.
  intros td.
  apply (Apply_future_dated_not_clamped td 1 1800000000000%Z 0%Z).
  - reflexivity.
  - simpl. lra.
  - lia.
Defined.

(** C5 as stated fails: with the default decay (half-life 30, floor 0.01)
    a record dated 30 minutes after the reference time and base score 1 is
    returned with score 2. *)
Lemma Apply_future_dated_counterexample :
  let td := NewTemporalDecay 30 (1 / 100) true in
  enabled td = true
  /\ (0 < 1800000000000)%Z
  /\ decayFactor td 1800000000000%Z 0%Z = 2
  /\ Apply td 1 1800000000000%Z 0%Z = 2
  /\ 1 < Apply td 1 1800000000000%Z 0%Z.
Proof.
  intros td.
  assert (Hmin : Minutes (Sub 0%Z 1800000000000%Z) = - 30).
  { rewrite Minutes_eq. change (Sub 0%Z 1800000000000%Z) with (- 1800000000000)%Z. lra. }
  assert (Hf : decayFactor td 1800000000000%Z 0%Z = 2).
  { rewrite decayFactor_max. unfold rawFactor. rewrite Hmin. simpl.
    replace (- Ln2 * - 30 / 30) with Ln2 by lra.
    rewrite exp_Ln2. apply Rmax_right. lra. }
  assert (Ha : Apply td 1 1800000000000%Z 0%Z = 2).
  { unfold Apply. simpl. rewrite Hf. lra. }
  repeat split; try lia; try assumption. rewrite Ha. lra.
Qed.

(** ** The two maps of a merge *)

Section MergeMapFacts.

Implicit Types (maps : MergeMaps) (r s : SearchResult) (id : string).

Lemma withID_cons id r l :
  withID id (r :: l) = if decide (ID r = id) then r :: withID id l else withID id l.
Proof. unfold withID. rewrite filter_cons. reflexivity. Qed.

Lemma lastWithID_nil id : lastWithID id [] = None.
Proof. reflexivity. Qed.

Lemma lastWithID_cons id r l :
  lastWithID id (r :: l)
  = match lastWithID id l with
    | Some s => Some s
    | None => if decide (ID r = id) then Some r else None
    end.
Proof.
  unfold lastWithID. rewrite withID_cons.
  destruct (decide (ID r = id)) as [He | Hne].
  - rewrite last_cons. reflexivity.
  - destruct (last (withID id l)); reflexivity.
Qed.

Lemma lastWithID_Some id l s : lastWithID id l = Some s -> ID s = id /\ s ∈ l.
Proof.
  unfold lastWithID, withID. intros Hl.
  apply last_Some_elem_of in Hl. apply list_elem_of_filter in Hl. tauto.
Qed.

Lemma lastWithID_is_Some id l : is_Some (lastWithID id l) <-> id ∈ (ID <$> l).
Proof.
  induction l as [| r l IH].
  - rewrite lastWithID_nil. split; [intros [? ?]; discriminate | intros H; inversion H].
  - rewrite lastWithID_cons, fmap_cons, elem_of_cons.
    destruct (lastWithID id l) as [s |] eqn:E.
    + split; [intros _; right; apply IH; eauto | eauto].
    + destruct (decide (ID r = id)) as [He | Hne].
      * split; [intros _; left; congruence | eauto].
      * split; [intros [? ?]; discriminate |].
        intros [He | Hin]; [congruence | apply IH in Hin; exact Hin].
Qed.

Lemma mapsWf_empty : mapsWf (∅, ∅).
Proof.
  split; simpl.
  - intros id. split; intros [x Hx]; rewrite lookup_empty in Hx; discriminate.
  - intros id s. rewrite lookup_empty. discriminate.
Qed.

Lemma insertBoth_result maps r w id :
  snd (insertBoth maps r w) !! id
  = if decide (ID r = id) then Some r else snd maps !! id.
Proof. unfold insertBoth. simpl. apply lookup_insert. Qed.

Lemma insertBoth_score maps r w id :
  fst (insertBoth maps r w) !! id
  = if decide (ID r = id) then Some w else fst maps !! id.
Proof. unfold insertBoth. simpl. apply lookup_insert. Qed.

Lemma insertBoth_wf maps r w : mapsWf maps -> mapsWf (insertBoth maps r w).
Proof.
  intros [Hdom Hid]. split.
  - intros id. rewrite insertBoth_result, insertBoth_score.
    destruct (decide (ID r = id)); [split; eauto | apply Hdom].
  - intros id s. rewrite insertBoth_result.
    destruct (decide (ID r = id)); [congruence | apply Hid].
Qed.

Lemma addOrInsert_wf maps r w : mapsWf maps -> mapsWf (addOrInsert maps r w).
Proof.
  intros Hwf. unfold addOrInsert.
  destruct (fst maps !! ID r) as [x |] eqn:E; [| apply insertBoth_wf; exact Hwf].
  destruct Hwf as [Hdom Hid]. split; simpl.
  - intros id. rewrite lookup_insert.
    destruct (decide (ID r = id)) as [<- | Hne]; [| apply Hdom].
    split; [intros _; apply Hdom; eauto | eauto].
  - exact Hid.
Qed.

Lemma addOrInsert_keeps maps r w id s :
  mapsWf maps -> snd maps !! id = Some s ->
  snd (addOrInsert maps r w) !! id = Some s.
Proof.
  intros [Hdom _] Hs. unfold addOrInsert.
  destruct (fst maps !! ID r) as [x |] eqn:E; [exact Hs |].
  rewrite insertBoth_result.
  destruct (decide (ID r = id)) as [He | Hne]; [| exact Hs].
  subst id. assert (is_Some (fst maps !! ID r)) as [? ?] by (apply Hdom; eauto).
  congruence.
Qed.

Lemma addOrInsert_is_Some maps r w id :
  is_Some (fst (addOrInsert maps r w) !! id)
  <-> is_Some (fst maps !! id) \/ ID r = id.
Proof.
  unfold addOrInsert.
  destruct (fst maps !! ID r) as [x |] eqn:E.
  - simpl. rewrite lookup_insert.
    destruct (decide (ID r = id)) as [<- | Hne]; [split; eauto | tauto].
  - rewrite insertBoth_score.
    destruct (decide (ID r = id)) as [<- | Hne]; [split; eauto | tauto].
Qed.

Lemma addOrInsert_score maps r w id :
  default 0 (fst (addOrInsert maps r w) !! id)
  = default 0 (fst maps !! id) + (if decide (ID r = id) then w else 0).
Proof.
  unfold addOrInsert.
  destruct (fst maps !! ID r) as [x |] eqn:E.
  - simpl. rewrite lookup_insert.
    destruct (decide (ID r = id)) as [<- | Hne]; [rewrite E; reflexivity | lra].
  - rewrite insertBoth_score.
    destruct (decide (ID r = id)) as [<- | Hne]; [rewrite E; simpl; lra | lra].
Qed.

End MergeMapFacts.

(** ** The loops of the two merges *)

Section MergeLoops.

Variable rm : ResultMerger.

Implicit Types (maps : MergeMaps) (r s : SearchResult) (id : string).

Lemma weightedStatic_fold staticResults maps id :
  snd (foldl (weightedStaticStep rm) maps staticResults) !! id
  = match lastWithID id staticResults with
    | Some s => Some s
    | None => snd maps !! id
    end
  /\ fst (foldl (weightedStaticStep rm) maps staticResults) !! id
     = match lastWithID id staticResults with
       | Some s => Some (Score s * StaticWeight (rm_config rm))
       | None => fst maps !! id
       end.
Proof.
  revert maps. induction staticResults as [| r l IH]; intros maps; simpl.
  - split; reflexivity.
  - destruct (IH (weightedStaticStep rm maps r)) as [H1 H2].
    rewrite H1, H2, lastWithID_cons. unfold weightedStaticStep.
    rewrite insertBoth_result, insertBoth_score.
    destruct (lastWithID id l); [split; reflexivity |].
    destruct (decide (ID r = id)); split; reflexivity.
Qed.

Lemma weightedStatic_wf staticResults maps :
  mapsWf maps -> mapsWf (foldl (weightedStaticStep rm) maps staticResults).
Proof.
  revert maps. induction staticResults as [| r l IH]; intros maps Hwf; simpl.
  - exact Hwf.
  - apply IH. apply insertBoth_wf. exact Hwf.
Qed.

Lemma weightedConv_fold currentTime convResults maps id :
  mapsWf maps ->
  mapsWf (foldl (weightedConvStep rm currentTime) maps convResults)
  /\ (forall s, snd maps !! id = Some s ->
      snd (foldl (weightedConvStep rm currentTime) maps convResults) !! id = Some s)
  /\ (is_Some (fst (foldl (weightedConvStep rm currentTime) maps convResults) !! id)
      <-> is_Some (fst maps !! id) \/ id ∈ (ID <$> convResults))
  /\ default 0 (fst (foldl (weightedConvStep rm currentTime) maps convResults) !! id)
     = default 0 (fst maps !! id)
       + sumR (map (weightedConvScore rm currentTime) (withID id convResults)).
Proof.
  revert maps. induction convResults as [| r l IH]; intros maps Hwf; simpl.
  - split; [exact Hwf |]. split; [auto |]. split.
    + split; [intros H; left; exact H | intros [H | H]; [exact H | inversion H]].
    + unfold withID. simpl. lra.
  - pose proof (addOrInsert_wf maps r (weightedConvScore rm currentTime r) Hwf) as Hwf'.
    destruct (IH _ Hwf') as (Hw & Hk & Hd & Hs). fold (weightedConvStep rm currentTime maps r) in *.
    split; [exact Hw |]. split; [| split].
    + intros s Hsome. apply Hk. unfold weightedConvStep.
      apply addOrInsert_keeps; assumption.
    + rewrite Hd. unfold weightedConvStep. rewrite addOrInsert_is_Some.
      rewrite elem_of_cons. intuition congruence.
    + rewrite Hs. unfold weightedConvStep. rewrite addOrInsert_score, withID_cons.
      destruct (decide (ID r = id)); simpl; lra.
Qed.

Lemma rrfStaticLoop_spec k staticResults rank maps id :
  snd (rrfStaticLoop rm k rank staticResults maps) !! id
  = match lastWithID id staticResults with
    | Some s => Some s
    | None => snd maps !! id
    end
  /\ (is_Some (fst (rrfStaticLoop rm k rank staticResults maps) !! id)
      <-> is_Some (lastWithID id staticResults) \/ is_Some (fst maps !! id)).
Proof.
  revert rank maps. induction staticResults as [| r l IH]; intros rank maps; simpl.
  - split; [reflexivity |]. rewrite lastWithID_nil.
    split; [auto | intros [[? ?] | ?]; [discriminate | assumption]].
  - destruct (IH (S rank)
                (insertBoth maps r (rankScore k rank * StaticWeight (rm_config rm))))
      as [H1 H2].
    rewrite H1, H2, lastWithID_cons, insertBoth_result, insertBoth_score.
    destruct (lastWithID id l) as [s |].
    + split; [reflexivity | split; eauto].
    + destruct (decide (ID r = id)).
      * split; [reflexivity | split; eauto].
      * split; [reflexivity |].
        split; (intros [[? ?] | ?]; [discriminate | auto]).
Qed.

Lemma rrfStaticLoop_wf k staticResults rank maps :
  mapsWf maps -> mapsWf (rrfStaticLoop rm k rank staticResults maps).
Proof.
  revert rank maps. induction staticResults as [| r l IH]; intros rank maps Hwf; simpl.
  - exact Hwf.
  - apply IH. apply insertBoth_wf. exact Hwf.
Qed.

Lemma rrfConvLoop_spec k convResults rank maps id :
  mapsWf maps ->
  mapsWf (rrfConvLoop rm k rank convResults maps)
  /\ (forall s, snd maps !! id = Some s ->
      snd (rrfConvLoop rm k rank convResults maps) !! id = Some s)
  /\ (is_Some (fst (rrfConvLoop rm k rank convResults maps) !! id)
      <-> is_Some (fst maps !! id) \/ id ∈ (ID <$> convResults)).
Proof.
  revert rank maps. induction convResults as [| r l IH]; intros rank maps Hwf; simpl.
  - split; [exact Hwf |]. split; [auto |].
    split; [intros H; left; exact H | intros [H | H]; [exact H | inversion H]].
  - set (w := rankScore k rank * ConversationWeight (rm_config rm)).
    pose proof (addOrInsert_wf maps r w Hwf) as Hwf'.
    destruct (IH (S rank) _ Hwf') as (Hw & Hk & Hd).
    split; [exact Hw |]. split.
    + intros s Hsome. apply Hk. apply addOrInsert_keeps; assumption.
    + rewrite Hd, addOrInsert_is_Some, elem_of_cons.
      intuition congruence.
Qed.

End MergeLoops.

(** ** From the maps back to a sorted slice *)

Lemma byScoreDesc_asym x y : byScoreDesc x y = true -> byScoreDesc y x = false.
Proof. unfold byScoreDesc. rewrite Rgtb_true, Rgtb_false. lra. Qed.

Lemma byScoreDesc_trans x y z :
  byScoreDesc x y = true -> byScoreDesc y z = true -> byScoreDesc x z = true.
Proof. unfold byScoreDesc. rewrite !Rgtb_true. lra. Qed.

Lemma StronglySorted_weaken {A : Type} (P Q : A -> A -> Prop) (l : list A) :
  (forall x y, P x y -> Q x y) -> StronglySorted P l -> StronglySorted Q l.
Proof.
  intros HPQ Hs. induction Hs as [| x l Hs IH Hall]; constructor; [exact IH |].
  eapply Forall_impl; [exact Hall |]. intros y Hy. apply HPQ. exact Hy.
Qed.

Section Collect.

Context `{GoRuntime}.

Implicit Types (maps : MergeMaps) (r s : SearchResult) (id : string).

(** The record built for one entry of [scoreMap]. *)
Let entryResult maps (entry : string * R) : SearchResult :=
  setScore (default zeroSearchResult (snd maps !! fst entry)) (snd entry).

Lemma collect_perm maps :
  Permutation (collect maps) (entryResult maps <$> map_to_list (fst maps)).
Proof.
  unfold collect. rewrite sortSlice_perm.
  change (map ?f ?l) with (f <$> l).
  apply fmap_Permutation. apply rangeMap_perm.
Qed.

Lemma collect_elem maps r :
  mapsWf maps ->
  r ∈ collect maps
  <-> exists id score s,
        fst maps !! id = Some score /\ snd maps !! id = Some s /\ r = setScore s score.
Proof.
  intros [Hdom Hid]. rewrite collect_perm, list_elem_of_fmap. split.
  - intros ([id score] & -> & Hin). apply elem_of_map_to_list in Hin.
    assert (is_Some (snd maps !! id)) as [s Hs] by (apply Hdom; eauto).
    exists id, score, s. unfold entryResult. simpl. rewrite Hs. auto.
  - intros (id & score & s & Hsc & Hs & ->). exists (id, score). split.
    + unfold entryResult. simpl. rewrite Hs. reflexivity.
    + apply elem_of_map_to_list. exact Hsc.
Qed.

Lemma collect_ids maps :
  mapsWf maps -> Permutation (ID <$> collect maps) (fst <$> map_to_list (fst maps)).
Proof.
  intros [Hdom Hid]. rewrite collect_perm, <- list_fmap_compose.
  replace (ID ∘ entryResult maps <$> map_to_list (fst maps))
    with (fst <$> map_to_list (fst maps)); [reflexivity |].
  apply list_fmap_ext. intros i [id score] Hi. simpl.
  assert (Hin : (id, score) ∈ map_to_list (fst maps))
    by (apply list_elem_of_lookup; eauto).
  apply elem_of_map_to_list in Hin. symmetry.
  assert (is_Some (snd maps !! id)) as [s Hs] by (apply Hdom; eauto).
  unfold entryResult. simpl. rewrite Hs. simpl. apply (Hid _ _ Hs).
Qed.

Lemma collect_NoDup maps : mapsWf maps -> NoDup (ID <$> collect maps).
Proof.
  intros Hwf. rewrite (collect_ids maps Hwf). apply NoDup_fst_map_to_list.
Qed.

Lemma collect_sorted maps :
  StronglySorted (fun a b => Score b <= Score a) (collect maps).
Proof.
  unfold collect.
  eapply StronglySorted_weaken;
    [| apply sortSlice_sorted; [exact byScoreDesc_asym | exact byScoreDesc_trans]].
  intros x y Hxy. unfold byScoreDesc in Hxy. apply Rgtb_false in Hxy. exact Hxy.
Qed.

Lemma collect_id_is_Some maps id :
  mapsWf maps -> id ∈ (ID <$> collect maps) <-> is_Some (fst maps !! id).
Proof.
  intros Hwf. rewrite (collect_ids maps Hwf), list_elem_of_fmap. split.
  - intros ([id' score] & -> & Hin). apply elem_of_map_to_list in Hin. simpl. eauto.
  - intros [score Hsc]. exists (id, score). split; [reflexivity |].
    apply elem_of_map_to_list. exact Hsc.
Qed.

End Collect.

(** ** The reference runtime *)

Section InsertionSort.

Context {A : Type} (less : A -> A -> bool).

Lemma insertBy_perm x l : Permutation (insertBy less x l) (x :: l).
Proof.
  induction l as [| y l IH]; simpl; [reflexivity |].
  destruct (less x y); [reflexivity |].
  rewrite IH. apply perm_swap.
Qed.

Lemma insertionSort_perm_acc l acc :
  Permutation (foldl (fun sorted x => insertBy less x sorted) acc l) (acc ++ l).
Proof.
  revert acc. induction l as [| x l IH]; intros acc; simpl.
  - rewrite app_nil_r. reflexivity.
  - rewrite IH, insertBy_perm. rewrite (Permutation_middle acc l x). reflexivity.
Qed.

Lemma insertionSort_perm l : Permutation (insertionSort less l) l.
Proof. unfold insertionSort. rewrite insertionSort_perm_acc. reflexivity. Qed.

Hypothesis less_asym : forall x y, less x y = true -> less y x = false.
Hypothesis less_trans : forall x y z, less x y = true -> less y z = true -> less x z = true.

Lemma insertBy_sorted x l :
  StronglySorted (fun a b => less b a = false) l ->
  StronglySorted (fun a b => less b a = false) (insertBy less x l).
Proof.
  intros Hs. induction Hs as [| y l Hs IH Hall]; simpl.
  - constructor; [constructor | constructor].
  - destruct (less x y) eqn:E.
    + constructor; [constructor; assumption |].
      constructor; [apply less_asym; exact E |].
      eapply Forall_impl; [exact Hall |]. intros w Hw. simpl in Hw.
      destruct (less w x) eqn:E'; [| reflexivity].
      rewrite (less_trans _ _ _ E' E) in Hw. discriminate.
    + constructor; [exact IH |].
      rewrite insertBy_perm. constructor; assumption.
Qed.

Lemma insertionSort_sorted_acc l acc :
  StronglySorted (fun a b => less b a = false) acc ->
  StronglySorted (fun a b => less b a = false)
    (foldl (fun sorted x => insertBy less x sorted) acc l).
Proof.
  revert acc. induction l as [| x l IH]; intros acc Hacc; simpl; [exact Hacc |].
  apply IH. apply insertBy_sorted. exact Hacc.
Qed.

End InsertionSort.

Definition referenceRuntime : GoRuntime.
Proof.
  refine {| rangeMap := fun A m => map_to_list m;
            sortSlice := fun A less l => insertionSort less l |}.
  - intros A m. reflexivity.
  - intros A less l. apply insertionSort_perm.
  - intros A less l Hasym Htrans. unfold insertionSort.
    apply insertionSort_sorted_acc; [assumption | assumption | constructor].
Defined.

(** ** Weighted and rank fusion *)

Section Fusion.

Context `{GoRuntime}.

Variable rm : ResultMerger.

Implicit Types (maps : MergeMaps) (r s : SearchResult) (id : string).

Lemma collect_unique maps id s score :
  mapsWf maps -> snd maps !! id = Some s -> fst maps !! id = Some score ->
  setScore s score ∈ collect maps
  /\ (forall r, r ∈ collect maps -> ID r = id -> r = setScore s score).
Proof.
  intros Hwf Hs Hsc. split.
  - apply collect_elem; [exact Hwf |]. exists id, score, s. auto.
  - intros r Hin Hid. apply collect_elem in Hin; [| exact Hwf].
    destruct Hin as (id' & score' & s' & Hsc' & Hs' & ->).
    destruct Hwf as [_ Hids]. simpl in Hid. rewrite (Hids _ _ Hs') in Hid. subst id'.
    congruence.
Qed.

Lemma collect_singleton id s score :
  ID s = id ->
  collect ({[id := score]}, {[id := s]}) = [setScore s score].
Proof.
  intros Hid. unfold collect. simpl.
  apply Permutation_singleton_r. rewrite sortSlice_perm.
  change (map ?f ?l) with (f <$> l).
  rewrite rangeMap_perm, map_to_list_singleton. simpl.
  rewrite lookup_singleton_eq. reflexivity.
Qed.

Lemma weightedMaps_wf staticResults convResults currentTime :
  mapsWf (weightedMaps rm staticResults convResults currentTime).
Proof.
  unfold weightedMaps.
  apply (weightedConv_fold rm currentTime convResults _ EmptyString).
  apply weightedStatic_wf. exact mapsWf_empty.
Qed.

Lemma weightedMaps_result staticResults convResults currentTime id s :
  lastWithID id staticResults = Some s ->
  snd (weightedMaps rm staticResults convResults currentTime) !! id = Some s.
Proof.
  intros Hl. unfold weightedMaps.
  apply (weightedConv_fold rm currentTime convResults _ id).
  - apply weightedStatic_wf. exact mapsWf_empty.
  - destruct (weightedStatic_fold rm staticResults (∅, ∅) id) as [H1 _].
    rewrite H1, Hl. reflexivity.
Qed.

Lemma weightedMaps_is_Some staticResults convResults currentTime id :
  is_Some (fst (weightedMaps rm staticResults convResults currentTime) !! id)
  <-> id ∈ (ID <$> staticResults) \/ id ∈ (ID <$> convResults).
Proof.
  unfold weightedMaps.
  destruct (weightedConv_fold rm currentTime convResults
              (foldl (weightedStaticStep rm) (∅, ∅) staticResults) id)
    as (_ & _ & Hd & _); [apply weightedStatic_wf; exact mapsWf_empty |].
  rewrite Hd. destruct (weightedStatic_fold rm staticResults (∅, ∅) id) as [_ H2].
  rewrite H2, <- (lastWithID_is_Some id staticResults). simpl.
  destruct (lastWithID id staticResults) as [s |]; [split; eauto |].
  rewrite ?lookup_empty. split; (intros [[? ?] | ?]; [discriminate | auto]).
Qed.

Lemma weightedMaps_score staticResults convResults currentTime id :
  default 0 (fst (weightedMaps rm staticResults convResults currentTime) !! id)
  = fusedScore rm staticResults convResults currentTime id.
Proof.
  unfold weightedMaps.
  destruct (weightedConv_fold rm currentTime convResults
              (foldl (weightedStaticStep rm) (∅, ∅) staticResults) id)
    as (_ & _ & _ & Hs); [apply weightedStatic_wf; exact mapsWf_empty |].
  rewrite Hs. destruct (weightedStatic_fold rm staticResults (∅, ∅) id) as [_ H2].
  rewrite H2. unfold fusedScore, staticContribution, convContribution. simpl.
  destruct (lastWithID id staticResults); [reflexivity |].
  rewrite ?lookup_empty. reflexivity.
Qed.

Lemma rrfMaps_wf staticResults convResults currentTime :
  mapsWf (rrfMaps rm staticResults convResults currentTime).
Proof.
  unfold rrfMaps.
  apply (rrfConvLoop_spec rm _ _ 0%nat _ EmptyString).
  apply rrfStaticLoop_wf. exact mapsWf_empty.
Qed.

Lemma rrfMaps_result staticResults convResults currentTime id s :
  lastWithID id staticResults = Some s ->
  snd (rrfMaps rm staticResults convResults currentTime) !! id = Some s
  /\ is_Some (fst (rrfMaps rm staticResults convResults currentTime) !! id).
Proof.
  intros Hl. unfold rrfMaps.
  set (k := IZR (RRFK (rm_config rm))).
  destruct (rrfStaticLoop_spec rm k staticResults 0 (∅, ∅) id) as [H1 H2].
  rewrite Hl in H1, H2.
  destruct (rrfConvLoop_spec rm k
              (sortSlice byScoreDesc
                 (ApplyToResults (rm_temporalDecay rm) convResults currentTime))
              0 (rrfStaticLoop rm k 0 staticResults (∅, ∅)) id)
    as (_ & Hk & Hd); [apply rrfStaticLoop_wf; exact mapsWf_empty |].
  split; [apply Hk; exact H1 |].
  apply Hd. left. apply H2. left. eauto.
Qed.

End Fusion.

Lemma decayFactor_now (td : TemporalDecay) (now : Time) :
  minWeight td <= 1 -> decayFactor td now now = 1.
Proof.
  intros Hm. rewrite decayFactor_max. unfold rawFactor.
  rewrite Sub_self, Minutes_0.
  replace (- Ln2 * 0 / halfLifeMinutes td) with 0 by (unfold Rdiv; ring).
  rewrite exp_0. apply Rmax_right. exact Hm.
Qed.

Lemma Apply_now (td : TemporalDecay) (score : R) (now : Time) :
  minWeight td <= 1 -> Apply td score now now = score.
Proof.
  intros Hm. unfold Apply. destruct (enabled td); simpl; [| reflexivity].
  rewrite decayFactor_now by exact Hm. lra.
Qed.

(** C1.  In weighted mode, for all input lists and every reference time,
    each returned record carries the fused score of its identifier, the
    sum of the contributions of the two sources.  For an identifier held by
    one static and one conversation record this is the static score times
    the static weight plus the conversation score times the conversation
    weight, the latter decayed when the record has a timestamp and not
    decayed when it has none; held by one list only, it is that list's
    contribution.  (Should a list repeat an identifier, the static map
    entry is the last static record and the conversation records add up.)
    The identifiers returned are those of the two lists, each once, and the
    list is in descending order of fused score.  With the default merger,
    static [X=1] and conversation [X=1 at the reference time] fuse to the
    single record X with score 1.  The decay of a timestamped conversation
    record is the factor of [Apply]: with decay enabled and a positive
    half-life H the record contributes score * conversation weight * the
    larger of the floor and exp(-ln 2 * age / H), the age in minutes, and
    with decay disabled score * conversation weight.  With the default
    merger (weights 0.6/0.4, half-life 30, floor 0.01) a conversation
    record X=1 that is 30 minutes old fuses with static X=1 to 0.8 and
    alone to 0.2, and one that is 60 minutes old fuses with static X=1 to
    0.7. *)
Theorem mergeWeighted_fused_scores {rt : GoRuntime} (rm : ResultMerger)
    (staticResults convResults : SearchResults) (currentTime : Time) :
  (forall r, r ∈ mergeWeighted rm staticResults convResults currentTime ->
     Score r = fusedScore rm staticResults convResults currentTime (ID r))
  /\ (forall id s c,
        withID id staticResults = [s] -> withID id convResults = [c] ->
        fusedScore rm staticResults convResults currentTime id
        = Score s * StaticWeight (rm_config rm)
          + match Timestamp c with
            | Some ts =>
                Apply (rm_temporalDecay rm)
                  (Score c * ConversationWeight (rm_config rm)) ts currentTime
            | None => Score c * ConversationWeight (rm_config rm)
            end)
  /\ (forall id s,
        withID id staticResults = [s] -> withID id convResults = [] ->
        fusedScore rm staticResults convResults currentTime id
        = Score s * StaticWeight (rm_config rm))
  /\ (forall id c,
        withID id staticResults = [] -> withID id convResults = [c] ->
        fusedScore rm staticResults convResults currentTime id
        = match Timestamp c with
          | Some ts =>
              Apply (rm_temporalDecay rm)
                (Score c * ConversationWeight (rm_config rm)) ts currentTime
          | None => Score c * ConversationWeight (rm_config rm)
          end)
  /\ (forall id,
        id ∈ (ID <$> mergeWeighted rm staticResults convResults currentTime)
        <-> id ∈ (ID <$> staticResults) \/ id ∈ (ID <$> convResults))
  /\ NoDup (ID <$> mergeWeighted rm staticResults convResults currentTime)
  /\ StronglySorted (fun a b => Score b <= Score a)
       (mergeWeighted rm staticResults convResults currentTime)
  /\ (forall sx cx now,
        ID cx = ID sx -> Score sx = 1 -> Score cx = 1 -> Timestamp cx = Some now ->
        mergeWeighted defaultMerger [sx] [cx] now = [setScore sx 1])
  /\ (forall r c ts,
        r ∈ mergeWeighted rm staticResults convResults currentTime ->
        withID (ID r) convResults = [c] -> Timestamp c = Some ts ->
        enabled (rm_temporalDecay rm) = true ->
        0 < halfLifeMinutes (rm_temporalDecay rm) ->
        let decayed :=
          Score c * ConversationWeight (rm_config rm)
          * Rmax (minWeight (rm_temporalDecay rm))
              (exp (- ln 2 * Minutes (Sub currentTime ts)
                    / halfLifeMinutes (rm_temporalDecay rm))) in
        (forall s, withID (ID r) staticResults = [s] ->
           Score r = Score s * StaticWeight (rm_config rm) + decayed)
        /\ (withID (ID r) staticResults = [] -> Score r = decayed))
  /\ (forall r c,
        r ∈ mergeWeighted rm staticResults convResults currentTime ->
        withID (ID r) convResults = [c] ->
        enabled (rm_temporalDecay rm) = false \/ Timestamp c = None ->
        (forall s, withID (ID r) staticResults = [s] ->
           Score r = Score s * StaticWeight (rm_config rm)
                     + Score c * ConversationWeight (rm_config rm))
        /\ (withID (ID r) staticResults = [] ->
            Score r = Score c * ConversationWeight (rm_config rm)))
  /\ (forall sx cx now ts,
        ID cx = ID sx -> Score sx = 1 -> Score cx = 1 -> Timestamp cx = Some ts ->
        (Minutes (Sub now ts) = 30 ->
         mergeWeighted defaultMerger [sx] [cx] now = [setScore sx (8 / 10)]
         /\ mergeWeighted defaultMerger [] [cx] now = [setScore cx (2 / 10)])
        /\ (Minutes (Sub now ts) = 60 ->
            mergeWeighted defaultMerger [sx] [cx] now = [setScore sx (7 / 10)])).
Proof.
  pose proof (weightedMaps_wf rm staticResults convResults currentTime) as Hwf.
  assert (Hscore : forall r,
            r ∈ mergeWeighted rm staticResults convResults currentTime ->
            Score r = fusedScore rm staticResults convResults currentTime (ID r)).
  { intros r Hin. unfold mergeWeighted in Hin.
    apply collect_elem in Hin; [| exact Hwf].
    destruct Hin as (id & score & s & Hsc & Hs & ->).
    destruct Hwf as [_ Hids]. simpl. rewrite (Hids _ _ Hs).
    rewrite <- weightedMaps_score, Hsc. reflexivity. }
  assert (Hdefault : forall sx cx now ts (factor : R),
            ID cx = ID sx -> Score sx = 1 -> Score cx = 1 -> Timestamp cx = Some ts ->
            1 / 100 <= factor ->
            exp (- ln 2 * Minutes (Sub now ts) / 30) = factor ->
            mergeWeighted defaultMerger [sx] [cx] now
            = [setScore sx (6 / 10 + 4 / 10 * factor)]
            /\ mergeWeighted defaultMerger [] [cx] now
               = [setScore cx (4 / 10 * factor)]).
  { intros sx cx now ts factor Hid Hsx Hcx Hts Hfl Hexp.
    assert (Hconv : weightedConvScore defaultMerger now cx = 4 / 10 * factor).
    { unfold weightedConvScore. rewrite Hts.
      rewrite Apply_enabled by reflexivity. simpl.
      rewrite Hexp, Rmax_right by exact Hfl. rewrite Hcx. lra. }
    split.
    - unfold mergeWeighted, weightedMaps. simpl.
      unfold weightedStaticStep, weightedConvStep, insertBoth, addOrInsert. simpl.
      rewrite Hid, lookup_insert_eq. simpl.
      rewrite insert_insert_eq, !insert_empty.
      rewrite Hconv, Hsx.
      replace (1 * (6 / 10) + 4 / 10 * factor) with (6 / 10 + 4 / 10 * factor) by lra.
      apply collect_singleton. reflexivity.
    - unfold mergeWeighted, weightedMaps. simpl.
      unfold weightedConvStep, addOrInsert, insertBoth. simpl.
      rewrite !insert_empty. rewrite Hconv.
      apply collect_singleton. reflexivity. }
  split; [| split; [| split; [| split; [| split; [| split; [| split;
    [| split; [| split; [| split]]]]]]]]].
  - intros r Hin. unfold mergeWeighted in Hin.
    apply collect_elem in Hin; [| exact Hwf].
    destruct Hin as (id & score & s & Hsc & Hs & ->).
    destruct Hwf as [_ Hids]. simpl. rewrite (Hids _ _ Hs).
    rewrite <- weightedMaps_score, Hsc. reflexivity.
  - intros id s c Hs Hc.
    unfold fusedScore, staticContribution, convContribution, lastWithID.
    rewrite Hs, Hc. unfold weightedConvScore. simpl. lra.
  - intros id s Hs Hc.
    unfold fusedScore, staticContribution, convContribution, lastWithID.
    rewrite Hs, Hc. simpl. lra.
  - intros id c Hs Hc.
    unfold fusedScore, staticContribution, convContribution, lastWithID.
    rewrite Hs, Hc. unfold weightedConvScore. simpl. lra.
  - intros id. unfold mergeWeighted.
    rewrite (collect_id_is_Some _ id Hwf). apply weightedMaps_is_Some.
  - apply collect_NoDup. exact Hwf.
  - apply collect_sorted.
  - intros sx cx now Hid Hsx Hcx Hts.
    unfold mergeWeighted, weightedMaps. simpl.
    unfold weightedStaticStep, weightedConvStep, insertBoth, addOrInsert. simpl.
    rewrite Hid, lookup_insert_eq. simpl.
    rewrite insert_insert_eq, !insert_empty.
    unfold weightedConvScore. rewrite Hts. simpl.
    rewrite Apply_now by (simpl; lra).
    rewrite Hsx, Hcx.
    replace (1 * (6 / 10) + 1 * (4 / 10)) with 1 by lra.
    apply collect_singleton. reflexivity.
  - intros r c ts Hin Hc Hts Hen HH decayed.
    rewrite (Hscore r Hin).
    unfold fusedScore, staticContribution, convContribution, lastWithID.
    rewrite Hc.
    assert (Hw : weightedConvScore rm currentTime c = decayed).
    { unfold weightedConvScore. rewrite Hts.
      rewrite Apply_enabled by exact Hen. unfold decayed. ring. }
    simpl. rewrite Hw.
    split.
    + intros s Hs. rewrite Hs. simpl. lra.
    + intros Hs. rewrite Hs. simpl. lra.
  - intros r c Hin Hc Hoff.
    rewrite (Hscore r Hin).
    unfold fusedScore, staticContribution, convContribution, lastWithID.
    rewrite Hc.
    assert (Hw : weightedConvScore rm currentTime c
                 = Score c * ConversationWeight (rm_config rm)).
    { unfold weightedConvScore, Apply.
      destruct Hoff as [Hoff | Hoff]; rewrite Hoff;
        [destruct (Timestamp c) |]; reflexivity. }
    simpl. rewrite Hw.
    split.
    + intros s Hs. rewrite Hs. simpl. lra.
    + intros Hs. rewrite Hs. simpl. lra.
  - intros sx cx now ts Hid Hsx Hcx Hts. split.
    + intros Hage.
      destruct (Hdefault sx cx now ts (1 / 2) Hid Hsx Hcx Hts ltac:(lra)
                  (exp_one_half_life 30 _ ltac:(lra) Hage)) as [H1 H2].
      rewrite H1, H2.
      replace (6 / 10 + 4 / 10 * (1 / 2)) with (8 / 10) by lra.
      replace (4 / 10 * (1 / 2)) with (2 / 10) by lra.
      split; reflexivity.
    + intros Hage.
      assert (Htwo : Minutes (Sub now ts) = 2 * 30) by lra.
      destruct (Hdefault sx cx now ts (1 / 4) Hid Hsx Hcx Hts ltac:(lra)
                  (exp_two_half_lives 30 _ ltac:(lra) Htwo)) as [H1 _].
      rewrite H1.
      replace (6 / 10 + 4 / 10 * (1 / 4)) with (7 / 10) by lra.
      reflexivity.
Qed.

Lemma mergeWeighted_fused_scores_witness :
  let sx := mkSearchResult "X" "doc" 1 "static text" ∅ SourceStatic None in
  let cx := mkSearchResult "X" "turn" 1 "said earlier" ∅ SourceConversation (Some 0%Z) in
  @mergeWeighted referenceRuntime defaultMerger [sx] [cx] 0%Z = [setScore sx 1]
  /\ @mergeWeighted referenceRuntime defaultMerger [sx] [cx] 1800000000000%Z
     = [setScore sx (8 / 10)]
  /\ @mergeWeighted referenceRuntime defaultMerger [] [cx] 1800000000000%Z
     = [setScore cx (2 / 10)]
  /\ @mergeWeighted referenceRuntime defaultMerger [sx] [cx] 3600000000000%Z
     = [setScore sx (7 / 10)].
Proof.
  intros sx cx.
  destruct (mergeWeighted_fused_scores (rt := referenceRuntime) defaultMerger [] [] 0%Z)
    as (_ & _ & _ & _ & _ & _ & _ & Hnow & _ & _ & Haged).
  assert (H30 : Minutes (Sub 1800000000000%Z 0%Z) = 30).
  { rewrite Minutes_eq. change (Sub 1800000000000%Z 0%Z) with 1800000000000%Z. lra. }
  assert (H60 : Minutes (Sub 3600000000000%Z 0%Z) = 60).
  { rewrite Minutes_eq. change (Sub 3600000000000%Z 0%Z) with 3600000000000%Z. lra. }
  split; [apply Hnow; reflexivity |].
  destruct (Haged sx cx 1800000000000%Z 0%Z eq_refl eq_refl eq_refl eq_refl)
    as [Hhalf _].
  destruct (Haged sx cx 3600000000000%Z 0%Z eq_refl eq_refl eq_refl eq_refl)
    as [_ Hquarter].
  destruct (Hhalf H30) as [H1 H2].
  split; [exact H1 |]. split; [exact H2 | exact (Hquarter H60)].
Defined.

(** C10.  In both merges, for an identifier that occurs in the static and
    in the conversation list, exactly one record with that identifier is
    returned; it is the static-side record (the last one the static list
    holds for the identifier) with every field but Score unchanged, and
    its Score is the fused score the merge computed.  Nothing of the
    conversation record is used. *)
Theorem merge_keeps_static_record {rt : GoRuntime} (rm : ResultMerger)
    (staticResults convResults : SearchResults) (currentTime : Time) (id : string) :
  id ∈ (ID <$> staticResults) ->
  id ∈ (ID <$> convResults) ->
  exists s,
    lastWithID id staticResults = Some s /\ s ∈ staticResults /\ ID s = id
    /\ (exists score,
          score = fusedScore rm staticResults convResults currentTime id
          /\ setScore s score ∈ mergeWeighted rm staticResults convResults currentTime
          /\ forall r, r ∈ mergeWeighted rm staticResults convResults currentTime ->
               ID r = id ->
               ID r = ID s /\ DocID r = DocID s /\ Text r = Text s
               /\ Metadata r = Metadata s /\ Source r = Source s
               /\ Timestamp r = Timestamp s /\ Score r = score)
    /\ (exists score,
          fst (rrfMaps rm staticResults convResults currentTime) !! id = Some score
          /\ setScore s score ∈ mergeRRF rm staticResults convResults currentTime
          /\ forall r, r ∈ mergeRRF rm staticResults convResults currentTime ->
               ID r = id ->
               ID r = ID s /\ DocID r = DocID s /\ Text r = Text s
               /\ Metadata r = Metadata s /\ Source r = Source s
               /\ Timestamp r = Timestamp s /\ Score r = score).
Proof.
  intros Hst _.
  apply lastWithID_is_Some in Hst. destruct Hst as [s Hl].
  destruct (lastWithID_Some _ _ _ Hl) as [Hid Hin].
  exists s. split; [exact Hl |]. split; [exact Hin |]. split; [exact Hid |]. split.
  - pose proof (weightedMaps_wf rm staticResults convResults currentTime) as Hwf.
    pose proof (weightedMaps_result rm staticResults convResults currentTime id s Hl) as Hs.
    assert (is_Some (fst (weightedMaps rm staticResults convResults currentTime) !! id))
      as [score Hsc] by (apply Hwf; eauto).
    exists score.
    destruct (collect_unique _ id s score Hwf Hs Hsc) as [Hmem Huniq].
    split; [| split].
    + rewrite <- weightedMaps_score, Hsc. reflexivity.
    + exact Hmem.
    + intros r Hr Hrid. rewrite (Huniq r Hr Hrid). repeat split.
  - pose proof (rrfMaps_wf rm staticResults convResults currentTime) as Hwf.
    destruct (rrfMaps_result rm staticResults convResults currentTime id s Hl)
      as [Hs [score Hsc]].
    exists score.
    destruct (collect_unique _ id s score Hwf Hs Hsc) as [Hmem Huniq].
    split; [exact Hsc |]. split; [exact Hmem |].
    intros r Hr Hrid. rewrite (Huniq r Hr Hrid). repeat split.
Qed.

Lemma merge_keeps_static_record_witness :
  let sx := mkSearchResult "X" "doc" 1 "static text" ∅ SourceStatic None in
  let cx := mkSearchResult "X" "turn" 1 "said earlier" ∅ SourceConversation (Some 0%Z) in
  exists s, lastWithID "X" [sx] = Some s /\ s ∈ [sx] /\ ID s = "X"%string.
Proof.
  intros sx cx.
  destruct (merge_keeps_static_record (rt := referenceRuntime) defaultMerger
              [sx] [cx] 0%Z "X")
    as (s & Hl & Hin & Hid & _).
  - constructor.
  - constructor.
  - exists s. auto.
Defined.

(** ** The adapter: response parsing *)

Section Parsing.

Implicit Types (data objMap : gmap string JValue) (path : list string).

Lemma navigate_error current path err :
  Client.navigate current path = inr err ->
  exists key, key ∈ path
    /\ (err = Errorf ("key not found: " +:+ key)
        \/ err = Errorf ("unexpected type at path " +:+ key)).
Proof.
  revert current. induction path as [| key rest IH]; intros current; simpl.
  - discriminate.
  - destruct current as [| b | x | str | elems | m];
      try (intros Hn; inversion Hn; exists key; split; [left | right; reflexivity]).
    destruct (m !! key) as [val |].
    + intros Hn. destruct (IH _ Hn) as (k & Hk & He).
      exists k. split; [right; exact Hk | exact He].
    + intros Hn. inversion Hn. exists key. split; [left | left; reflexivity].
Qed.

Lemma parseSearchResults_navigate data path :
  Client.parseSearchResults data path
  = match Client.navigate (JObject data) path with
    | inr err => inr err
    | inl current =>
        inl (Client.extractObjects current
               (fun objMap => setSource (Client.extractSearchResult objMap) SourceStatic))
    end.
Proof. reflexivity. Qed.

Lemma extractSearchResult_fields objMap :
  let additional := default ∅ (assertObject (objMap !! "_additional"%string)) in
  let result := Client.extractSearchResult objMap in
  ID result = default EmptyString (assertString (additional !! "id"%string))
  /\ Score result = default 0 (assertNumber (additional !! "score"%string))
  /\ Text result = default EmptyString (textField objMap)
  /\ Source result = EmptyString
  /\ Timestamp result = None.
Proof.
  unfold Client.extractSearchResult, textField.
  destruct (assertObject (objMap !! "_additional"%string)) as [additional |]; simpl.
  - destruct (assertString (additional !! "id"%string)),
      (assertNumber (additional !! "score"%string)),
      (assertString (objMap !! "message"%string)),
      (assertString (objMap !! "content"%string)),
      (assertString (objMap !! "title"%string)); simpl; auto.
  - rewrite lookup_empty. simpl.
    destruct (assertString (objMap !! "message"%string)),
      (assertString (objMap !! "content"%string)),
      (assertString (objMap !! "title"%string)); simpl; auto.
Qed.

Lemma extractObjects_array elems (extract : gmap string JValue -> SearchResult) :
  Client.extractObjects (JArray elems) extract = extract <$> objectsOf elems.
Proof.
  unfold Client.extractObjects, objectsOf.
  change (assertArray (Some (JArray elems))) with (Some elems). cbv beta iota.
  induction elems as [| v l IH]; [reflexivity |].
  destruct v; simpl; first [exact IH | f_equal; exact IH].
Qed.

Lemma navigate_result_path data collection g v :
  data !! "Get"%string = Some (JObject g) -> g !! collection = Some v ->
  Client.navigate (JObject data) (GetResultPath collection) = inl v.
Proof. intros Hg Hv. unfold GetResultPath. simpl. rewrite Hg. simpl. rewrite Hv. reflexivity. Qed.

Lemma navigate_app current pre post :
  Client.navigate current (pre ++ post)
  = match Client.navigate current pre with
    | inl reached => Client.navigate reached post
    | inr err => inr err
    end.
Proof.
  revert current. induction pre as [| key rest IH]; intros current; [reflexivity |].
  simpl. destruct current as [| b | x | str | elems | m]; try reflexivity.
  simpl. destruct (m !! key) as [val |]; [apply IH | reflexivity].
Qed.

Lemma objectsOf_elem elems objMap :
  JObject objMap ∈ elems -> objMap ∈ objectsOf elems.
Proof.
  intros Hin. unfold objectsOf. apply list_elem_of_omap.
  exists (JObject objMap). split; [exact Hin | reflexivity].
Qed.

End Parsing.

(** C7, as the code has it.  Parsing a decoded response always returns,
    with a result list or an error.  It returns an error exactly when the
    navigation of the path fails, and that error names the key that was
    missing or whose parent was not an object: a key of the path that is
    missing from the object reached so far gives "key not found", a value
    reached that is not an object and still has a key to follow gives
    "unexpected type at path"; so for the path of a collection with
    ["Get"] or the collection missing, or ["Get"] not an object.  Past the
    path nothing is an error: a value that is not an array gives the empty
    list, an array gives one record for each of its elements that is an
    object, in order, whatever that object holds, and a record's
    identifier, score and text are the values found under
    [_additional.id], [_additional.score] and the text fields when they
    have the expected type and the zero value (empty string, 0) when the
    key is missing or of another type. *)
Theorem parse_errors_only_on_path (data : gmap string JValue) (path : list string) :
  ((exists results, Client.parseSearchResults data path = inl results)
   \/ (exists err, Client.parseSearchResults data path = inr err))
  /\ (forall err, Client.parseSearchResults data path = inr err
                  <-> Client.navigate (JObject data) path = inr err)
  /\ (forall err, Client.parseSearchResults data path = inr err ->
        exists key, key ∈ path
          /\ (err = Errorf ("key not found: " +:+ key)
              \/ err = Errorf ("unexpected type at path " +:+ key)))
  /\ (forall current, Client.navigate (JObject data) path = inl current ->
        assertArray (Some current) = None ->
        Client.parseSearchResults data path = inl [])
  /\ (forall objMap : gmap string JValue,
        let result := Client.extractSearchResult objMap in
        (assertObject (objMap !! "_additional"%string) = None ->
         ID result = EmptyString /\ Score result = 0)
        /\ (forall additional,
              assertObject (objMap !! "_additional"%string) = Some additional ->
              (assertString (additional !! "id"%string) = None ->
               ID result = EmptyString)
              /\ (assertNumber (additional !! "score"%string) = None ->
                  Score result = 0)
              /\ (forall id, assertString (additional !! "id"%string) = Some id ->
                    ID result = id)
              /\ (forall score, assertNumber (additional !! "score"%string) = Some score ->
                    Score result = score))
        /\ (textField objMap = None -> Text result = EmptyString)
        /\ (forall text, textField objMap = Some text -> Text result = text))
  /\ (forall pre key post reached,
        path = pre ++ key :: post ->
        Client.navigate (JObject data) pre = inl reached ->
        (assertObject (Some reached) = None ->
         Client.parseSearchResults data path
         = inr (Errorf ("unexpected type at path " +:+ key)))
        /\ (forall m, assertObject (Some reached) = Some m -> m !! key = None ->
              Client.parseSearchResults data path
              = inr (Errorf ("key not found: " +:+ key))))
  /\ (forall collection,
        path = GetResultPath collection ->
        (data !! "Get"%string = None ->
         Client.parseSearchResults data path = inr (Errorf "key not found: Get"))
        /\ (forall v, data !! "Get"%string = Some v -> assertObject (Some v) = None ->
              Client.parseSearchResults data path
              = inr (Errorf ("unexpected type at path " +:+ collection)))
        /\ (forall g, data !! "Get"%string = Some (JObject g) -> g !! collection = None ->
              Client.parseSearchResults data path
              = inr (Errorf ("key not found: " +:+ collection)))
        /\ (forall g elems,
              data !! "Get"%string = Some (JObject g) ->
              g !! collection = Some (JArray elems) ->
              Client.parseSearchResults data path
              = inl ((fun objMap =>
                        setSource (Client.extractSearchResult objMap) SourceStatic)
                       <$> objectsOf elems)))
  /\ (forall elems, Client.navigate (JObject data) path = inl (JArray elems) ->
        exists results,
          Client.parseSearchResults data path = inl results
          /\ length results = length (objectsOf elems)
          /\ (forall i objMap, objectsOf elems !! i = Some objMap ->
                results !! i
                = Some (setSource (Client.extractSearchResult objMap) SourceStatic))
          /\ (forall objMap, JObject objMap ∈ elems ->
                setSource (Client.extractSearchResult objMap) SourceStatic ∈ results)).
Proof.
  rewrite parseSearchResults_navigate.
  split; [| split; [| split; [| split; [| split; [| split; [| split]]]]]].
  - destruct (Client.navigate (JObject data) path); eauto.
  - intros err. destruct (Client.navigate (JObject data) path);
      split; intros Heq; inversion Heq; reflexivity.
  - intros err Hp. apply (navigate_error (JObject data)).
    destruct (Client.navigate (JObject data) path); [discriminate |].
    inversion Hp. reflexivity.
  - intros current Hn Ha. rewrite Hn. unfold Client.extractObjects. rewrite Ha.
    reflexivity.
  - intros objMap result.
    destruct (extractSearchResult_fields objMap) as (Hid & Hsc & Htx & _).
    fold result in Hid, Hsc, Htx.
    split; [| split; [| split]].
    + intros Ha. rewrite Ha in Hid, Hsc. simpl in Hid, Hsc.
      rewrite lookup_empty in Hid, Hsc. auto.
    + intros additional Ha. rewrite Ha in Hid, Hsc. simpl in Hid, Hsc.
      repeat split.
      * intros Hn. rewrite Hn in Hid. exact Hid.
      * intros Hn. rewrite Hn in Hsc. exact Hsc.
      * intros id Hs. rewrite Hs in Hid. exact Hid.
      * intros score Hs. rewrite Hs in Hsc. exact Hsc.
    + intros Hn. rewrite Hn in Htx. exact Htx.
    + intros text Hs. rewrite Hs in Htx. exact Htx.
  - intros pre key post reached -> Hpre.
    rewrite navigate_app, Hpre. simpl. split.
    + intros Hno. rewrite Hno. reflexivity.
    + intros m Hm Hkey. rewrite Hm, Hkey. reflexivity.
  - intros collection ->. unfold GetResultPath. simpl.
    split; [| split; [| split]].
    + intros Hget. rewrite Hget. reflexivity.
    + intros v Hget Hno. rewrite Hget. simpl. rewrite Hno. reflexivity.
    + intros g Hget Hcol. rewrite Hget. simpl. rewrite Hcol. reflexivity.
    + intros g elems Hget Hcol. rewrite Hget. simpl. rewrite Hcol.
      rewrite extractObjects_array. reflexivity.
  - intros elems Hn. rewrite Hn, extractObjects_array.
    eexists. split; [reflexivity |].
    split; [apply length_fmap |]. split.
    + intros i objMap Hi. rewrite list_lookup_fmap, Hi. reflexivity.
    + intros objMap Hin. apply list_elem_of_fmap.
      exists objMap. split; [reflexivity | apply objectsOf_elem; exact Hin].
Qed.

Lemma parse_errors_only_on_path_witness :
  let data : gmap string JValue :=
    {[ "Get"%string := JObject {[ "KnowledgeBase"%string := JArray [JObject ∅] ]} ]} in
  (exists key, key ∈ ["Get"%string; "KnowledgeBase"%string]
     /\ (Errorf "key not found: Get" = Errorf ("key not found: " +:+ key)
         \/ Errorf "key not found: Get" = Errorf ("unexpected type at path " +:+ key)))
  /\ Client.parseSearchResults ∅ (GetResultPath "KnowledgeBase")
     = inr (Errorf "key not found: Get")
  /\ Client.parseSearchResults data (GetResultPath "KnowledgeBase")
     = inl ((fun objMap => setSource (Client.extractSearchResult objMap) SourceStatic)
              <$> objectsOf [JObject ∅]).
Proof.
  intros data.
  destruct (parse_errors_only_on_path ∅ ["Get"%string; "KnowledgeBase"%string])
    as (_ & _ & Herr & _ & _ & _ & Hpath & _).
  destruct (parse_errors_only_on_path data (GetResultPath "KnowledgeBase"))
    as (_ & _ & _ & _ & _ & _ & Hdata & _).
  split; [apply Herr; reflexivity |].
  destruct (Hpath "KnowledgeBase"%string eq_refl) as (Hmissing & _).
  destruct (Hdata "KnowledgeBase"%string eq_refl) as (_ & _ & _ & Harray).
  split.
  - apply Hmissing. reflexivity.
  - apply (Harray {[ "KnowledgeBase"%string := JArray [JObject ∅] ]}).
    + unfold data. apply lookup_singleton_eq.
    + apply lookup_singleton_eq.
Defined.

(** C7 as stated fails: the response [{"Get": {"KnowledgeBase": [{}]}}]
    holds one record without [_additional.id], [_additional.score] and any
    text field; it is parsed without error into a record with the empty
    identifier, score 0 and empty text. *)
Lemma parse_missing_fields_counterexample :
  let data : gmap string JValue :=
    {[ "Get"%string := JObject {[ "KnowledgeBase"%string := JArray [JObject ∅] ]} ]} in
  Client.parseSearchResults data (GetResultPath "KnowledgeBase")
  = inl [mkSearchResult EmptyString EmptyString 0 EmptyString ∅ SourceStatic None].
Proof.
  intros data. unfold Client.parseSearchResults, GetResultPath, data. simpl.
  rewrite lookup_singleton_eq. simpl. rewrite lookup_singleton_eq. simpl.
  unfold Client.extractObjects. simpl.
  unfold Client.extractSearchResult. rewrite !lookup_empty. simpl.
  rewrite map_filter_empty. reflexivity.
Qed.

(** ** The coordinator: hybrid search *)

Lemma applyLimit_singleton (query : Query) (r : SearchResult) :
  applyLimit query [r] = [r].
Proof.
  unfold applyLimit. change (Z.of_nat (length [r])) with 1%Z.
  destruct (0 <? Limit query)%Z eqn:E1; [| reflexivity].
  destruct (Limit query <? 1)%Z eqn:E2; [| reflexivity].
  apply Z.ltb_lt in E1, E2. lia.
Qed.

Lemma Merge_default_weighted {rt : GoRuntime} staticResults convResults currentTime :
  Merge defaultMerger staticResults convResults currentTime
  = mergeWeighted defaultMerger staticResults convResults currentTime.
Proof. reflexivity. Qed.

Lemma mergeWeighted_conv_only_default {rt : GoRuntime} (y : SearchResult) (now : Time) :
  Score y = 7 / 10 -> Timestamp y = Some now ->
  mergeWeighted defaultMerger [] [y] now = [setScore y (28 / 100)].
Proof.
  intros Hy Hts. unfold mergeWeighted, weightedMaps. simpl.
  unfold weightedConvStep, addOrInsert, insertBoth. simpl.
  rewrite !insert_empty.
  unfold weightedConvScore. rewrite Hts. simpl.
  rewrite Apply_now by (simpl; lra). rewrite Hy.
  replace (7 / 10 * (4 / 10)) with (28 / 100) by lra.
  apply collect_singleton. reflexivity.
Qed.

(** C2.  On an open retriever: when both sub-searches fail, the outcome is
    one error whose message names both failures, and no results; when
    exactly one fails, its side is replaced by the empty list, the other
    list is fused and cut to the limit, and no error is returned; when
    both succeed the two lists are fused and cut to the limit.  With the
    default merger, a failed static search and the conversation list
    [Y=0.7 at the reference time] give the list [Y=0.28]. *)
Theorem SearchHybrid_partial_failure {rt : GoRuntime} {be : Backend}
    (r : AgentRAGRetriever) (now : Time) (query : Query) :
  closed r = false ->
  let staticOutcome := fst (Client.SearchStatic (client r) query) in
  let convOutcome :=
    fst (Client.SearchConversation (snd (Client.SearchStatic (client r) query)) query) in
  (forall staticErr convErr,
     staticOutcome = inr staticErr -> convOutcome = inr convErr ->
     exists err,
       fst (SearchHybrid r now query) = inr err
       /\ Error err = "both searches failed: static=" +:+ Error staticErr
                        +:+ ", conversation=" +:+ Error convErr)
  /\ (forall staticErr convResults,
        staticOutcome = inr staticErr -> convOutcome = inl convResults ->
        fst (SearchHybrid r now query)
        = inl (applyLimit query (Merge (merger r) [] convResults now)))
  /\ (forall staticResults convErr,
        staticOutcome = inl staticResults -> convOutcome = inr convErr ->
        fst (SearchHybrid r now query)
        = inl (applyLimit query (Merge (merger r) staticResults [] now)))
  /\ (forall staticResults convResults,
        staticOutcome = inl staticResults -> convOutcome = inl convResults ->
        fst (SearchHybrid r now query)
        = inl (applyLimit query (Merge (merger r) staticResults convResults now)))
  /\ (forall staticErr y,
        merger r = defaultMerger ->
        staticOutcome = inr staticErr -> convOutcome = inl [y] ->
        Score y = 7 / 10 -> Timestamp y = Some now ->
        fst (SearchHybrid r now query) = inl [setScore y (28 / 100)]).
Proof.
  intros Hopen staticOutcome convOutcome.
  assert (Hrun : fst (SearchHybrid r now query)
                 = match staticOutcome, convOutcome with
                   | inr staticErr, inr convErr =>
                       inr (Errorf ("both searches failed: static=" +:+ Error staticErr
                                      +:+ ", conversation=" +:+ Error convErr))
                   | _, _ =>
                       inl (applyLimit query
                              (Merge (merger r)
                                 match staticOutcome with inl rs => rs | inr _ => [] end
                                 match convOutcome with inl rs => rs | inr _ => [] end
                                 now))
                   end).
  { subst staticOutcome convOutcome. unfold SearchHybrid. rewrite Hopen.
    destruct (Client.SearchStatic (client r) query) as [so wc1]. simpl.
    destruct (Client.SearchConversation wc1 query) as [co wc2]. simpl.
    destruct so, co; reflexivity. }
  split; [| split; [| split; [| split]]].
  - intros staticErr convErr Hs Hc. rewrite Hrun, Hs, Hc. eexists. split; reflexivity.
  - intros staticErr convResults Hs Hc. rewrite Hrun, Hs, Hc. reflexivity.
  - intros staticResults convErr Hs Hc. rewrite Hrun, Hs, Hc. reflexivity.
  - intros staticResults convResults Hs Hc. rewrite Hrun, Hs, Hc. reflexivity.
  - intros staticErr y Hm Hs Hc Hy Hts. rewrite Hrun, Hs, Hc, Hm.
    rewrite Merge_default_weighted, (mergeWeighted_conv_only_default y now Hy Hts).
    rewrite applyLimit_singleton. reflexivity.
Qed.

(** S3 end to end: the knowledge base is down, the conversation
    collection returns Y with score 0.7 dated at the reference time. *)
Section StaticDown.

Let query : Query := mkQuery "test query" [] ∅ 10 None false.
Let wc : WeaviateClient :=
  mkWeaviateClient "http://localhost:8080" EmptyString DefaultIndexConfig [].

Lemma staticDown_static (now : Time) :
  fst (@Client.SearchStatic (staticDownBackend now) wc query)
  = inr (Wrapf "static search failed: " (Errorf "request failed: connection refused")).
Proof. reflexivity. Qed.

Lemma turnY_lookups :
  turnY !! "_additional"%string
  = Some (JObject (<["id"%string := JString "Y"]> {[ "score"%string := JNumber (7 / 10) ]}))
  /\ turnY !! "message"%string = Some (JString "about Y")
  /\ turnY !! "timestamp"%string = Some (JString "2026-02-20T10:00:00Z").
Proof. unfold turnY. repeat split; simplify_map_eq; reflexivity. Qed.

Lemma staticDown_conv (now : Time) (wc' : WeaviateClient) :
  wc_config wc' = DefaultIndexConfig ->
  exists y,
    fst (@Client.SearchConversation (staticDownBackend now) wc' query) = inl [y]
    /\ ID y = "Y"%string /\ Score y = 7 / 10 /\ Text y = "about Y"%string
    /\ Source y = SourceConversation /\ Timestamp y = Some now.
Proof.
  intros Hcfg.
  destruct turnY_lookups as (Hadd & Hmsg & Hts).
  exists (setTimestamp (setSource (Client.extractSearchResult turnY) SourceConversation)
            (Some now)).
  split.
  - unfold Client.SearchConversation, Client.executeGraphQL. rewrite Hcfg. simpl.
    rewrite ?Hcfg. unfold Client.parseConversationResults, GetResultPath. simpl.
    rewrite lookup_singleton_eq. simpl. rewrite lookup_singleton_eq. simpl.
    unfold Client.extractObjects. simpl. rewrite Hts. reflexivity.
  - destruct (extractSearchResult_fields turnY) as (Hid & Hsc & Htx & _).
    unfold textField in Htx. rewrite Hadd in Hid, Hsc. rewrite Hmsg in Htx.
    simpl in Hid, Hsc, Htx.
    rewrite lookup_insert_eq in Hid.
    rewrite lookup_insert_ne, lookup_singleton_eq in Hsc by discriminate.
    simpl. auto.
Qed.

End StaticDown.

Lemma SearchHybrid_partial_failure_witness :
  let query := mkQuery "test query" [] ∅ 10 None false in
  let r := defaultRetriever "http://localhost:8080" EmptyString in
  exists y,
    fst (@SearchHybrid referenceRuntime (staticDownBackend 0%Z) r 0%Z query) = inl [y]
    /\ ID y = "Y"%string /\ Score y = 28 / 100.
Proof.
  intros query r.
  destruct (staticDown_conv 0%Z
              (snd (@Client.SearchStatic (staticDownBackend 0%Z) (client r) query))
              eq_refl)
    as (y & Hconv & Hid & Hscore & _ & _ & Hts).
  destruct (SearchHybrid_partial_failure (rt := referenceRuntime)
              (be := staticDownBackend 0%Z) r 0%Z query eq_refl)
    as (_ & _ & _ & _ & Hs3).
  exists (setScore y (28 / 100)). split.
  - apply (Hs3 _ y eq_refl (staticDown_static 0%Z) Hconv Hscore Hts).
  - split; [exact Hid | reflexivity].
Defined.

(** ** Configuration validation *)

Ltac eval_Rcmp :=
  repeat match goal with
    | |- context [Rltb ?x ?y] =>
        first [ rewrite (proj2 (Rltb_true x y)) by lra
              | rewrite (proj2 (Rltb_false x y)) by lra ]
    | |- context [Rgtb ?x ?y] =>
        first [ rewrite (proj2 (Rgtb_true x y)) by lra
              | rewrite (proj2 (Rgtb_false x y)) by lra ]
    | |- context [Rleb ?x ?y] =>
        first [ rewrite (proj2 (Rleb_true x y)) by lra
              | rewrite (proj2 (Rleb_false x y)) by lra ]
    end.

Lemma Validate_cases (c : MergeConfig) :
  (Validate c = None /\ rangesOk c)
  \/ (Validate c = Some ErrInvalidWeight
      /\ ~ (0 <= StaticWeight c <= 1 /\ 0 <= ConversationWeight c <= 1))
  \/ (Validate c = Some ErrInvalidHalfLife
      /\ 0 <= StaticWeight c <= 1 /\ 0 <= ConversationWeight c <= 1
      /\ HalfLifeMinutes c <= 0)
  \/ (Validate c = Some ErrInvalidMinWeight
      /\ 0 <= StaticWeight c <= 1 /\ 0 <= ConversationWeight c <= 1
      /\ 0 < HalfLifeMinutes c /\ ~ 0 <= MinTemporalWeight c <= 1).
Proof.
  unfold Validate, rangesOk, Rltb, Rgtb, Rleb.
  destruct (Rlt_dec (StaticWeight c) 0); simpl; [right; left; split; [reflexivity | lra] |].
  destruct (Rgt_dec (StaticWeight c) 1); simpl; [right; left; split; [reflexivity | lra] |].
  destruct (Rlt_dec (ConversationWeight c) 0); simpl;
    [right; left; split; [reflexivity | lra] |].
  destruct (Rgt_dec (ConversationWeight c) 1); simpl;
    [right; left; split; [reflexivity | lra] |].
  destruct (Rle_dec (HalfLifeMinutes c) 0); simpl;
    [right; right; left; split; [reflexivity | lra] |].
  destruct (Rlt_dec (MinTemporalWeight c) 0); simpl;
    [right; right; right; split; [reflexivity | lra] |].
  destruct (Rgt_dec (MinTemporalWeight c) 1); simpl;
    [right; right; right; split; [reflexivity | lra] |].
  left. split; [reflexivity | lra].
Qed.

Lemma Validate_None (c : MergeConfig) : Validate c = None <-> rangesOk c.
Proof.
  destruct (Validate_cases c) as [[Hv Hr] | [[Hv Hr] | [[Hv Hr] | [Hv Hr]]]];
    rewrite Hv; unfold rangesOk; split; intros; try discriminate; try tauto; try lra.
Qed.

Lemma Validate_default : Validate DefaultMergeConfig = None.
Proof. apply Validate_None. unfold rangesOk. simpl. lra. Qed.

Lemma NewResultMerger_default : NewResultMerger DefaultMergeConfig = inl defaultMerger.
Proof. unfold NewResultMerger. rewrite Validate_default. reflexivity. Qed.

Lemma NewAgentRAGRetriever_default (weaviateHost apiKey : string) :
  NewAgentRAGRetriever weaviateHost apiKey None None
  = inl (defaultRetriever weaviateHost apiKey).
Proof.
  unfold NewAgentRAGRetriever. simpl.
  rewrite Validate_default, NewResultMerger_default. reflexivity.
Qed.

(** C6, as the code has it.  A config is accepted, at construction and by
    [UpdateConfig], exactly when both weights lie in [0,1], the half-life is
    positive and the minimum multiplier lies in [0,1]; the algorithm selector
    and the RRF constant take no part in validation.  A config outside these
    ranges is rejected with the error of the first violated range, and the
    retriever is left exactly as it was. *)
Theorem validation_checks_ranges_only (c : MergeConfig) :
  (Validate c = None <-> rangesOk c)
  /\ (forall err, Validate c = Some err ->
        (err = ErrInvalidWeight
         /\ ~ (0 <= StaticWeight c <= 1 /\ 0 <= ConversationWeight c <= 1))
        \/ (err = ErrInvalidHalfLife /\ HalfLifeMinutes c <= 0)
        \/ (err = ErrInvalidMinWeight /\ ~ 0 <= MinTemporalWeight c <= 1))
  /\ (forall algorithm k,
        Validate (mkMergeConfig (StaticWeight c) (ConversationWeight c)
                    (TemporalDecayEnabled c) (HalfLifeMinutes c)
                    (MinTemporalWeight c) algorithm k)
        = Validate c)
  /\ (forall r err, Validate c = Some err -> UpdateConfig r c = (Some err, r))
  /\ (forall r, Validate c = None ->
        fst (UpdateConfig r c) = None
        /\ config (snd (UpdateConfig r c)) = c
        /\ rm_config (merger (snd (UpdateConfig r c))) = c)
  /\ (forall weaviateHost apiKey ic err, Validate c = Some err ->
        NewAgentRAGRetriever weaviateHost apiKey (Some c) ic
        = inr (Wrapf "invalid config: " err))
  /\ (forall weaviateHost apiKey ic, Validate c = None ->
        exists r, NewAgentRAGRetriever weaviateHost apiKey (Some c) ic = inl r
                  /\ config r = c /\ rm_config (merger r) = c /\ closed r = false).
Proof.
  split; [apply Validate_None |].
  split.
  { intros err Hv.
    destruct (Validate_cases c) as [[Hv' Hr] | [[Hv' Hr] | [[Hv' Hr] | [Hv' Hr]]]];
      rewrite Hv' in Hv; inversion Hv; subst; tauto. }
  split; [intros algorithm k; reflexivity |].
  split; [intros r err Hv; unfold UpdateConfig; rewrite Hv; reflexivity |].
  split.
  { intros r Hv. unfold UpdateConfig, SetConfig. rewrite Hv. simpl. auto. }
  split.
  { intros h k ic err Hv. unfold NewAgentRAGRetriever. simpl. rewrite Hv. reflexivity. }
  intros h k ic Hv. unfold NewAgentRAGRetriever, NewResultMerger. simpl. rewrite Hv.
  eexists. split; [reflexivity |]. auto.
Qed.

Lemma Validate_weight_above_one :
  Validate (mkMergeConfig (15 / 10) (4 / 10) true 30 (1 / 100) "weighted" 60)
  = Some ErrInvalidWeight.
Proof. unfold Validate. simpl. eval_Rcmp. reflexivity. Qed.

Lemma validation_checks_ranges_only_witness :
  let c := mkMergeConfig (15 / 10) (4 / 10) true 30 (1 / 100) "weighted" 60 in
  let r := defaultRetriever "http://localhost:8080" EmptyString in
  UpdateConfig r c = (Some ErrInvalidWeight, r)
  /\ NewAgentRAGRetriever "http://localhost:8080" EmptyString (Some c) None
     = inr (Wrapf "invalid config: " ErrInvalidWeight).
Proof.
  intros c r.
  destruct (validation_checks_ranges_only c) as (_ & _ & _ & Hupd & _ & Hnew & _).
  split.
  - apply Hupd. exact Validate_weight_above_one.
  - apply Hnew. exact Validate_weight_above_one.
Defined.

(** C6 as stated fails: the config of weights 0.7/0.3, half-life 60, floor
    0, selector "bm25" and RRF constant 0 passes validation, is installed by
    [UpdateConfig] and is accepted at construction, although its selector
    is neither "weighted" nor "rrf" and its RRF constant is not positive. *)
Lemma validation_accepts_unknown_algorithm_counterexample :
  let c := mkMergeConfig (7 / 10) (3 / 10) true 60 0 "bm25" 0 in
  let r := defaultRetriever "http://localhost:8080" EmptyString in
  Validate c = None
  /\ fst (UpdateConfig r c) = None
  /\ config (snd (UpdateConfig r c)) = c
  /\ (exists r', NewAgentRAGRetriever "http://localhost:8080" EmptyString (Some c) None
                 = inl r' /\ config r' = c)
  /\ Algorithm c <> "weighted"%string
  /\ Algorithm c <> "rrf"%string
  /\ ~ (0 < RRFK c)%Z.
Proof.
  intros c r.
  assert (Hv : Validate c = None).
  { apply Validate_None. unfold rangesOk. simpl. lra. }
  split; [exact Hv |].
  split; [unfold UpdateConfig; rewrite Hv; reflexivity |].
  split; [unfold UpdateConfig; rewrite Hv; reflexivity |].
  split.
  { unfold NewAgentRAGRetriever, NewResultMerger. simpl. rewrite Hv.
    eexists. split; reflexivity. }
  split; [discriminate |]. split; [discriminate |]. simpl. lia.
Qed.

(** ** The coordinator: life cycle *)

Section Lifecycle.

Context {rt : GoRuntime} {be : Backend}.

Implicit Types (r : AgentRAGRetriever) (query : Query) (now : Time).

(** The first [Close] sets the flag and closes the transport once. *)
Lemma Close_open r :
  closed r = false ->
  fst (Close r) = None
  /\ closed (snd (Close r)) = true
  /\ sent (client (snd (Close r))) = sent (client r) ++ [CloseIdleConnections].
Proof. intros Ho. unfold Close. rewrite Ho. simpl. auto. Qed.

(** A further [Close] returns nil and touches nothing. *)
Lemma Close_closed r : closed r = true -> Close r = (None, r).
Proof. intros Hc. unfold Close. rewrite Hc. reflexivity. Qed.

Lemma Close_sets_closed r : closed (snd (Close r)) = true.
Proof. unfold Close. destruct (closed r) eqn:E; simpl; [exact E | reflexivity]. Qed.

Lemma Close_idempotent r : Close (snd (Close r)) = (None, snd (Close r)).
Proof. apply Close_closed. apply Close_sets_closed. Qed.

(** The seven operations that reach the adapter are gated on the flag:
    on a closed retriever each returns [ErrClosedRetriever] and leaves the
    retriever, and with it the adapter's traffic, as it was. *)
Lemma closed_rejects_operations r now query message speaker title content
    metadata maxAge :
  closed r = true ->
  SearchStatic r query = (inr ErrClosedRetriever, r)
  /\ SearchConversation r now query = (inr ErrClosedRetriever, r)
  /\ SearchHybrid r now query = (inr ErrClosedRetriever, r)
  /\ AddConversationTurn r now message speaker metadata = (inr ErrClosedRetriever, r)
  /\ AddKnowledgeDocument r now title content metadata = (inr ErrClosedRetriever, r)
  /\ PruneOldConversations r now maxAge = (inr ErrClosedRetriever, r)
  /\ HealthCheck r = (Some ErrClosedRetriever, r).
Proof.
  intros Hc.
  unfold SearchStatic, SearchConversation, SearchHybrid, AddConversationTurn,
    AddKnowledgeDocument, PruneOldConversations, HealthCheck.
  rewrite Hc. repeat split.
Qed.

(** [UpdateConfig] does not read the flag. *)
Lemma UpdateConfig_ignores_closed r c :
  UpdateConfig r c
  = match Validate c with
    | Some err => (Some err, r)
    | None =>
        (None,
         mkAgentRAGRetriever (client r)
           (mkResultMerger c
              (NewTemporalDecay (HalfLifeMinutes c) (MinTemporalWeight c)
                 (TemporalDecayEnabled c)))
           c (indexConfig r)
           (NewTemporalDecay (HalfLifeMinutes c) (MinTemporalWeight c)
              (TemporalDecayEnabled c))
           (closed r))
    end.
Proof.
  unfold UpdateConfig, SetConfig. destruct (Validate c); reflexivity.
Qed.

End Lifecycle.

(** C3 at the failing input: a retriever is built with the defaults and
    closed; [UpdateConfig] with the config of the update test (weights
    0.7/0.3, half-life 60, selector "rrf") then returns nil, not the
    closed-retriever error, and installs the config. *)
Theorem UpdateConfig_after_Close_succeeds :
  let r := snd (Close (defaultRetriever "http://localhost:8080" EmptyString)) in
  let newConfig := mkMergeConfig (7 / 10) (3 / 10) true 60 0 "rrf" 0 in
  closed r = true
  /\ fst (UpdateConfig r newConfig) = None
  /\ fst (UpdateConfig r newConfig) <> Some ErrClosedRetriever
  /\ config (snd (UpdateConfig r newConfig)) = newConfig
  /\ rm_config (merger (snd (UpdateConfig r newConfig))) = newConfig
  /\ closed (snd (UpdateConfig r newConfig)) = true.
Proof.
  intros r newConfig.
  assert (Hv : Validate newConfig = None).
  { apply Validate_None. unfold rangesOk. simpl. lra. }
  rewrite UpdateConfig_ignores_closed, Hv. simpl.
  repeat split. discriminate.
Qed.

(** ** The adapter: pruning *)

Lemma executeBatchDelete_zero {be : Backend} (wc : WeaviateClient) (query : string) :
  fst (Client.executeBatchDelete wc query) = inl 0%Z
  \/ exists err, fst (Client.executeBatchDelete wc query) = inr err.
Proof.
  unfold Client.executeBatchDelete.
  destruct (Client.executeGraphQL wc query) as [[data | err] wc']; simpl; eauto.
Qed.

Lemma Client_PruneOldConversations_zero {be : Backend} (wc : WeaviateClient)
    (now : Time) (maxAge : Duration) :
  fst (Client.PruneOldConversations wc now maxAge) = inl 0%Z
  \/ exists err, fst (Client.PruneOldConversations wc now maxAge) = inr err.
Proof.
  unfold Client.PruneOldConversations.
  match goal with
  | |- context [Client.executeBatchDelete ?w ?q] =>
      destruct (executeBatchDelete_zero w q) as [Hz | [err Herr]];
      destruct (Client.executeBatchDelete w q) as [[count | e] wc']; simpl in *
  end; try discriminate.
  - left. exact Hz.
  - right. eauto.
Qed.

(** C8 on the code: whatever the backing store answers, a successful
    [PruneOldConversations] reports 0, at the adapter and at the
    retriever; so it does when the store answers with the identifiers of
    two deleted objects. *)
Theorem PruneOldConversations_reports_zero :
  (forall (be : Backend) wc now maxAge,
     fst (Client.PruneOldConversations wc now maxAge) = inl 0%Z
     \/ exists err, fst (Client.PruneOldConversations wc now maxAge) = inr err)
  /\ (forall (be : Backend) r now maxAge,
        fst (PruneOldConversations r now maxAge) = inl 0%Z
        \/ exists err, fst (PruneOldConversations r now maxAge) = inr err)
  /\ fst (@PruneOldConversations twoDeletedBackend
            (defaultRetriever "http://localhost:8080" EmptyString)
            0%Z (60 * Minute)%Z)
     = inl 0%Z.
Proof.
  split; [| split].
  - intros be wc now maxAge. apply Client_PruneOldConversations_zero.
  - intros be r now maxAge. unfold PruneOldConversations.
    destruct (closed r); [right; eexists; reflexivity |].
    destruct (Client_PruneOldConversations_zero (client r) now maxAge)
      as [Hz | [err Herr]];
      destruct (Client.PruneOldConversations (client r) now maxAge) as [res wc'];
      simpl in *; subst; eauto.
  - reflexivity.
Qed.

(** ** The query builder *)

Section Builder.

Lemma roundHalfEven_Qeq (p q : Q) : Qeq p q -> roundHalfEven p = roundHalfEven q.
Proof.
  intros Hpq. unfold roundHalfEven.
  rewrite (Qfloor_comp _ _ Hpq).
  assert (Hc : Qcompare (Qmult (2 # 1) (Qminus p (inject_Z (Qfloor q)))) (1 # 1)
               = Qcompare (Qmult (2 # 1) (Qminus q (inject_Z (Qfloor q)))) (1 # 1)).
  { apply Qcompare_comp; [| reflexivity]. rewrite Hpq. reflexivity. }
  rewrite Hc. reflexivity.
Qed.

Lemma formatFixed_Qeq (prec : nat) (v w : Q) :
  Qeq v w -> formatFixed prec v = formatFixed prec w.
Proof.
  intros Hvw. unfold formatFixed.
  assert (Hr : roundHalfEven (Qmult (Qabs v) (inject_Z (10 ^ Z.of_nat prec)))
               = roundHalfEven (Qmult (Qabs w) (inject_Z (10 ^ Z.of_nat prec)))).
  { apply roundHalfEven_Qeq. rewrite Hvw. reflexivity. }
  rewrite Hr.
  destruct (Qlt_le_dec v (0 # 1)) as [Hv | Hv], (Qlt_le_dec w (0 # 1)) as [Hw | Hw];
    try reflexivity; exfalso; rewrite Hvw in Hv.
  - apply (Qlt_not_le _ _ Hv Hw).
  - apply (Qlt_not_le _ _ Hw Hv).
Qed.

Lemma formatVector_Qeq (v w : list float32) :
  Forall2 Qeq v w -> formatVector v = formatVector w.
Proof.
  intros Hvw. unfold formatVector.
  assert (Hm : map (formatFixed 6) v = map (formatFixed 6) w).
  { induction Hvw as [| x y l l' Hxy Hl IH]; simpl; [reflexivity |].
    rewrite (formatFixed_Qeq 6 x y Hxy), IH. reflexivity. }
  rewrite Hm. destruct Hvw; reflexivity.
Qed.

End Builder.

(** C9.  The rendered query depends on the values of the inputs alone:
    two invocations on the same builder and text with vectors and mixing
    parameters of equal value give the same string, byte for byte.  The
    query for "machine learning", the vector [0.1, 0.2, 0.3] and alpha 0.5
    on KnowledgeBase with limit 10 contains the hybrid clause, limit:10 and
    the field list title,content; it is the string given last. *)
Theorem HybridQuery_deterministic_snapshot :
  (forall qb queryText v1 v2 alpha1 alpha2,
     Forall2 Qeq v1 v2 -> Qeq alpha1 alpha2 ->
     HybridQuery qb queryText v1 alpha1 = HybridQuery qb queryText v2 alpha2)
  /\ let query :=
       HybridQuery (NewQueryBuilder "KnowledgeBase" 10) "machine learning"
         [f32_0_1; f32_0_2; f32_0_3] (1 # 2) in
     Contains query
       ("hybrid:{query:" +:+ quote +:+ "machine learning" +:+ quote
          +:+ ",vector:[0.100000,0.200000,0.300000],alpha:0.50}") = true
     /\ Contains query "limit:10" = true
     /\ Contains query "title,content" = true
     /\ query
        = "{ Get { KnowledgeBase(hybrid:{query:" +:+ quote +:+ "machine learning" +:+ quote
            +:+ ",vector:[0.100000,0.200000,0.300000],alpha:0.50},limit:10)"
            +:+ "{_additional{id,score,vector}title,content}}}".
Proof.
  split.
  - intros qb queryText v1 v2 alpha1 alpha2 Hv Ha. unfold HybridQuery.
    rewrite (formatVector_Qeq v1 v2 Hv), (formatFixed_Qeq 2 alpha1 alpha2 Ha).
    reflexivity.
  - vm_compute. repeat split.
Qed.

Lemma HybridQuery_deterministic_snapshot_witness :
  HybridQuery (NewQueryBuilder "KnowledgeBase" 10) "machine learning"
    [(1 # 2)%Q; (3 # 4)%Q] (1 # 2)
  = HybridQuery (NewQueryBuilder "KnowledgeBase" 10) "machine learning"
      [(2 # 4)%Q; (6 # 8)%Q] (5 # 10).
Proof.
  apply (proj1 HybridQuery_deterministic_snapshot).
  - repeat constructor.
  - reflexivity.
Defined.

(** * Further properties of the code *)

(** ** Temporal decay: calibration, monotonicity, bulk form *)

Lemma Rgeb_true x y : Rgeb x y = true <-> y <= x.
Proof. unfold Rgeb. destruct (Rge_dec x y); split; intros; try easy; lra. Qed.

Lemma Rgeb_false x y : Rgeb x y = false <-> x < y.
Proof. unfold Rgeb. destruct (Rge_dec x y); split; intros; try easy; lra. Qed.

Lemma ln_neg (x : R) : 0 < x < 1 -> ln x < 0.
Proof. intros [H0 H1]. rewrite <- ln_1. apply ln_increasing; lra. Qed.

Lemma Minutes_30 : Minutes (Sub 1800000000000%Z 0%Z) = 30.
Proof. rewrite Minutes_eq. change (Sub 1800000000000%Z 0%Z) with 1800000000000%Z. lra. Qed.

(** X1.  The half-life computed for a retention target is the one at which a
    record of that age keeps exactly the target share of its score, and it
    is positive; it is the age itself for a target of one half. Targets
    outside the open interval (0,1) give the default 30. *)
Theorem CalculateHalfLifeFromRetention_calibrates
    (retentionMinutes targetRetention : R) :
  (targetRetention <= 0 \/ 1 <= targetRetention ->
   CalculateHalfLifeFromRetention retentionMinutes targetRetention = 30)
  /\ (0 < targetRetention < 1 -> 0 < retentionMinutes ->
      0 < CalculateHalfLifeFromRetention retentionMinutes targetRetention
      /\ (targetRetention = 1 / 2 ->
          CalculateHalfLifeFromRetention retentionMinutes targetRetention
          = retentionMinutes)
      /\ forall floor timestamp currentTime,
           floor <= targetRetention ->
           Minutes (Sub currentTime timestamp) = retentionMinutes ->
           decayFactor
             (NewTemporalDecay
                (CalculateHalfLifeFromRetention retentionMinutes targetRetention)
                floor true)
             timestamp currentTime
           = targetRetention).
Proof.
  unfold CalculateHalfLifeFromRetention. split.
  - intros [H | H].
    + rewrite (proj2 (Rleb_true _ _) H). reflexivity.
    + rewrite (proj2 (Rgeb_true _ _) H). rewrite orb_true_r. reflexivity.
  - intros [H0 H1] Hret.
    rewrite (proj2 (Rleb_false targetRetention 0)) by lra.
    rewrite (proj2 (Rgeb_false targetRetention 1)) by lra. simpl.
    pose proof (ln_neg targetRetention (conj H0 H1)) as Hln.
    pose proof Ln2_pos as Hl2.
    assert (Hpos : 0 < - Ln2 * retentionMinutes / ln targetRetention).
    { replace (- Ln2 * retentionMinutes / ln targetRetention)
        with (Ln2 * retentionMinutes * / - ln targetRetention) by (field; lra).
      apply Rmult_lt_0_compat; [nra | apply Rinv_0_lt_compat; lra]. }
    split; [exact Hpos |]. split.
    + intros Ht. subst targetRetention.
      replace (1 / 2) with (/ 2) by lra. rewrite ln_Rinv by lra.
      fold Ln2. field. lra.
    + intros floor timestamp currentTime Hfl Hage.
      rewrite decayFactor_max. unfold rawFactor. simpl. rewrite Hage.
      replace (- Ln2 * retentionMinutes
               / (- Ln2 * retentionMinutes / ln targetRetention))
        with (ln targetRetention) by (field; lra).
      rewrite exp_ln by lra. apply Rmax_right. exact Hfl.
Qed.

Lemma CalculateHalfLifeFromRetention_calibrates_witness :
  0 < CalculateHalfLifeFromRetention 30 (1 / 2)
  /\ CalculateHalfLifeFromRetention 30 (1 / 2) = 30
  /\ decayFactor (NewTemporalDecay (CalculateHalfLifeFromRetention 30 (1 / 2)) (1 / 100) true)
       0%Z 1800000000000%Z
     = 1 / 2.
Proof.
  destruct (CalculateHalfLifeFromRetention_calibrates 30 (1 / 2)) as [_ H].
  destruct H as (Hpos & Hhalf & Hdecay); [lra | lra |].
  split; [exact Hpos |]. split; [apply Hhalf; reflexivity |].
  apply Hdecay; [lra | exact Minutes_30].
Defined.

Lemma Sub_antitone (t u1 u2 : Time) : (u1 <= u2)%Z -> (Sub t u2 <= Sub t u1)%Z.
Proof.
  intros H. unfold Sub, minDuration, maxDuration.
  repeat case_match; lia.
Qed.

Lemma Minutes_monotone (d1 d2 : Duration) : (d1 <= d2)%Z -> Minutes d1 <= Minutes d2.
Proof.
  intros H. rewrite !Minutes_eq. apply IZR_le in H.
  unfold Rdiv. apply Rmult_le_compat_r; [| exact H].
  left. apply Rinv_0_lt_compat. lra.
Qed.

Lemma exp_monotone (x y : R) : x <= y -> exp x <= exp y.
Proof.
  intros [H | H]; [left; apply exp_increasing; exact H | rewrite H; lra].
Qed.

(** X2.  With a positive half-life the multiplier never grows with age: of
    two records the older one gets the smaller or equal multiplier, and for
    a non-negative base score the smaller or equal decayed score. Whatever
    the timestamps, the multiplier is at least the floor. *)
Theorem decay_monotone_in_age (td : TemporalDecay) (score : R)
    (older newer currentTime : Time) :
  0 < halfLifeMinutes td ->
  (older <= newer)%Z ->
  decayFactor td older currentTime <= decayFactor td newer currentTime
  /\ minWeight td <= decayFactor td older currentTime
  /\ (0 <= score ->
      Apply td score older currentTime <= Apply td score newer currentTime).
Proof.
  intros HH Hle.
  assert (Hraw : rawFactor td older currentTime <= rawFactor td newer currentTime).
  { unfold rawFactor. apply exp_monotone.
    pose proof (Minutes_monotone _ _ (Sub_antitone currentTime _ _ Hle)) as Hm.
    pose proof Ln2_pos as Hl.
    unfold Rdiv. apply Rmult_le_compat_r; [left; apply Rinv_0_lt_compat; exact HH |].
    nra. }
  assert (Hf : decayFactor td older currentTime <= decayFactor td newer currentTime).
  { rewrite !decayFactor_max. apply Rmax_lub.
    - apply Rmax_l.
    - eapply Rle_trans; [exact Hraw | apply Rmax_r]. }
  split; [exact Hf |]. split.
  - rewrite decayFactor_max. apply Rmax_l.
  - intros Hs. unfold Apply. destruct (enabled td); simpl; [nra | lra].
Qed.

Lemma decay_monotone_in_age_witness :
  let td := NewTemporalDecay 30 (1 / 100) true in
  decayFactor td 0%Z 1800000000000%Z <= decayFactor td 1800000000000%Z 1800000000000%Z
  /\ minWeight td <= decayFactor td 0%Z 1800000000000%Z
  /\ (0 <= 1 ->
      Apply td 1 0%Z 1800000000000%Z <= Apply td 1 1800000000000%Z 1800000000000%Z).
Proof.
  intros td.
  apply (decay_monotone_in_age td 1 0%Z 1800000000000%Z 1800000000000%Z).
  - simpl. lra.
  - lia.
Defined.

Lemma setScore_same (r : SearchResult) : setScore r (Score r) = r.
Proof. destruct r; reflexivity. Qed.

Lemma ApplyToResults_fmap td results currentTime :
  ApplyToResults td results currentTime = decayOne td currentTime <$> results.
Proof. reflexivity. Qed.

Lemma decayOne_frame td currentTime r :
  ID (decayOne td currentTime r) = ID r
  /\ DocID (decayOne td currentTime r) = DocID r
  /\ Text (decayOne td currentTime r) = Text r
  /\ Metadata (decayOne td currentTime r) = Metadata r
  /\ Source (decayOne td currentTime r) = Source r
  /\ Timestamp (decayOne td currentTime r) = Timestamp r.
Proof.
  unfold decayOne. destruct (Timestamp r) eqn:E; [| rewrite E; repeat split].
  destruct (String.eqb (Source r) SourceConversation); simpl; rewrite ?E; repeat split.
Qed.

(** X3.  The bulk decay keeps the length and the order of the list and
    changes nothing but scores: the record at each position keeps its
    identifier, document identifier, text, metadata, source tag and
    timestamp. A record that is not tagged conversation, or has no
    timestamp, is returned as it is; a conversation record with a timestamp
    gets the score [Apply] computes. With decay disabled the list is
    returned unchanged. *)
Theorem ApplyToResults_frame (td : TemporalDecay) (results : SearchResults)
    (currentTime : Time) :
  length (ApplyToResults td results currentTime) = length results
  /\ (forall i r, results !! i = Some r ->
        exists r',
          ApplyToResults td results currentTime !! i = Some r'
          /\ ID r' = ID r /\ DocID r' = DocID r /\ Text r' = Text r
          /\ Metadata r' = Metadata r /\ Source r' = Source r
          /\ Timestamp r' = Timestamp r
          /\ (Source r <> SourceConversation \/ Timestamp r = None -> r' = r)
          /\ (forall ts, Source r = SourceConversation -> Timestamp r = Some ts ->
                Score r' = Apply td (Score r) ts currentTime))
  /\ (enabled td = false -> ApplyToResults td results currentTime = results).
Proof.
  rewrite ApplyToResults_fmap. split; [apply length_fmap |]. split.
  - intros i r Hi. exists (decayOne td currentTime r).
    rewrite list_lookup_fmap, Hi. simpl. split; [reflexivity |].
    destruct (decayOne_frame td currentTime r) as (H1 & H2 & H3 & H4 & H5 & H6).
    repeat (split; [assumption |]). split.
    + unfold decayOne. intros [Hsrc | Hts].
      * destruct (Timestamp r); [| reflexivity].
        destruct (String.eqb (Source r) SourceConversation) eqn:E; [| reflexivity].
        apply String.eqb_eq in E. contradiction.
      * rewrite Hts. reflexivity.
    + intros ts Hsrc Hts. unfold decayOne. rewrite Hts, Hsrc.
      rewrite String.eqb_refl. reflexivity.
  - intros Hoff. induction results as [| r l IH]; [reflexivity |].
    rewrite fmap_cons, IH. f_equal.
    unfold decayOne, Apply. rewrite Hoff. simpl.
    destruct (Timestamp r); [| reflexivity].
    destruct (String.eqb (Source r) SourceConversation); [| reflexivity].
    apply setScore_same.
Qed.

Lemma ApplyToResults_frame_witness :
  let td := NewTemporalDecay 30 (1 / 100) true in
  let c := mkSearchResult "Y" "turn" 1 "said earlier" ∅ SourceConversation (Some 0%Z) in
  exists r',
    ApplyToResults td [c] 1800000000000%Z !! 0%nat = Some r'
    /\ ID r' = "Y"%string
    /\ Score r' = Apply td 1 0%Z 1800000000000%Z.
Proof.
  intros td c.
  destruct (ApplyToResults_frame td [c] 1800000000000%Z) as (_ & Hpos & _).
  destruct (Hpos 0%nat c eq_refl)
    as (r' & Hr & Hid & _ & _ & _ & _ & _ & _ & Hscore).
  exists r'. split; [exact Hr |]. split; [exact Hid |].
  apply (Hscore 0%Z); reflexivity.
Defined.

Lemma Apply_within (td : TemporalDecay) (score : R) (timestamp currentTime : Time) :
  0 < halfLifeMinutes td -> 0 <= minWeight td <= 1 -> 0 <= score ->
  (timestamp <= currentTime)%Z ->
  minWeight td * score <= Apply td score timestamp currentTime <= score.
Proof.
  intros HH [Hm0 Hm1] Hs Hle. unfold Apply.
  destruct (enabled td); simpl; [| nra].
  rewrite decayFactor_max.
  pose proof (rawFactor_le_1 td timestamp currentTime HH Hle) as Hraw.
  pose proof (Rmax_l (minWeight td) (rawFactor td timestamp currentTime)).
  assert (Rmax (minWeight td) (rawFactor td timestamp currentTime) <= 1)
    by (apply Rmax_lub; lra).
  split; nra.
Qed.

(** X4.  For a decay with positive half-life and floor in [0,1], enabled or
    not, and a list whose scores are non-negative and whose timestamps are
    not after the reference time, the bulk decay returns at every position a
    score between floor times the input score and the input score: no record
    gains, none drops below the floor. *)
Theorem ApplyToResults_bounds (td : TemporalDecay) (results : SearchResults)
    (currentTime : Time) :
  0 < halfLifeMinutes td ->
  0 <= minWeight td <= 1 ->
  Forall (fun r => 0 <= Score r
                   /\ forall ts, Timestamp r = Some ts -> (ts <= currentTime)%Z)
         results ->
  Forall2 (fun r r' => minWeight td * Score r <= Score r' <= Score r)
          results (ApplyToResults td results currentTime).
Proof.
  intros HH Hm Hall. rewrite ApplyToResults_fmap.
  induction Hall as [| r l [Hs Hts] Hall IH]; [constructor |].
  rewrite fmap_cons. constructor; [| exact IH].
  unfold decayOne. destruct (Timestamp r) as [ts |] eqn:E.
  - destruct (String.eqb (Source r) SourceConversation); simpl.
    + apply Apply_within; auto.
    + nra.
  - nra.
Qed.

Lemma ApplyToResults_bounds_witness :
  let td := NewTemporalDecay 30 (1 / 100) true in
  let c := mkSearchResult "Y" "turn" 1 "said earlier" ∅ SourceConversation (Some 0%Z) in
  Forall2 (fun r r' => minWeight td * Score r <= Score r' <= Score r)
          [c] (ApplyToResults td [c] 1800000000000%Z).
Proof.
  intros td c. apply ApplyToResults_bounds.
  - simpl. lra.
  - simpl. lra.
  - constructor; [| constructor]. split; [simpl; lra |].
    intros ts Hts. inversion Hts. lia.
Defined.

(** X5.  The conversation contribution of the weighted merge is the
    conversation weight times the score the bulk decay gives the same
    record: the scores [SearchConversation] returns and the conversation
    part of [SearchHybrid] differ by that factor only. *)
Theorem weightedConvScore_scales_decayed (rm : ResultMerger)
    (convResults : SearchResults) (currentTime : Time) :
  Forall (fun c => Source c = SourceConversation) convResults ->
  weightedConvScore rm currentTime <$> convResults
  = (fun c => ConversationWeight (rm_config rm) * Score c)
      <$> ApplyToResults (rm_temporalDecay rm) convResults currentTime.
Proof.
  intros Hall. rewrite ApplyToResults_fmap, <- list_fmap_compose.
  induction Hall as [| c l Hc Hall IH]; [reflexivity |].
  rewrite !fmap_cons, IH. f_equal.
  unfold weightedConvScore, decayOne. simpl. rewrite Hc.
  destruct (Timestamp c); simpl; [| lra].
  unfold Apply. destruct (enabled (rm_temporalDecay rm)); simpl; lra.
Qed.

Lemma weightedConvScore_scales_decayed_witness :
  let c := mkSearchResult "Y" "turn" 1 "said earlier" ∅ SourceConversation (Some 0%Z) in
  weightedConvScore defaultMerger 1800000000000%Z <$> [c]
  = (fun c => ConversationWeight (rm_config defaultMerger) * Score c)
      <$> ApplyToResults (rm_temporalDecay defaultMerger) [c] 1800000000000%Z.
Proof.
  intros c. apply weightedConvScore_scales_decayed.
  constructor; [reflexivity | constructor].
Defined.

(** ** Rank fusion *)

Section RankFusion.

Context {rt : GoRuntime}.

Variable rm : ResultMerger.

Implicit Types (maps : MergeMaps) (r s : SearchResult) (id : string).

Lemma rrfStaticLoop_score k staticResults rank maps id :
  fst (rrfStaticLoop rm k rank staticResults maps) !! id
  = match lastRankScore (StaticWeight (rm_config rm)) k rank staticResults id with
    | Some x => Some x
    | None => fst maps !! id
    end.
Proof.
  revert rank maps. induction staticResults as [| r l IH]; intros rank maps; simpl.
  - reflexivity.
  - rewrite IH, insertBoth_score.
    destruct (lastRankScore (StaticWeight (rm_config rm)) k (S rank) l id);
      [reflexivity |].
    destruct (decide (ID r = id)); reflexivity.
Qed.

Lemma rrfConvLoop_score k convResults rank maps id :
  default 0 (fst (rrfConvLoop rm k rank convResults maps) !! id)
  = default 0 (fst maps !! id)
    + rankScoreSum (ConversationWeight (rm_config rm)) k rank convResults id.
Proof.
  revert rank maps. induction convResults as [| r l IH]; intros rank maps; simpl.
  - lra.
  - rewrite IH, addOrInsert_score. lra.
Qed.

Lemma lastRankScore_unique w k results rank i s :
  NoDup (ID <$> results) -> results !! i = Some s ->
  lastRankScore w k rank results (ID s) = Some (rankScore k (rank + i) * w).
Proof.
  revert rank i. induction results as [| r l IH]; intros rank i Hnd Hi.
  - discriminate.
  - rewrite fmap_cons in Hnd. apply NoDup_cons in Hnd. destruct Hnd as [Hnotin Hnd].
    simpl. destruct i as [| i]; simpl in Hi.
    + inversion Hi; subst r.
      assert (Hnone : lastRankScore w k (S rank) l (ID s) = None).
      { clear -Hnotin. revert rank. induction l as [| r l IH]; intros rank; simpl.
        - reflexivity.
        - rewrite fmap_cons in Hnotin. apply not_elem_of_cons in Hnotin.
          destruct Hnotin as [Hne Hnotin]. rewrite (IH Hnotin).
          destruct (decide (ID r = ID s)); [congruence | reflexivity]. }
      rewrite Hnone. rewrite decide_True by reflexivity.
      rewrite Nat.add_0_r. reflexivity.
    + rewrite (IH (S rank) i Hnd Hi).
      replace (S rank + i)%nat with (rank + S i)%nat by lia. reflexivity.
Qed.

Lemma rankScoreSum_absent w k results rank id :
  id ∉ (ID <$> results) -> rankScoreSum w k rank results id = 0.
Proof.
  revert rank. induction results as [| r l IH]; intros rank Hnotin; simpl.
  - reflexivity.
  - rewrite fmap_cons in Hnotin. apply not_elem_of_cons in Hnotin.
    destruct Hnotin as [Hne Hnotin]. rewrite (IH _ Hnotin).
    destruct (decide (ID r = id)); [congruence | lra].
Qed.

Lemma rankScoreSum_unique w k results rank i s :
  NoDup (ID <$> results) -> results !! i = Some s ->
  rankScoreSum w k rank results (ID s) = rankScore k (rank + i) * w.
Proof.
  revert rank i. induction results as [| r l IH]; intros rank i Hnd Hi.
  - discriminate.
  - rewrite fmap_cons in Hnd. apply NoDup_cons in Hnd. destruct Hnd as [Hnotin Hnd].
    simpl. destruct i as [| i]; simpl in Hi.
    + inversion Hi; subst r. rewrite decide_True by reflexivity.
      rewrite (rankScoreSum_absent _ _ _ _ _ Hnotin), Nat.add_0_r. lra.
    + rewrite (IH (S rank) i Hnd Hi).
      assert (ID r <> ID s).
      { intros Heq. apply Hnotin. rewrite Heq.
        apply list_elem_of_fmap. exists s. split; [reflexivity |].
        apply list_elem_of_lookup. eauto. }
      rewrite decide_False by assumption.
      replace (S rank + i)%nat with (rank + S i)%nat by lia. lra.
Qed.

Lemma lastRankScore_absent w k results rank id :
  id ∉ (ID <$> results) -> lastRankScore w k rank results id = None.
Proof.
  revert rank. induction results as [| r l IH]; intros rank Hnotin; simpl.
  - reflexivity.
  - rewrite fmap_cons in Hnotin. apply not_elem_of_cons in Hnotin.
    destruct Hnotin as [Hne Hnotin]. rewrite (IH _ Hnotin).
    destruct (decide (ID r = id)); [congruence | reflexivity].
Qed.

Lemma rankedConv_ids convResults currentTime :
  Permutation (ID <$> rankedConv rm convResults currentTime) (ID <$> convResults).
Proof.
  unfold rankedConv. rewrite sortSlice_perm, ApplyToResults_fmap, <- list_fmap_compose.
  apply eq_subrelation; [typeclasses eauto |].
  apply list_fmap_ext. intros i r _. simpl. apply decayOne_frame.
Qed.

Lemma rrfMaps_score staticResults convResults currentTime id :
  default 0 (fst (rrfMaps rm staticResults convResults currentTime) !! id)
  = default 0 (lastRankScore (StaticWeight (rm_config rm)) (IZR (RRFK (rm_config rm)))
                 0 staticResults id)
    + rankScoreSum (ConversationWeight (rm_config rm)) (IZR (RRFK (rm_config rm)))
        0 (rankedConv rm convResults currentTime) id.
Proof.
  unfold rrfMaps, rankedConv. rewrite rrfConvLoop_score, rrfStaticLoop_score.
  destruct (lastRankScore _ _ 0 staticResults id); simpl; [reflexivity |].
  rewrite ?lookup_empty. reflexivity.
Qed.

Lemma rrfMaps_is_Some staticResults convResults currentTime id :
  is_Some (fst (rrfMaps rm staticResults convResults currentTime) !! id)
  <-> id ∈ (ID <$> staticResults) \/ id ∈ (ID <$> convResults).
Proof.
  unfold rrfMaps.
  set (k := IZR (RRFK (rm_config rm))).
  destruct (rrfConvLoop_spec rm k
              (sortSlice byScoreDesc
                 (ApplyToResults (rm_temporalDecay rm) convResults currentTime))
              0 (rrfStaticLoop rm k 0 staticResults (∅, ∅)) id)
    as (_ & _ & Hd); [apply rrfStaticLoop_wf; exact mapsWf_empty |].
  rewrite Hd.
  destruct (rrfStaticLoop_spec rm k staticResults 0 (∅, ∅) id) as [_ H2].
  rewrite H2, lastWithID_is_Some.
  fold (rankedConv rm convResults currentTime).
  rewrite (rankedConv_ids convResults currentTime). simpl.
  rewrite ?lookup_empty. split.
  - intros [[H | [x Hx]] | H]; [left; exact H | discriminate | right; exact H].
  - intros [H | H]; [left; left; exact H | right; exact H].
Qed.

End RankFusion.

(** X6.  In RRF mode with a positive constant k, every returned record
    carries the sum of the rank contributions of its identifier: weight /
    (k + rank), ranks from 0. A static record at position i of a static
    list without repeated identifiers contributes static weight / (k + i);
    a conversation record at position j of the conversation list, decayed
    and then sorted by decayed score, contributes conversation weight / (k
    + j); a list that does not hold the identifier contributes nothing.
    The ranked conversation list is a reordering of the decayed one in
    descending order of decayed score, and the contribution strictly
    decreases with the rank.  (Validation does not constrain k; for k <= 0
    a denominator k + rank can be 0, where the code's division yields an
    infinity, and nothing is stated.) *)
Theorem mergeRRF_rank_scores {rt : GoRuntime} (rm : ResultMerger)
    (staticResults convResults : SearchResults) (currentTime : Time) :
  (0 < RRFK (rm_config rm))%Z ->
  let k := IZR (RRFK (rm_config rm)) in
  let ws := StaticWeight (rm_config rm) in
  let wc := ConversationWeight (rm_config rm) in
  let ranked := rankedConv rm convResults currentTime in
  (forall r, r ∈ mergeRRF rm staticResults convResults currentTime ->
     Score r = default 0 (lastRankScore ws k 0 staticResults (ID r))
               + rankScoreSum wc k 0 ranked (ID r))
  /\ (forall i s, NoDup (ID <$> staticResults) -> staticResults !! i = Some s ->
        lastRankScore ws k 0 staticResults (ID s) = Some (ws / (k + INR i)))
  /\ (forall j c, NoDup (ID <$> convResults) -> ranked !! j = Some c ->
        rankScoreSum wc k 0 ranked (ID c) = wc / (k + INR j))
  /\ (forall id, id ∉ (ID <$> staticResults) -> lastRankScore ws k 0 staticResults id = None)
  /\ (forall id, id ∉ (ID <$> convResults) -> rankScoreSum wc k 0 ranked id = 0)
  /\ Permutation ranked (ApplyToResults (rm_temporalDecay rm) convResults currentTime)
  /\ StronglySorted (fun a b => Score b <= Score a) ranked
  /\ (forall n, 0 < rankScore k (S n) < rankScore k n).
Proof.
  intros Hpos k ws wc ranked.
  assert (Hk : 0 < k) by (unfold k; apply IZR_lt; exact Hpos).
  split; [| split; [| split; [| split; [| split; [| split; [| split]]]]]].
  - intros r Hin. unfold mergeRRF in Hin.
    pose proof (rrfMaps_wf rm staticResults convResults currentTime) as Hwf.
    apply collect_elem in Hin; [| exact Hwf].
    destruct Hin as (id & score & s & Hsc & Hs & ->).
    destruct Hwf as [_ Hids]. simpl. rewrite (Hids _ _ Hs).
    pose proof (rrfMaps_score rm staticResults convResults currentTime id) as Hscore.
    rewrite Hsc in Hscore. exact Hscore.
  - intros i s Hnd Hi. rewrite (lastRankScore_unique ws k _ 0 i s Hnd Hi).
    unfold rankScore. simpl. f_equal. unfold Rdiv. ring.
  - intros j c Hnd Hj.
    assert (Hnd' : NoDup (ID <$> ranked))
      by (unfold ranked; rewrite rankedConv_ids; exact Hnd).
    rewrite (rankScoreSum_unique wc k _ 0 j c Hnd' Hj).
    unfold rankScore. simpl. unfold Rdiv. ring.
  - intros id Hn. apply lastRankScore_absent. exact Hn.
  - intros id Hn. apply rankScoreSum_absent.
    unfold ranked. rewrite rankedConv_ids. exact Hn.
  - unfold ranked, rankedConv. apply sortSlice_perm.
  - unfold ranked, rankedConv.
    eapply StronglySorted_weaken;
      [| apply sortSlice_sorted; [exact byScoreDesc_asym | exact byScoreDesc_trans]].
    intros x y Hxy. unfold byScoreDesc in Hxy. apply Rgtb_false in Hxy. exact Hxy.
  - intros n. unfold rankScore. rewrite S_INR.
    pose proof (pos_INR n) as Hn.
    unfold Rdiv. rewrite !Rmult_1_l. split.
    + apply Rinv_0_lt_compat. lra.
    + apply Rinv_lt_contravar; [nra | lra].
Qed.

Lemma mergeRRF_rank_scores_witness :
  let rm := mkResultMerger (mkMergeConfig (1 / 2) (1 / 2) false 30 (1 / 100) "rrf" 60)
              (NewTemporalDecay 30 (1 / 100) false) in
  let s1 := mkSearchResult "static-1" "d1" (9 / 10) "one" ∅ SourceStatic None in
  let s2 := mkSearchResult "static-2" "d2" (8 / 10) "two" ∅ SourceStatic None in
  lastRankScore (1 / 2) 60 0 [s1; s2] "static-2" = Some (1 / 2 / (60 + INR 1))
  /\ rankScore 60 1 < rankScore 60 0.
Proof.
  intros rm s1 s2.
  destruct (mergeRRF_rank_scores (rt := referenceRuntime) rm [s1; s2] [] 0%Z
              ltac:(simpl; lia))
    as (_ & Hstatic & _ & _ & _ & _ & _ & Hdec).
  split.
  - apply (Hstatic 1%nat s2); [| reflexivity].
    simpl. apply NoDup_cons. split; [| apply NoDup_singleton].
    intros Hin. apply list_elem_of_singleton in Hin. discriminate.
  - apply (Hdec 0%nat).
Defined.

(** ** Shape of a merge and of a hybrid search *)

Section MergeShape.

Context {rt : GoRuntime}.

Variable rm : ResultMerger.

Implicit Types (maps : MergeMaps) (r s : SearchResult) (id : string).

Lemma insertBoth_recordsFrom pool maps r w :
  r ∈ pool -> recordsFrom pool maps -> recordsFrom pool (insertBoth maps r w).
Proof.
  intros Hr Hp id s. rewrite insertBoth_result.
  destruct (decide (ID r = id)); [intros Heq; inversion Heq; subst; exact Hr | apply Hp].
Qed.

Lemma addOrInsert_recordsFrom pool maps r w :
  r ∈ pool -> recordsFrom pool maps -> recordsFrom pool (addOrInsert maps r w).
Proof.
  intros Hr Hp. unfold addOrInsert.
  destruct (fst maps !! ID r); [exact Hp | apply insertBoth_recordsFrom; assumption].
Qed.

Lemma weightedMaps_recordsFrom staticResults convResults currentTime :
  recordsFrom (staticResults ++ convResults)
    (weightedMaps rm staticResults convResults currentTime).
Proof.
  unfold weightedMaps.
  assert (Hst : forall l maps pool,
             (forall r, r ∈ l -> r ∈ pool) -> recordsFrom pool maps ->
             recordsFrom pool (foldl (weightedStaticStep rm) maps l)).
  { induction l as [| r l IH]; intros maps pool Hsub Hp; simpl; [exact Hp |].
    apply IH; [intros x Hx; apply Hsub; right; exact Hx |].
    apply insertBoth_recordsFrom; [apply Hsub; left | exact Hp]. }
  assert (Hcv : forall l maps pool,
             (forall r, r ∈ l -> r ∈ pool) -> recordsFrom pool maps ->
             recordsFrom pool (foldl (weightedConvStep rm currentTime) maps l)).
  { induction l as [| r l IH]; intros maps pool Hsub Hp; simpl; [exact Hp |].
    apply IH; [intros x Hx; apply Hsub; right; exact Hx |].
    apply addOrInsert_recordsFrom; [apply Hsub; left | exact Hp]. }
  apply Hcv; [intros r Hr; apply elem_of_app; right; exact Hr |].
  apply Hst; [intros r Hr; apply elem_of_app; left; exact Hr |].
  intros id s. simpl. rewrite lookup_empty. discriminate.
Qed.

Lemma rrfMaps_recordsFrom staticResults convResults currentTime :
  recordsFrom (staticResults ++ rankedConv rm convResults currentTime)
    (rrfMaps rm staticResults convResults currentTime).
Proof.
  unfold rrfMaps. fold (rankedConv rm convResults currentTime).
  set (k := IZR (RRFK (rm_config rm))).
  assert (Hst : forall l rank maps pool,
             (forall r, r ∈ l -> r ∈ pool) -> recordsFrom pool maps ->
             recordsFrom pool (rrfStaticLoop rm k rank l maps)).
  { induction l as [| r l IH]; intros rank maps pool Hsub Hp; simpl; [exact Hp |].
    apply IH; [intros x Hx; apply Hsub; right; exact Hx |].
    apply insertBoth_recordsFrom; [apply Hsub; left | exact Hp]. }
  assert (Hcv : forall l rank maps pool,
             (forall r, r ∈ l -> r ∈ pool) -> recordsFrom pool maps ->
             recordsFrom pool (rrfConvLoop rm k rank l maps)).
  { induction l as [| r l IH]; intros rank maps pool Hsub Hp; simpl; [exact Hp |].
    apply IH; [intros x Hx; apply Hsub; right; exact Hx |].
    apply addOrInsert_recordsFrom; [apply Hsub; left | exact Hp]. }
  apply Hcv; [intros r Hr; apply elem_of_app; right; exact Hr |].
  apply Hst; [intros r Hr; apply elem_of_app; left; exact Hr |].
  intros id s. simpl. rewrite lookup_empty. discriminate.
Qed.

Lemma setScore_setScore r x y : setScore (setScore r x) y = setScore r y.
Proof. reflexivity. Qed.

Lemma rankedConv_origin convResults currentTime c :
  c ∈ rankedConv rm convResults currentTime ->
  exists c0, c0 ∈ convResults /\ c = setScore c0 (Score c).
Proof.
  unfold rankedConv. rewrite sortSlice_perm, ApplyToResults_fmap, list_elem_of_fmap.
  intros (c0 & -> & Hin). exists c0. split; [exact Hin |].
  unfold decayOne. destruct (Timestamp c0); [| symmetry; apply setScore_same].
  destruct (String.eqb (Source c0) SourceConversation);
    [reflexivity | symmetry; apply setScore_same].
Qed.

Lemma Merge_collect staticResults convResults currentTime :
  Merge rm staticResults convResults currentTime
  = collect (mergeMaps rm staticResults convResults currentTime).
Proof.
  unfold Merge, mergeMaps, mergeRRF, mergeWeighted.
  destruct (_ || _); reflexivity.
Qed.

Lemma mergeMaps_wf staticResults convResults currentTime :
  mapsWf (mergeMaps rm staticResults convResults currentTime).
Proof.
  unfold mergeMaps. destruct (_ || _); [apply rrfMaps_wf | apply weightedMaps_wf].
Qed.

Lemma mergeMaps_is_Some staticResults convResults currentTime id :
  is_Some (fst (mergeMaps rm staticResults convResults currentTime) !! id)
  <-> id ∈ (ID <$> staticResults) \/ id ∈ (ID <$> convResults).
Proof.
  unfold mergeMaps.
  destruct (_ || _); [apply rrfMaps_is_Some | apply weightedMaps_is_Some].
Qed.

Lemma mergeMaps_origin staticResults convResults currentTime id s :
  snd (mergeMaps rm staticResults convResults currentTime) !! id = Some s ->
  exists r0, r0 ∈ staticResults ++ convResults /\ s = setScore r0 (Score s).
Proof.
  unfold mergeMaps. destruct (_ || _); intros Hs.
  - apply rrfMaps_recordsFrom in Hs. apply elem_of_app in Hs. destruct Hs as [Hs | Hs].
    + exists s. split; [apply elem_of_app; left; exact Hs | symmetry; apply setScore_same].
    + destruct (rankedConv_origin _ _ _ Hs) as (c0 & Hc0 & Heq).
      exists c0. split; [apply elem_of_app; right; exact Hc0 | exact Heq].
  - apply weightedMaps_recordsFrom in Hs.
    exists s. split; [exact Hs | symmetry; apply setScore_same].
Qed.

End MergeShape.

(** X7.  Whatever the algorithm, a merge returns one record for each
    identifier of its two inputs and no other: the identifiers are pairwise
    distinct, the list is in descending order of score, it is never longer
    than the two inputs together, and exactly as long when no identifier
    repeats in or across them. Every returned record is a record of one of
    the inputs with only its score replaced: nothing is invented. *)
Theorem Merge_shape {rt : GoRuntime} (rm : ResultMerger)
    (staticResults convResults : SearchResults) (currentTime : Time) :
  let merged := Merge rm staticResults convResults currentTime in
  (forall id, id ∈ (ID <$> merged)
              <-> id ∈ (ID <$> staticResults) \/ id ∈ (ID <$> convResults))
  /\ NoDup (ID <$> merged)
  /\ StronglySorted (fun a b => Score b <= Score a) merged
  /\ (length merged <= length staticResults + length convResults)%nat
  /\ (NoDup (ID <$> (staticResults ++ convResults)) ->
      length merged = (length staticResults + length convResults)%nat)
  /\ (forall r, r ∈ merged ->
        exists r0, r0 ∈ staticResults ++ convResults /\ r = setScore r0 (Score r)).
Proof.
  intros merged. unfold merged. rewrite Merge_collect.
  pose proof (mergeMaps_wf rm staticResults convResults currentTime) as Hwf.
  set (maps := mergeMaps rm staticResults convResults currentTime) in *.
  assert (Hids : forall id, id ∈ (ID <$> collect maps)
                            <-> id ∈ (ID <$> (staticResults ++ convResults))).
  { intros id. rewrite (collect_id_is_Some maps id Hwf). unfold maps.
    rewrite mergeMaps_is_Some, fmap_app, elem_of_app. reflexivity. }
  assert (Hnd : NoDup (ID <$> collect maps)) by (apply collect_NoDup; exact Hwf).
  split; [| split; [| split; [| split; [| split]]]].
  - intros id. rewrite Hids, fmap_app, elem_of_app. reflexivity.
  - exact Hnd.
  - apply collect_sorted.
  - rewrite <- length_app, <- (length_fmap ID (collect maps)),
      <- (length_fmap ID (staticResults ++ convResults)).
    apply submseteq_length. apply NoDup_submseteq; [exact Hnd |].
    intros id Hin. apply Hids. exact Hin.
  - intros Hnd'. rewrite <- length_app, <- (length_fmap ID (collect maps)),
      <- (length_fmap ID (staticResults ++ convResults)).
    apply Permutation_length. apply NoDup_Permutation; assumption.
  - intros r Hin. apply collect_elem in Hin; [| exact Hwf].
    destruct Hin as (id & score & s & _ & Hs & ->).
    destruct (mergeMaps_origin rm _ _ _ _ _ Hs) as (r0 & Hr0 & Heq).
    exists r0. split; [exact Hr0 |]. simpl. rewrite Heq. reflexivity.
Qed.

Lemma Merge_shape_witness :
  let s1 := mkSearchResult "static-1" "d1" (9 / 10) "one" ∅ SourceStatic None in
  let c1 := mkSearchResult "conv-1" "t1" (8 / 10) "turn" ∅ SourceConversation (Some 0%Z) in
  length (@Merge referenceRuntime defaultMerger [s1] [c1] 0%Z) = 2%nat.
Proof.
  intros s1 c1.
  destruct (Merge_shape (rt := referenceRuntime) defaultMerger [s1] [c1] 0%Z)
    as (_ & _ & _ & _ & Hlen & _).
  apply Hlen. simpl. apply NoDup_cons. split; [| apply NoDup_singleton].
  intros Hin. apply list_elem_of_singleton in Hin. discriminate.
Defined.

Lemma StronglySorted_app_l {A : Type} (P : A -> A -> Prop) (l1 l2 : list A) :
  StronglySorted P (l1 ++ l2) -> StronglySorted P l1.
Proof.
  induction l1 as [| x l1 IH]; simpl; intros Hs; [constructor |].
  inversion Hs as [| ? ? Hs' Hall]; subst. constructor; [apply IH; exact Hs' |].
  apply Forall_app in Hall. tauto.
Qed.

Section HybridShape.

Context {rt : GoRuntime} {be : Backend}.

Implicit Types (r : AgentRAGRetriever) (query : Query) (now : Time).

Lemma applyLimit_take query (l : SearchResults) :
  applyLimit query l = l
  \/ ((0 < Limit query)%Z /\ applyLimit query l = take (Z.to_nat (Limit query)) l).
Proof.
  unfold applyLimit.
  destruct (0 <? Limit query)%Z eqn:E1; simpl; [| left; reflexivity].
  destruct (Limit query <? Z.of_nat (length l))%Z; [| left; reflexivity].
  right. apply Z.ltb_lt in E1. auto.
Qed.

Lemma applyLimit_length query (l : SearchResults) :
  (0 < Limit query)%Z -> (Z.of_nat (length (applyLimit query l)) <= Limit query)%Z.
Proof.
  intros Hpos. unfold applyLimit.
  rewrite (proj2 (Z.ltb_lt _ _) Hpos). simpl.
  destruct (Limit query <? Z.of_nat (length l))%Z eqn:E.
  - rewrite length_take. lia.
  - apply Z.ltb_ge in E. exact E.
Qed.

Lemma applyLimit_unlimited query (l : SearchResults) :
  (Limit query <= 0)%Z -> applyLimit query l = l.
Proof.
  intros Hle. unfold applyLimit.
  rewrite (proj2 (Z.ltb_ge _ _) Hle). reflexivity.
Qed.

Lemma applyLimit_prefix query (l : SearchResults) :
  exists rest, l = applyLimit query l ++ rest.
Proof.
  destruct (applyLimit_take query l) as [-> | [_ ->]].
  - exists []. rewrite app_nil_r. reflexivity.
  - exists (drop (Z.to_nat (Limit query)) l). symmetry. apply take_drop.
Qed.

(** On an open retriever [SearchHybrid] returns an error or the merge of
    the two outcomes cut to the limit. *)
Lemma SearchHybrid_open r now query :
  closed r = false ->
  (exists err, fst (SearchHybrid r now query) = inr err)
  \/ (exists staticResults convResults,
        fst (SearchHybrid r now query)
        = inl (applyLimit query (Merge (merger r) staticResults convResults now))).
Proof.
  intros Hopen. unfold SearchHybrid. rewrite Hopen.
  destruct (Client.SearchStatic (client r) query) as [so wc1].
  destruct (Client.SearchConversation wc1 query) as [co wc2].
  destruct so as [s | se], co as [c | ce]; simpl; eauto.
Qed.

End HybridShape.

(** X8.  Every list [SearchHybrid] returns is in descending order of score,
    has pairwise distinct identifiers, and, when the query limit is
    positive, at most limit entries; a limit of zero or below leaves the
    merged list uncut: the list is always a prefix of the merge of the two
    outcomes. *)
Theorem SearchHybrid_result_shape {rt : GoRuntime} {be : Backend}
    (r : AgentRAGRetriever) (now : Time) (query : Query) (results : SearchResults) :
  fst (SearchHybrid r now query) = inl results ->
  StronglySorted (fun a b => Score b <= Score a) results
  /\ NoDup (ID <$> results)
  /\ ((0 < Limit query)%Z -> (Z.of_nat (length results) <= Limit query)%Z)
  /\ exists staticResults convResults rest,
       Merge (merger r) staticResults convResults now = results ++ rest
       /\ ((Limit query <= 0)%Z -> rest = []).
Proof.
  intros Hres.
  destruct (closed r) eqn:Hc.
  { unfold SearchHybrid in Hres. rewrite Hc in Hres. discriminate. }
  destruct (SearchHybrid_open r now query Hc) as [[err He] | (s & c & Hm)];
    [rewrite He in Hres; discriminate |].
  rewrite Hm in Hres. inversion Hres as [Hr]. clear Hres.
  pose proof (mergeMaps_wf (merger r) s c now) as Hwf.
  pose proof (collect_NoDup _ Hwf) as Hnd.
  pose proof (collect_sorted (mergeMaps (merger r) s c now)) as Hsorted.
  rewrite <- Merge_collect in Hnd, Hsorted.
  destruct (applyLimit_prefix query (Merge (merger r) s c now)) as [rest Hrest].
  split; [| split; [| split]].
  - rewrite Hrest in Hsorted. apply StronglySorted_app_l in Hsorted. exact Hsorted.
  - rewrite Hrest, fmap_app in Hnd. apply NoDup_app in Hnd. tauto.
  - apply applyLimit_length.
  - exists s, c, rest. split; [exact Hrest |].
    intros Hle. rewrite (applyLimit_unlimited query _ Hle) in Hrest.
    apply (f_equal length) in Hrest. rewrite length_app in Hrest.
    destruct rest; [reflexivity | simpl in Hrest; lia].
Qed.

Lemma SearchHybrid_outcomes {rt : GoRuntime} {be : Backend}
    (r : AgentRAGRetriever) (now : Time) (query : Query)
    (staticOutcome convOutcome : SearchResults + error) :
  closed r = false ->
  fst (Client.SearchStatic (client r) query) = staticOutcome ->
  fst (Client.SearchConversation (snd (Client.SearchStatic (client r) query)) query)
  = convOutcome ->
  fst (SearchHybrid r now query)
  = match staticOutcome, convOutcome with
    | inr staticErr, inr convErr =>
        inr (Errorf ("both searches failed: static=" +:+ Error staticErr
                       +:+ ", conversation=" +:+ Error convErr))
    | _, _ =>
        inl (applyLimit query
               (Merge (merger r)
                  match staticOutcome with inl rs => rs | inr _ => [] end
                  match convOutcome with inl rs => rs | inr _ => [] end
                  now))
    end.
Proof.
  intros Hopen Hs Hc. subst staticOutcome convOutcome.
  unfold SearchHybrid. rewrite Hopen.
  destruct (Client.SearchStatic (client r) query) as [so wc1]. simpl.
  destruct (Client.SearchConversation wc1 query) as [co wc2]. simpl.
  destruct so, co; reflexivity.
Qed.

Lemma staticDown_hybrid :
  let query := mkQuery "test query" [] ∅ 10 None false in
  let r := defaultRetriever "http://localhost:8080" EmptyString in
  exists y,
    fst (@SearchHybrid referenceRuntime (staticDownBackend 0%Z) r 0%Z query) = inl [y].
Proof.
  intros query r.
  destruct (staticDown_conv 0%Z
              (snd (@Client.SearchStatic (staticDownBackend 0%Z) (client r) query))
              eq_refl)
    as (y & Hconv & _ & Hscore & _ & _ & Hts).
  exists (setScore y (28 / 100)).
  rewrite (SearchHybrid_outcomes (rt := referenceRuntime) (be := staticDownBackend 0%Z)
             r 0%Z query _ _ eq_refl (staticDown_static 0%Z) Hconv).
  change (merger r) with defaultMerger.
  rewrite (Merge_default_weighted (rt := referenceRuntime)).
  rewrite (mergeWeighted_conv_only_default (rt := referenceRuntime) y 0%Z Hscore Hts).
  rewrite applyLimit_singleton. reflexivity.
Qed.

Lemma SearchHybrid_result_shape_witness :
  let query := mkQuery "test query" [] ∅ 10 None false in
  let r := defaultRetriever "http://localhost:8080" EmptyString in
  exists results,
    fst (@SearchHybrid referenceRuntime (staticDownBackend 0%Z) r 0%Z query) = inl results
    /\ NoDup (ID <$> results)
    /\ (Z.of_nat (length results) <= 10)%Z.
Proof.
  intros query r.
  destruct staticDown_hybrid as [y Hy]. fold query r in Hy.
  destruct (SearchHybrid_result_shape (rt := referenceRuntime)
              (be := staticDownBackend 0%Z) r 0%Z query [y] Hy)
    as (_ & Hnd & Hlen & _).
  exists [y]. split; [exact Hy |]. split; [exact Hnd |].
  apply Hlen. reflexivity.
Defined.

(** ** Strings *)

Lemma append_cons (x : ascii) (a b : string) : String x a +:+ b = String x (a +:+ b).
Proof. reflexivity. Qed.

Lemma append_assoc (a b c : string) : (a +:+ b) +:+ c = a +:+ (b +:+ c).
Proof.
  induction a as [| x a IH]; [reflexivity |].
  rewrite !append_cons, IH. reflexivity.
Qed.

Lemma append_nil_r (a : string) : a +:+ EmptyString = a.
Proof.
  induction a as [| x a IH]; [reflexivity |].
  rewrite append_cons, IH. reflexivity.
Qed.

(** ** The coordinator: traffic and frame *)

Section Traffic.

Context {rt : GoRuntime} {be : Backend}.

Implicit Types (r : AgentRAGRetriever) (wc : WeaviateClient) (query : Query) (now : Time).

Lemma executeGraphQL_snd wc q :
  snd (Client.executeGraphQL wc q) = record wc (GraphQLRequest q).
Proof.
  unfold Client.executeGraphQL. destruct (postGraphQL q) as [resp | err]; [| reflexivity].
  destruct (Errors resp); reflexivity.
Qed.

Lemma Client_SearchStatic_snd wc query :
  snd (Client.SearchStatic wc query)
  = record wc
      (GraphQLRequest
         (HybridQuery (NewQueryBuilder (StaticIndexName (wc_config wc)) (Limit query))
            (QText query) (Vector query) (1 # 2))).
Proof.
  unfold Client.SearchStatic. rewrite <- executeGraphQL_snd.
  destruct (Client.executeGraphQL wc _) as [[data | err] wc']; reflexivity.
Qed.

Lemma Client_SearchConversation_snd wc query :
  snd (Client.SearchConversation wc query)
  = record wc
      (GraphQLRequest
         (ConversationQuery
            (NewQueryBuilder (ConversationIndexName (wc_config wc)) (Limit query))
            (Vector query) (sinceOf query))).
Proof.
  unfold Client.SearchConversation. rewrite <- executeGraphQL_snd. fold (sinceOf query).
  destruct (Client.executeGraphQL wc _) as [[data | err] wc']; reflexivity.
Qed.

Lemma Client_HealthCheck_snd wc :
  snd (Client.HealthCheck wc) = record wc (GraphQLRequest "{Meta{hostname}}").
Proof.
  unfold Client.HealthCheck. rewrite <- executeGraphQL_snd.
  destruct (Client.executeGraphQL wc _) as [[data | err] wc']; reflexivity.
Qed.

Lemma Client_PruneOldConversations_snd wc now maxAge :
  snd (Client.PruneOldConversations wc now maxAge)
  = record wc
      (GraphQLRequest
         (pruneMutation (ConversationIndexName (wc_config wc))
            (formatRFC3339 (Add now (Neg maxAge))))).
Proof.
  unfold Client.PruneOldConversations, Client.executeBatchDelete.
  match goal with
  | |- context [Client.executeGraphQL wc ?q] =>
      assert (Hq : q = pruneMutation (ConversationIndexName (wc_config wc))
                         (formatRFC3339 (Add now (Neg maxAge))))
  end.
  { unfold BatchDeleteQuery, BuildWhereClause, pruneMutation. simpl.
    rewrite !append_assoc. reflexivity. }
  rewrite Hq, <- executeGraphQL_snd.
  destruct (Client.executeGraphQL wc _) as [[data | err] wc']; reflexivity.
Qed.

End Traffic.

Section RetrieverSteps.

Context {rt : GoRuntime} {be : Backend}.

Implicit Types (r : AgentRAGRetriever) (wc : WeaviateClient) (query : Query) (now : Time).

Lemma SearchStatic_snd r query :
  closed r = false ->
  snd (SearchStatic r query) = withClient r (snd (Client.SearchStatic (client r) query)).
Proof.
  intros Ho. unfold SearchStatic. rewrite Ho.
  destruct (Client.SearchStatic (client r) query) as [[rs | err] wc']; reflexivity.
Qed.

Lemma SearchConversation_snd r now query :
  closed r = false ->
  snd (SearchConversation r now query)
  = withClient r (snd (Client.SearchConversation (client r) query)).
Proof.
  intros Ho. unfold SearchConversation. rewrite Ho.
  destruct (Client.SearchConversation (client r) query) as [[rs | err] wc']; reflexivity.
Qed.

Lemma SearchHybrid_snd r now query :
  closed r = false ->
  snd (SearchHybrid r now query)
  = withClient r
      (snd (Client.SearchConversation (snd (Client.SearchStatic (client r) query)) query)).
Proof.
  intros Ho. unfold SearchHybrid. rewrite Ho.
  destruct (Client.SearchStatic (client r) query) as [so wc1]. simpl.
  destruct (Client.SearchConversation wc1 query) as [co wc2]. simpl.
  destruct so, co; reflexivity.
Qed.

Lemma PruneOldConversations_snd r now maxAge :
  closed r = false ->
  snd (PruneOldConversations r now maxAge)
  = withClient r (snd (Client.PruneOldConversations (client r) now maxAge)).
Proof.
  intros Ho. unfold PruneOldConversations. rewrite Ho.
  destruct (Client.PruneOldConversations (client r) now maxAge); reflexivity.
Qed.

Lemma HealthCheck_snd r :
  closed r = false ->
  snd (HealthCheck r) = withClient r (snd (Client.HealthCheck (client r))).
Proof.
  intros Ho. unfold HealthCheck. rewrite Ho.
  destruct (Client.HealthCheck (client r)); reflexivity.
Qed.


End RetrieverSteps.



(** X10.  The first [Close] of an open retriever sets the flag and closes
    the transport once; a later [Close] returns nil and changes nothing. On
    a closed retriever the three searches, the two writes, pruning and the
    health check return the closed-retriever error. Once the flag is set no
    operation clears it and none reaches the adapter again: these seven,
    [UpdateConfig] and [Close] all leave the flag set and the adapter,
    traffic included, as it was. *)
Theorem closed_is_absorbing {rt : GoRuntime} {be : Backend}
    (r : AgentRAGRetriever) (now : Time) (query : Query)
    (message speaker title content : string) (metadata : gmap string JValue)
    (maxAge : Duration) (c : MergeConfig) :
  (closed r = false ->
   fst (Close r) = None /\ closed (snd (Close r)) = true
   /\ sent (client (snd (Close r))) = sent (client r) ++ [CloseIdleConnections])
  /\ Close (snd (Close r)) = (None, snd (Close r))
  /\ (closed r = true ->
      fst (SearchStatic r query) = inr ErrClosedRetriever
      /\ fst (SearchConversation r now query) = inr ErrClosedRetriever
      /\ fst (SearchHybrid r now query) = inr ErrClosedRetriever
      /\ fst (AddConversationTurn r now message speaker metadata) = inr ErrClosedRetriever
      /\ fst (AddKnowledgeDocument r now title content metadata) = inr ErrClosedRetriever
      /\ fst (PruneOldConversations r now maxAge) = inr ErrClosedRetriever
      /\ fst (HealthCheck r) = Some ErrClosedRetriever)
  /\ (closed r = true ->
      Forall (fun r' => closed r' = true /\ client r' = client r)
        [snd (SearchStatic r query); snd (SearchConversation r now query);
         snd (SearchHybrid r now query);
         snd (AddConversationTurn r now message speaker metadata);
         snd (AddKnowledgeDocument r now title content metadata);
         snd (PruneOldConversations r now maxAge); snd (HealthCheck r);
         snd (UpdateConfig r c); snd (Close r)]).
Proof.
  split; [apply Close_open |]. split; [apply Close_idempotent |].
  split.
  { intros Hc.
    destruct (closed_rejects_operations r now query message speaker title content
                metadata maxAge Hc) as (H1 & H2 & H3 & H4 & H5 & H6 & H7).
    rewrite H1, H2, H3, H4, H5, H6, H7. repeat split. }
  intros Hc.
  destruct (closed_rejects_operations r now query message speaker title content
              metadata maxAge Hc) as (H1 & H2 & H3 & H4 & H5 & H6 & H7).
  rewrite H1, H2, H3, H4, H5, H6, H7, (Close_closed r Hc), UpdateConfig_ignores_closed.
  simpl. repeat (constructor; [split; [assumption | reflexivity] |]).
  constructor; [| constructor; [split; [assumption | reflexivity] | constructor]].
  destruct (Validate c); simpl; split; (assumption || reflexivity).
Qed.

Lemma closed_is_absorbing_witness :
  let r := defaultRetriever "http://localhost:8080" EmptyString in
  sent (client (snd (Close r))) = [CloseIdleConnections]
  /\ closed (snd (UpdateConfig (snd (Close r)) DefaultMergeConfig)) = true.
Proof.
  intros r.
  destruct (closed_is_absorbing (rt := referenceRuntime) (be := twoDeletedBackend)
              r 0%Z (mkQuery "test query" [] ∅ 10 None false)
              "hello"%string "user"%string "title"%string "content"%string ∅
              (60 * Minute)%Z DefaultMergeConfig) as (Hopen & _ & _ & _).
  destruct (Hopen eq_refl) as (_ & _ & Hsent).
  split; [exact Hsent |].
  destruct (closed_is_absorbing (rt := referenceRuntime) (be := twoDeletedBackend)
              (snd (Close r)) 0%Z (mkQuery "test query" [] ∅ 10 None false)
              "hello"%string "user"%string "title"%string "content"%string ∅
              (60 * Minute)%Z DefaultMergeConfig) as (_ & _ & _ & Hclosed).
  specialize (Hclosed eq_refl).
  rewrite Forall_forall in Hclosed.
  apply (Hclosed (snd (UpdateConfig (snd (Close r)) DefaultMergeConfig))).
  do 7 right. left.
Defined.

(** ** The coordinator: writes *)

Section Writes.

Context {be : Backend}.

Implicit Types (r : AgentRAGRetriever) (wc : WeaviateClient) (now : Time).

Lemma createObject_run wc object :
  Client.createObject wc object = (createOutcome object, record wc (ObjectRequest object)).
Proof.
  unfold Client.createObject, createOutcome.
  destruct (postObject object) as [result | err]; [| reflexivity].
  destruct (assertString (result !! "id"%string)); reflexivity.
Qed.

Lemma Client_AddConversationTurn_run wc now message speaker metadata :
  Client.AddConversationTurn wc now message speaker metadata
  = (wrapOutcome "failed to add conversation turn: "
       (createOutcome
          (objectOf (ConversationIndexName (wc_config wc))
             (turnProperties now message speaker metadata))),
     record wc
       (ObjectRequest
          (objectOf (ConversationIndexName (wc_config wc))
             (turnProperties now message speaker metadata)))).
Proof.
  unfold Client.AddConversationTurn. rewrite createObject_run.
  fold (turnProperties now message speaker metadata).
  fold (objectOf (ConversationIndexName (wc_config wc))
          (turnProperties now message speaker metadata)).
  destruct (createOutcome _); reflexivity.
Qed.

Lemma Client_AddKnowledgeDocument_run wc now title content metadata :
  Client.AddKnowledgeDocument wc now title content metadata
  = (wrapOutcome "failed to add document: "
       (createOutcome
          (objectOf (StaticIndexName (wc_config wc))
             (documentProperties now title content metadata))),
     record wc
       (ObjectRequest
          (objectOf (StaticIndexName (wc_config wc))
             (documentProperties now title content metadata)))).
Proof.
  unfold Client.AddKnowledgeDocument. rewrite createObject_run.
  fold (documentProperties now title content metadata).
  fold (objectOf (StaticIndexName (wc_config wc))
          (documentProperties now title content metadata)).
  destruct (createOutcome _); reflexivity.
Qed.

End Writes.



(** ** The coordinator: consistency of its parts *)

Section Consistency.

Context {rt : GoRuntime} {be : Backend}.

Implicit Types (r : AgentRAGRetriever) (wc : WeaviateClient).

Lemma withClient_consistent r wc :
  wc_config wc = wc_config (client r) ->
  retrieverConsistent r -> retrieverConsistent (withClient r wc).
Proof.
  unfold retrieverConsistent. simpl. intros Hcfg (H1 & H2 & H3 & H4 & H5).
  rewrite Hcfg. auto.
Qed.

Lemma UpdateConfig_consistent r c :
  retrieverConsistent r -> retrieverConsistent (snd (UpdateConfig r c)).
Proof.
  intros Hr. rewrite UpdateConfig_ignores_closed.
  destruct (Validate c) eqn:Hv; [exact Hr |].
  destruct Hr as (_ & _ & _ & _ & H5).
  unfold retrieverConsistent. simpl.
  repeat split; try reflexivity; try (apply Validate_None in Hv; apply Hv).
  exact H5.
Qed.

Lemma Close_consistent r :
  retrieverConsistent r -> retrieverConsistent (snd (Close r)).
Proof.
  intros Hr. unfold Close. destruct (closed r); [exact Hr |].
  simpl. exact Hr.
Qed.

End Consistency.

(** X12.  A retriever the constructor returns is open, has sent nothing, and
    its parts agree: the merger holds the retriever's config, merger and
    retriever hold the decay parameters that config prescribes, the config
    satisfies the four validated ranges (so the half-life is positive), and
    the adapter holds the retriever's index config. Every operation,
    accepted or rejected, on an open or a closed retriever, keeps this
    agreement. *)
Theorem retriever_stays_consistent {rt : GoRuntime} {be : Backend} :
  (forall weaviateHost apiKey mergeConfig indexConfig' r,
     NewAgentRAGRetriever weaviateHost apiKey mergeConfig indexConfig' = inl r ->
     retrieverConsistent r /\ closed r = false /\ sent (client r) = []
     /\ config r = default DefaultMergeConfig mergeConfig
     /\ indexConfig r = default DefaultIndexConfig indexConfig')
  /\ (forall r now query message speaker title content metadata maxAge c,
        retrieverConsistent r ->
        Forall retrieverConsistent
          [snd (SearchStatic r query); snd (SearchConversation r now query);
           snd (SearchHybrid r now query);
           snd (AddConversationTurn r now message speaker metadata);
           snd (AddKnowledgeDocument r now title content metadata);
           snd (PruneOldConversations r now maxAge); snd (HealthCheck r);
           snd (UpdateConfig r c); snd (Close r)]).
Proof.
  split.
  - intros h k mc ic r. unfold NewAgentRAGRetriever, NewResultMerger. simpl.
    destruct (Validate (default DefaultMergeConfig mc)) eqn:Hv; [discriminate |].
    intros Hr. inversion Hr; subst r; clear Hr.
    unfold retrieverConsistent. simpl.
    apply Validate_None in Hv. repeat split; try reflexivity; apply Hv.
  - intros r now query message speaker title content metadata maxAge c Hr.
    assert (Hrec : forall req, retrieverConsistent (withClient r (record (client r) req))).
    { intros req. apply withClient_consistent; [reflexivity | exact Hr]. }
    destruct (closed r) eqn:Hc.
    + destruct (closed_rejects_operations r now query message speaker title content
                  metadata maxAge Hc) as (H1 & H2 & H3 & H4 & H5 & H6 & H7).
      rewrite H1, H2, H3, H4, H5, H6, H7. simpl.
      repeat (constructor; [exact Hr |]).
      constructor; [apply UpdateConfig_consistent; exact Hr |].
      constructor; [apply Close_consistent; exact Hr | constructor].
    + rewrite (SearchStatic_snd r query Hc), (SearchConversation_snd r now query Hc),
        (SearchHybrid_snd r now query Hc), (PruneOldConversations_snd r now maxAge Hc),
        (HealthCheck_snd r Hc).
      rewrite !Client_SearchConversation_snd, !Client_SearchStatic_snd,
        Client_PruneOldConversations_snd, Client_HealthCheck_snd.
      unfold AddConversationTurn, AddKnowledgeDocument. rewrite Hc.
      rewrite Client_AddConversationTurn_run, Client_AddKnowledgeDocument_run.
      constructor; [apply Hrec |]. constructor; [apply Hrec |].
      constructor; [apply withClient_consistent; [reflexivity | exact Hr] |].
      constructor; [apply Hrec |]. constructor; [apply Hrec |].
      constructor; [apply Hrec |]. constructor; [apply Hrec |].
      constructor; [apply UpdateConfig_consistent; exact Hr |].
      constructor; [apply Close_consistent; exact Hr | constructor].
Qed.

Lemma retriever_stays_consistent_witness :
  retrieverConsistent (defaultRetriever "http://localhost:8080" EmptyString)
  /\ retrieverConsistent
       (snd (UpdateConfig (defaultRetriever "http://localhost:8080" EmptyString)
               (mkMergeConfig (7 / 10) (3 / 10) true 60 0 "rrf" 0))).
Proof.
  destruct (@retriever_stays_consistent referenceRuntime twoDeletedBackend)
    as [Hnew Hkeep].
  destruct (Hnew "http://localhost:8080"%string EmptyString None None _
              (NewAgentRAGRetriever_default _ _)) as (Hc & _).
  split; [exact Hc |].
  specialize (Hkeep (defaultRetriever "http://localhost:8080" EmptyString) 0%Z
                (mkQuery "test query" [] ∅ 10 None false)
                "hello"%string "user"%string "title"%string "content"%string ∅
                (60 * Minute)%Z (mkMergeConfig (7 / 10) (3 / 10) true 60 0 "rrf" 0) Hc).
  rewrite Forall_forall in Hkeep. apply Hkeep. do 7 right. left.
Defined.

(** ** The adapter: records and responses *)

Section Records.

Implicit Types (objMap data : gmap string JValue).

Lemma extractSearchResult_metadata objMap k :
  Metadata (Client.extractSearchResult objMap) !! k
  = if decide (reservedKey k) then None else objMap !! k.
Proof.
  unfold Client.extractSearchResult, setMetadata. simpl.
  rewrite map_lookup_filter. unfold reservedKey.
  destruct (objMap !! k) as [v |] eqn:E; simpl.
  - destruct (decide _) as [Hr | Hr].
    + rewrite option_guard_False; [reflexivity |]. simpl. intuition congruence.
    + rewrite option_guard_True; [reflexivity |]. simpl.
      repeat split; intros Heq; apply Hr; auto.
  - destruct (decide _); reflexivity.
Qed.

Lemma extractSearchResult_DocID objMap :
  DocID (Client.extractSearchResult objMap)
  = match textField objMap with
    | Some _ => ID (Client.extractSearchResult objMap)
    | None => EmptyString
    end.
Proof.
  unfold Client.extractSearchResult, textField.
  destruct (assertString (objMap !! "message"%string)); [reflexivity |].
  destruct (assertString (objMap !! "content"%string)); [reflexivity |].
  destruct (assertString (objMap !! "title"%string)); [reflexivity |].
  simpl. destruct (assertObject (objMap !! "_additional"%string)) as [a |]; [| reflexivity].
  destruct (assertString (a !! "id"%string)), (assertNumber (a !! "score"%string));
    reflexivity.
Qed.

Lemma omap_length_le {A B : Type} (f : A -> option B) (l : list A) :
  (length (omap f l) <= length l)%nat.
Proof.
  induction l as [| x l IH]; [simpl; lia |].
  change (omap f (x :: l))
    with (match f x with Some y => y :: omap f l | None => omap f l end).
  destruct (f x); simpl length; lia.
Qed.

Lemma objectsOf_length elems : (length (objectsOf elems) <= length elems)%nat.
Proof. apply omap_length_le. Qed.

End Records.

(** X13.  What a record yields. Its metadata holds every top-level key of
    the object except [_additional], [message], [content] and [title], with
    the value the object has (so speaker and timestamp of a turn are
    metadata). Its text is the [message] when that is a string, else the
    [content] when that is one, else the [title] when that is one; the
    document identifier is the record identifier when a text was found and
    empty otherwise. *)
Theorem extractSearchResult_payload (objMap : gmap string JValue) :
  let result := Client.extractSearchResult objMap in
  (forall k, reservedKey k -> Metadata result !! k = None)
  /\ (forall k, ~ reservedKey k -> Metadata result !! k = objMap !! k)
  /\ (forall message, objMap !! "message"%string = Some (JString message) ->
        Text result = message)
  /\ (forall content,
        assertString (objMap !! "message"%string) = None ->
        objMap !! "content"%string = Some (JString content) ->
        Text result = content)
  /\ (forall title,
        assertString (objMap !! "message"%string) = None ->
        assertString (objMap !! "content"%string) = None ->
        objMap !! "title"%string = Some (JString title) ->
        Text result = title)
  /\ (textField objMap <> None -> DocID result = ID result)
  /\ (textField objMap = None -> DocID result = EmptyString /\ Text result = EmptyString).
Proof.
  intros result.
  destruct (extractSearchResult_fields objMap) as (_ & _ & Htx & _).
  fold result in Htx.
  pose proof (extractSearchResult_DocID objMap) as Hdoc. fold result in Hdoc.
  split; [| split; [| split; [| split; [| split; [| split]]]]].
  - intros k Hk. unfold result. rewrite extractSearchResult_metadata.
    rewrite decide_True by exact Hk. reflexivity.
  - intros k Hk. unfold result. rewrite extractSearchResult_metadata.
    rewrite decide_False by exact Hk. reflexivity.
  - intros message Hm. rewrite Htx. unfold textField. rewrite Hm. reflexivity.
  - intros content Hm Hc. rewrite Htx. unfold textField. rewrite Hm, Hc. reflexivity.
  - intros title Hm Hc Ht. rewrite Htx. unfold textField. rewrite Hm, Hc, Ht. reflexivity.
  - intros Hsome. rewrite Hdoc. destruct (textField objMap); [reflexivity | contradiction].
  - intros Hnone. rewrite Hdoc, Htx, Hnone. split; reflexivity.
Qed.

Lemma extractSearchResult_payload_witness :
  Metadata (Client.extractSearchResult turnY) !! "timestamp"%string
  = Some (JString "2026-02-20T10:00:00Z")
  /\ Text (Client.extractSearchResult turnY) = "about Y"%string.
Proof.
  destruct (extractSearchResult_payload turnY) as (_ & Hmeta & Htext & _).
  destruct turnY_lookups as (_ & Hmsg & Hts).
  split.
  - rewrite Hmeta; [exact Hts |].
    unfold reservedKey. intros [H | [H | [H | H]]]; discriminate.
  - apply Htext. exact Hmsg.
Defined.

Lemma conversationRecord_fields {be : Backend} (objMap : gmap string JValue) :
  ID (conversationRecord objMap) = ID (Client.extractSearchResult objMap)
  /\ DocID (conversationRecord objMap) = DocID (Client.extractSearchResult objMap)
  /\ Score (conversationRecord objMap) = Score (Client.extractSearchResult objMap)
  /\ Text (conversationRecord objMap) = Text (Client.extractSearchResult objMap)
  /\ Metadata (conversationRecord objMap) = Metadata (Client.extractSearchResult objMap)
  /\ Source (conversationRecord objMap) = SourceConversation
  /\ Timestamp (conversationRecord objMap)
     = assertString (objMap !! "timestamp"%string) ≫= parseRFC3339.
Proof.
  destruct (extractSearchResult_fields objMap) as (_ & _ & _ & _ & Hts).
  unfold conversationRecord.
  destruct (assertString (objMap !! "timestamp"%string)) as [tsStr |]; simpl.
  - destruct (parseRFC3339 tsStr); simpl; repeat split; exact Hts.
  - repeat split. exact Hts.
Qed.

(** X14.  A response of the expected shape, an array under ["Get"] and the
    collection name, never fails to parse. Both parsers return one record
    for each element of the array that is an object, in order, and pass over
    the other elements. The static parser tags its records static and gives
    them no timestamp; the conversation parser returns the same identifier,
    document identifier, score, text and metadata, tags the record
    conversation, and attaches the timestamp exactly when the object's
    [timestamp] is a string that parses as RFC 3339: a missing or unreadable
    timestamp leaves the record in the list without one. *)
Theorem well_formed_response_parses {be : Backend} (data g : gmap string JValue)
    (collection : string) (elems : list JValue) :
  data !! "Get"%string = Some (JObject g) ->
  g !! collection = Some (JArray elems) ->
  exists staticRecords convRecords,
    Client.parseSearchResults data (GetResultPath collection) = inl staticRecords
    /\ Client.parseConversationResults data (GetResultPath collection) = inl convRecords
    /\ length staticRecords = length (objectsOf elems)
    /\ length convRecords = length (objectsOf elems)
    /\ (length (objectsOf elems) <= length elems)%nat
    /\ forall i objMap, objectsOf elems !! i = Some objMap ->
         exists s c,
           staticRecords !! i = Some s /\ convRecords !! i = Some c
           /\ s = setSource (Client.extractSearchResult objMap) SourceStatic
           /\ Source s = SourceStatic /\ Timestamp s = None
           /\ ID c = ID s /\ DocID c = DocID s /\ Score c = Score s
           /\ Text c = Text s /\ Metadata c = Metadata s
           /\ Source c = SourceConversation
           /\ Timestamp c = assertString (objMap !! "timestamp"%string) ≫= parseRFC3339.
Proof.
  intros Hg He.
  exists ((fun o => setSource (Client.extractSearchResult o) SourceStatic)
            <$> objectsOf elems),
    (conversationRecord <$> objectsOf elems).
  split; [| split; [| split; [| split; [| split]]]].
  - unfold Client.parseSearchResults.
    rewrite (navigate_result_path data collection g _ Hg He), extractObjects_array.
    reflexivity.
  - unfold Client.parseConversationResults.
    rewrite (navigate_result_path data collection g _ Hg He), extractObjects_array.
    reflexivity.
  - apply length_fmap.
  - apply length_fmap.
  - apply objectsOf_length.
  - intros i objMap Hi.
    exists (setSource (Client.extractSearchResult objMap) SourceStatic),
      (conversationRecord objMap).
    rewrite !list_lookup_fmap, Hi. simpl.
    destruct (extractSearchResult_fields objMap) as (_ & _ & _ & _ & Hts).
    destruct (conversationRecord_fields objMap) as (H1 & H2 & H3 & H4 & H5 & H6 & H7).
    repeat split; assumption.
Qed.

Lemma well_formed_response_parses_witness :
  exists staticRecords convRecords,
    Client.parseSearchResults
      {[ "Get"%string := JObject {[ "Conversation"%string := JArray [JObject turnY; JNull] ]} ]}
      (GetResultPath "Conversation") = inl staticRecords
    /\ @Client.parseConversationResults (staticDownBackend 0%Z)
         {[ "Get"%string :=
              JObject {[ "Conversation"%string := JArray [JObject turnY; JNull] ]} ]}
         (GetResultPath "Conversation") = inl convRecords
    /\ length staticRecords = 1%nat /\ length convRecords = 1%nat.
Proof.
  destruct (well_formed_response_parses (be := staticDownBackend 0%Z)
              {[ "Get"%string :=
                   JObject {[ "Conversation"%string := JArray [JObject turnY; JNull] ]} ]}
              {[ "Conversation"%string := JArray [JObject turnY; JNull] ]}
              "Conversation" [JObject turnY; JNull]
              (lookup_singleton_eq _ _) (lookup_singleton_eq _ _))
    as (ss & cs & Hs & Hc & Hls & Hlc & _).
  exists ss, cs. split; [exact Hs |]. split; [exact Hc |].
  split; [exact Hls | exact Hlc].
Defined.

(** ** Single-source searches *)

Section SingleSource.

Context {be : Backend}.

Implicit Types (wc : WeaviateClient) (query : Query).

Lemma executeGraphQL_fst wc q :
  fst (Client.executeGraphQL wc q)
  = match postGraphQL q with
    | inr err => inr err
    | inl resp =>
        match Errors resp with
        | message :: _ => inr (Errorf ("GraphQL error: " +:+ message))
        | [] => inl (Data resp)
        end
    end.
Proof.
  unfold Client.executeGraphQL. destruct (postGraphQL q) as [resp | err]; [| reflexivity].
  destruct (Errors resp); reflexivity.
Qed.

Lemma Client_SearchStatic_fst wc query :
  fst (Client.SearchStatic wc query)
  = match
      fst (Client.executeGraphQL wc
             (HybridQuery (NewQueryBuilder (StaticIndexName (wc_config wc)) (Limit query))
                (QText query) (Vector query) (1 # 2)))
    with
    | inr err => inr (Wrapf "static search failed: " err)
    | inl response =>
        Client.parseSearchResults response (GetResultPath (StaticIndexName (wc_config wc)))
    end.
Proof.
  unfold Client.SearchStatic.
  match goal with
  | |- context [Client.executeGraphQL wc ?q] =>
      pose proof (executeGraphQL_snd wc q) as Hsnd;
      destruct (Client.executeGraphQL wc q) as [[data | err] wc']
  end; simpl in Hsnd; subst wc'; reflexivity.
Qed.

Lemma Client_SearchConversation_fst wc query :
  fst (Client.SearchConversation wc query)
  = match
      fst (Client.executeGraphQL wc
             (ConversationQuery
                (NewQueryBuilder (ConversationIndexName (wc_config wc)) (Limit query))
                (Vector query) (sinceOf query)))
    with
    | inr err => inr (Wrapf "conversation search failed: " err)
    | inl response =>
        Client.parseConversationResults response
          (GetResultPath (ConversationIndexName (wc_config wc)))
    end.
Proof.
  unfold Client.SearchConversation. fold (sinceOf query).
  match goal with
  | |- context [Client.executeGraphQL wc ?q] =>
      pose proof (executeGraphQL_snd wc q) as Hsnd;
      destruct (Client.executeGraphQL wc q) as [[data | err] wc']
  end; simpl in Hsnd; subst wc'; reflexivity.
Qed.

End SingleSource.

(** X15.  A single-source search on an open retriever surfaces every
    failure. A failed exchange comes back wrapped with the name of the
    search; a response with a non-empty [errors] list fails with its first
    message, whatever [data] holds; with an empty list the outcome is that
    of the parser, a parse error being returned as it is. [SearchStatic]
    returns the parsed records unchanged, [SearchConversation] their bulk
    decay at the reference time. *)
Theorem single_source_outcomes {be : Backend} (r : AgentRAGRetriever) (now : Time)
    (query : Query) (resp : GraphQLResponse) :
  closed r = false ->
  let collection := StaticIndexName (wc_config (client r)) in
  let hybrid :=
    HybridQuery (NewQueryBuilder collection (Limit query))
      (QText query) (Vector query) (1 # 2) in
  let convCollection := ConversationIndexName (wc_config (client r)) in
  let conv :=
    ConversationQuery (NewQueryBuilder convCollection (Limit query))
      (Vector query) (sinceOf query) in
  (forall err, postGraphQL hybrid = inr err ->
     fst (SearchStatic r query) = inr (Wrapf "static search failed: " err))
  /\ (forall message rest,
        postGraphQL hybrid = inl resp -> Errors resp = message :: rest ->
        fst (SearchStatic r query)
        = inr (Wrapf "static search failed: " (Errorf ("GraphQL error: " +:+ message))))
  /\ (postGraphQL hybrid = inl resp -> Errors resp = [] ->
      fst (SearchStatic r query)
      = Client.parseSearchResults (Data resp) (GetResultPath collection))
  /\ (forall err, postGraphQL conv = inr err ->
        fst (SearchConversation r now query)
        = inr (Wrapf "conversation search failed: " err))
  /\ (forall message rest,
        postGraphQL conv = inl resp -> Errors resp = message :: rest ->
        fst (SearchConversation r now query)
        = inr (Wrapf "conversation search failed: "
                 (Errorf ("GraphQL error: " +:+ message))))
  /\ (postGraphQL conv = inl resp -> Errors resp = [] ->
      fst (SearchConversation r now query)
      = match Client.parseConversationResults (Data resp) (GetResultPath convCollection) with
        | inl results => inl (ApplyToResults (temporalDecay r) results now)
        | inr err => inr err
        end).
Proof.
  intros Ho collection hybrid convCollection conv.
  assert (Hs : fst (SearchStatic r query) = fst (Client.SearchStatic (client r) query)).
  { unfold SearchStatic. rewrite Ho.
    destruct (Client.SearchStatic (client r) query) as [[rs | e] wc']; reflexivity. }
  assert (Hc : fst (SearchConversation r now query)
               = match fst (Client.SearchConversation (client r) query) with
                 | inl results => inl (ApplyToResults (temporalDecay r) results now)
                 | inr err => inr err
                 end).
  { unfold SearchConversation. rewrite Ho.
    destruct (Client.SearchConversation (client r) query) as [[rs | e] wc']; reflexivity. }
  rewrite Hs, Hc, Client_SearchStatic_fst, Client_SearchConversation_fst,
    !executeGraphQL_fst.
  fold collection convCollection. fold hybrid conv.
  split; [| split; [| split; [| split; [| split]]]].
  - intros err Hp. rewrite Hp. reflexivity.
  - intros message rest Hp He. rewrite Hp, He. reflexivity.
  - intros Hp He. rewrite Hp, He. reflexivity.
  - intros err Hp. rewrite Hp. reflexivity.
  - intros message rest Hp He. rewrite Hp, He. reflexivity.
  - intros Hp He. rewrite Hp, He. reflexivity.
Qed.

Lemma single_source_outcomes_witness :
  let r := defaultRetriever "http://localhost:8080" EmptyString in
  let query := mkQuery "test query" [] ∅ 10 None false in
  fst (@SearchStatic (staticDownBackend 0%Z) r query)
  = inr (Wrapf "static search failed: " (Errorf "request failed: connection refused")).
Proof.
  intros r query.
  destruct (single_source_outcomes (be := staticDownBackend 0%Z) r 0%Z query
              (mkGraphQLResponse ∅ []) eq_refl) as (Hfail & _).
  apply Hfail. reflexivity.
Defined.

(** ** What a query contributes *)

Section QueryUse.

Context {rt : GoRuntime} {be : Backend}.

Implicit Types (wc : WeaviateClient) (q : Query).

Lemma Client_SearchStatic_uses wc q1 q2 :
  QText q1 = QText q2 -> Vector q1 = Vector q2 -> Limit q1 = Limit q2 ->
  Client.SearchStatic wc q1 = Client.SearchStatic wc q2.
Proof. intros Ht Hv Hl. unfold Client.SearchStatic. rewrite Ht, Hv, Hl. reflexivity. Qed.

Lemma Client_SearchConversation_uses wc q1 q2 :
  Vector q1 = Vector q2 -> Limit q1 = Limit q2 -> sinceOf q1 = sinceOf q2 ->
  Client.SearchConversation wc q1 = Client.SearchConversation wc q2.
Proof.
  intros Hv Hl Hs. unfold Client.SearchConversation.
  fold (sinceOf q1). fold (sinceOf q2). rewrite Hv, Hl, Hs. reflexivity.
Qed.

End QueryUse.

(** X16.  A search reads a query's text, vector, limit and the lower bound
    of its time window and nothing else. The filter map, the metadata flag
    and the upper bound of the window never influence a result or a request;
    the static search does not read the window at all and the conversation
    search does not read the text. *)
Theorem searches_ignore_filters {rt : GoRuntime} {be : Backend}
    (r : AgentRAGRetriever) (now : Time) (q1 q2 : Query) :
  Vector q1 = Vector q2 ->
  Limit q1 = Limit q2 ->
  (QText q1 = QText q2 -> SearchStatic r q1 = SearchStatic r q2)
  /\ (sinceOf q1 = sinceOf q2 ->
      SearchConversation r now q1 = SearchConversation r now q2)
  /\ (QText q1 = QText q2 -> sinceOf q1 = sinceOf q2 ->
      SearchHybrid r now q1 = SearchHybrid r now q2)
  /\ (forall since until1 until2,
        QTimeRange q1 = Some (mkTimeRange since until1) ->
        QTimeRange q2 = Some (mkTimeRange since until2) ->
        sinceOf q1 = sinceOf q2).
Proof.
  intros Hv Hl. split; [| split; [| split]].
  - intros Ht. unfold SearchStatic.
    rewrite (Client_SearchStatic_uses (client r) q1 q2 Ht Hv Hl). reflexivity.
  - intros Hs. unfold SearchConversation.
    rewrite (Client_SearchConversation_uses (client r) q1 q2 Hv Hl Hs). reflexivity.
  - intros Ht Hs. unfold SearchHybrid, applyLimit.
    rewrite (Client_SearchStatic_uses (client r) q1 q2 Ht Hv Hl).
    destruct (Client.SearchStatic (client r) q2) as [so wc1].
    rewrite (Client_SearchConversation_uses wc1 q1 q2 Hv Hl Hs), Hl. reflexivity.
  - intros since u1 u2 H1 H2. unfold sinceOf. rewrite H1, H2. reflexivity.
Qed.

Lemma searches_ignore_filters_witness :
  let r := defaultRetriever "http://localhost:8080" EmptyString in
  let q1 := mkQuery "filtered search" [] ∅ 5 (Some (mkTimeRange 0%Z 10%Z)) false in
  let q2 := mkQuery "filtered search" [] {[ "speaker"%string := JString "assistant" ]} 5
              (Some (mkTimeRange 0%Z 99%Z)) true in
  @SearchHybrid referenceRuntime (staticDownBackend 0%Z) r 0%Z q1
  = @SearchHybrid referenceRuntime (staticDownBackend 0%Z) r 0%Z q2.
Proof.
  intros r q1 q2.
  destruct (searches_ignore_filters (rt := referenceRuntime) (be := staticDownBackend 0%Z)
              r 0%Z q1 q2 eq_refl eq_refl) as (_ & _ & Hh & _).
  apply Hh; reflexivity.
Defined.

(** ** Weighted fusion without decay *)

Section NoDecay.

Context {rt : GoRuntime}.

Variable rm : ResultMerger.

Hypothesis decay_off : enabled (rm_temporalDecay rm) = false.

Lemma weightedConvScore_off currentTime c :
  weightedConvScore rm currentTime c = Score c * ConversationWeight (rm_config rm).
Proof.
  unfold weightedConvScore, Apply. rewrite decay_off. simpl.
  destruct (Timestamp c); reflexivity.
Qed.

Lemma addOrInsert_fst (m1 m2 : MergeMaps) r1 r2 w :
  fst m1 = fst m2 -> ID r1 = ID r2 ->
  fst (addOrInsert m1 r1 w) = fst (addOrInsert m2 r2 w).
Proof.
  intros Hm Hid. unfold addOrInsert, insertBoth. rewrite Hm, Hid.
  destruct (fst m2 !! ID r2); reflexivity.
Qed.

Lemma weightedConv_off_fst now1 now2 conv1 conv2 (m1 m2 : MergeMaps) :
  Forall2 (fun a b => ID a = ID b /\ Score a = Score b) conv1 conv2 ->
  fst m1 = fst m2 ->
  fst (foldl (weightedConvStep rm now1) m1 conv1)
  = fst (foldl (weightedConvStep rm now2) m2 conv2).
Proof.
  intros Hall. revert m1 m2.
  induction Hall as [| a b l1 l2 [Hid Hsc] Hall IH]; intros m1 m2 Hm; simpl; [exact Hm |].
  apply IH. unfold weightedConvStep. rewrite !weightedConvScore_off, Hsc.
  apply addOrInsert_fst; assumption.
Qed.

End NoDecay.

(** X17.  With temporal decay disabled the weighted fusion does not look at
    time: two conversation lists that agree, position by position, on
    identifier and score give the same fused score for every identifier,
    whatever their timestamps and whatever the two reference times, and the
    conversation contribution of a record is its score times the
    conversation weight. *)
Theorem weighted_fusion_without_decay {rt : GoRuntime} (rm : ResultMerger)
    (staticResults conv1 conv2 : SearchResults) (now1 now2 : Time) :
  enabled (rm_temporalDecay rm) = false ->
  Forall2 (fun a b => ID a = ID b /\ Score a = Score b) conv1 conv2 ->
  fst (weightedMaps rm staticResults conv1 now1)
  = fst (weightedMaps rm staticResults conv2 now2)
  /\ (forall id score,
        (exists r, r ∈ mergeWeighted rm staticResults conv1 now1
                   /\ ID r = id /\ Score r = score)
        <-> (exists r, r ∈ mergeWeighted rm staticResults conv2 now2
                       /\ ID r = id /\ Score r = score))
  /\ (forall c, weightedConvScore rm now1 c = Score c * ConversationWeight (rm_config rm)).
Proof.
  intros Hoff Hall.
  assert (Heq : fst (weightedMaps rm staticResults conv1 now1)
                = fst (weightedMaps rm staticResults conv2 now2)).
  { unfold weightedMaps. apply weightedConv_off_fst; [exact Hoff | exact Hall | reflexivity]. }
  assert (Hchar : forall conv now id score,
             (exists r, r ∈ mergeWeighted rm staticResults conv now
                        /\ ID r = id /\ Score r = score)
             <-> fst (weightedMaps rm staticResults conv now) !! id = Some score).
  { intros conv now id score.
    pose proof (weightedMaps_wf rm staticResults conv now) as Hwf.
    unfold mergeWeighted. split.
    - intros (r & Hin & Hid & Hsc). apply collect_elem in Hin; [| exact Hwf].
      destruct Hin as (id' & score' & s & Hsc' & Hs & ->).
      destruct Hwf as [_ Hids]. simpl in Hid, Hsc. rewrite (Hids _ _ Hs) in Hid.
      subst. exact Hsc'.
    - intros Hsc.
      assert (is_Some (snd (weightedMaps rm staticResults conv now) !! id)) as [s Hs]
        by (apply Hwf; eauto).
      exists (setScore s score). split; [| split].
      + apply collect_elem; [exact Hwf |]. exists id, score, s. auto.
      + simpl. destruct Hwf as [_ Hids]. apply (Hids _ _ Hs).
      + reflexivity. }
  split; [exact Heq |]. split.
  - intros id score. rewrite !Hchar, Heq. reflexivity.
  - intros c. apply weightedConvScore_off. exact Hoff.
Qed.

Lemma weighted_fusion_without_decay_witness :
  let rm := mkResultMerger (mkMergeConfig (6 / 10) (4 / 10) false 30 (1 / 100) "weighted" 0)
              (NewTemporalDecay 30 (1 / 100) false) in
  let c1 := mkSearchResult "conv-1" "t1" (8 / 10) "turn" ∅ SourceConversation (Some 0%Z) in
  let c2 := mkSearchResult "conv-1" "t1" (8 / 10) "turn" ∅ SourceConversation None in
  fst (weightedMaps rm [] [c1] 1800000000000%Z) = fst (weightedMaps rm [] [c2] 0%Z).
Proof.
  intros rm c1 c2.
  apply (weighted_fusion_without_decay (rt := referenceRuntime) rm [] [c1] [c2]
           1800000000000%Z 0%Z eq_refl).
  constructor; [split; reflexivity | constructor].
Defined.

(** ** The query builder: escaping *)

Section Escaping.

Lemma ReplaceAll_app (a b : string) (old : ascii) (new : string) :
  ReplaceAll (a +:+ b) old new = ReplaceAll a old new +:+ ReplaceAll b old new.
Proof.
  induction a as [| x a IH]; [reflexivity |].
  rewrite append_cons. simpl. rewrite IH, append_assoc. reflexivity.
Qed.

Lemma ReplaceAll_cons (c : ascii) (s : string) (old : ascii) (new : string) :
  ReplaceAll (String c s) old new
  = (if Ascii.eqb c old then new else String c EmptyString) +:+ ReplaceAll s old new.
Proof. reflexivity. Qed.

Lemma escapeGraphQL_cons (c : ascii) (s : string) :
  escapeGraphQL (String c s) = escapeChar c +:+ escapeGraphQL s.
Proof.
  unfold escapeGraphQL, escapeChar.
  rewrite ReplaceAll_cons, !ReplaceAll_app.
  destruct (Ascii.eqb c "092") eqn:E1; [reflexivity |].
  rewrite ReplaceAll_cons, E1 || idtac.
  change (ReplaceAll (String c EmptyString) "034" (backslash +:+ quote))
    with ((if Ascii.eqb c "034" then backslash +:+ quote else String c EmptyString)
            +:+ EmptyString).
  destruct (Ascii.eqb c "034") eqn:E2; [reflexivity |].
  rewrite append_nil_r.
  change (ReplaceAll (String c EmptyString) "010" (backslash +:+ "n"))
    with ((if Ascii.eqb c "010" then backslash +:+ "n" else String c EmptyString)
            +:+ EmptyString).
  destruct (Ascii.eqb c "010") eqn:E3; [reflexivity |].
  rewrite append_nil_r.
  change (ReplaceAll (String c EmptyString) "013" (backslash +:+ "r"))
    with ((if Ascii.eqb c "013" then backslash +:+ "r" else String c EmptyString)
            +:+ EmptyString).
  destruct (Ascii.eqb c "013") eqn:E4; [reflexivity |].
  rewrite append_nil_r.
  change (ReplaceAll (String c EmptyString) "009" (backslash +:+ "t"))
    with ((if Ascii.eqb c "009" then backslash +:+ "t" else String c EmptyString)
            +:+ EmptyString).
  destruct (Ascii.eqb c "009") eqn:E5; [reflexivity |].
  rewrite append_nil_r. reflexivity.
Qed.

End Escaping.

(** X18.  [escapeGraphQL] produces the body of a string literal that reads
    back as the original text: reading [escapeGraphQL s] followed by a
    closing quote and anything else stops exactly at that quote and returns
    [s] and what follows, whatever bytes [s] holds (quotes, backslashes,
    line breaks, tabs).  Hence the escape loses nothing (it is injective),
    and the text of a [HybridQuery] sits in the query as one such literal:
    it cannot end the literal early or add to the query around it. *)
Theorem escapeGraphQL_literal_round_trip (s : string) :
  (forall rest, readLiteral (escapeGraphQL s +:+ quote +:+ rest) = Some (s, rest))
  /\ (forall s', escapeGraphQL s = escapeGraphQL s' -> s = s')
  /\ (forall qb vector alpha,
        exists tail,
          HybridQuery qb s vector alpha
          = "{ Get { " +:+ className qb +:+ "(hybrid:{query:" +:+ quote
              +:+ escapeGraphQL s +:+ quote +:+ tail
          /\ readLiteral (escapeGraphQL s +:+ quote +:+ tail) = Some (s, tail)).
Proof.
  assert (RT : forall t rest,
             readLiteral (escapeGraphQL t +:+ quote +:+ rest) = Some (t, rest)).
  { intros t rest. induction t as [| c t IH]; [reflexivity |].
    rewrite escapeGraphQL_cons. unfold escapeChar.
    destruct (Ascii.eqb c "092") eqn:E1.
    { apply Ascii.eqb_eq in E1. subst c.
      change (readLiteral (String "092" (String "092"
                (escapeGraphQL t +:+ quote +:+ rest)))
              = Some (String "092" t, rest)).
      simpl. rewrite IH. reflexivity. }
    destruct (Ascii.eqb c "034") eqn:E2.
    { apply Ascii.eqb_eq in E2. subst c.
      change (readLiteral (String "092" (String "034"
                (escapeGraphQL t +:+ quote +:+ rest)))
              = Some (String "034" t, rest)).
      simpl. rewrite IH. reflexivity. }
    destruct (Ascii.eqb c "010") eqn:E3.
    { apply Ascii.eqb_eq in E3. subst c.
      change (readLiteral (String "092" (String "n"
                (escapeGraphQL t +:+ quote +:+ rest)))
              = Some (String "010" t, rest)).
      simpl. rewrite IH. reflexivity. }
    destruct (Ascii.eqb c "013") eqn:E4.
    { apply Ascii.eqb_eq in E4. subst c.
      change (readLiteral (String "092" (String "r"
                (escapeGraphQL t +:+ quote +:+ rest)))
              = Some (String "013" t, rest)).
      simpl. rewrite IH. reflexivity. }
    destruct (Ascii.eqb c "009") eqn:E5.
    { apply Ascii.eqb_eq in E5. subst c.
      change (readLiteral (String "092" (String "t"
                (escapeGraphQL t +:+ quote +:+ rest)))
              = Some (String "009" t, rest)).
      simpl. rewrite IH. reflexivity. }
    change (readLiteral (String c (escapeGraphQL t +:+ quote +:+ rest))
            = Some (String c t, rest)).
    simpl. rewrite E2, E3, E4, E1, IH. reflexivity. }
  split; [exact (RT s) |]. split.
  - intros s' Heq.
    pose proof (RT s EmptyString) as H1. pose proof (RT s' EmptyString) as H2.
    rewrite Heq in H1. congruence.
  - intros qb vector alpha. eexists. split; [| apply RT].
    unfold HybridQuery. reflexivity.
Qed.

(** ** The coordinator: configuration updates *)

Lemma UpdateConfig_accepted (r : AgentRAGRetriever) (c : MergeConfig) :
  Validate c = None ->
  UpdateConfig r c
  = (None,
     mkAgentRAGRetriever (client r)
       (mkResultMerger c
          (NewTemporalDecay (HalfLifeMinutes c) (MinTemporalWeight c)
             (TemporalDecayEnabled c)))
       c (indexConfig r)
       (NewTemporalDecay (HalfLifeMinutes c) (MinTemporalWeight c)
          (TemporalDecayEnabled c))
       (closed r)).
Proof.
  intros Hv. unfold UpdateConfig, SetConfig. rewrite Hv. reflexivity.
Qed.

(** X19.  An accepted [UpdateConfig] on a retriever the constructor built
    gives exactly the retriever the constructor builds for the new config
    with the same host, key and index config: nothing of the previous
    config survives.  On any retriever, open or closed, an accepted update
    overrides whatever update came before it, accepted or rejected; a
    static search returns the same result before and after the update; and
    updating before a search or after it leaves the retriever in the same
    state. *)
Theorem UpdateConfig_equals_rebuild {rt : GoRuntime} {be : Backend}
    (weaviateHost apiKey : string) (mergeConfig : option MergeConfig)
    (indexConfig' : option IndexConfig) (r : AgentRAGRetriever) (c : MergeConfig) :
  NewAgentRAGRetriever weaviateHost apiKey mergeConfig indexConfig' = inl r ->
  Validate c = None ->
  fst (UpdateConfig r c) = None
  /\ NewAgentRAGRetriever weaviateHost apiKey (Some c) indexConfig'
     = inl (snd (UpdateConfig r c))
  /\ (forall r0 c1,
        snd (UpdateConfig (snd (UpdateConfig r0 c1)) c) = snd (UpdateConfig r0 c))
  /\ (forall r0 now query,
        fst (SearchStatic (snd (UpdateConfig r0 c)) query) = fst (SearchStatic r0 query)
        /\ snd (SearchStatic (snd (UpdateConfig r0 c)) query)
           = snd (UpdateConfig (snd (SearchStatic r0 query)) c)
        /\ snd (SearchConversation (snd (UpdateConfig r0 c)) now query)
           = snd (UpdateConfig (snd (SearchConversation r0 now query)) c)
        /\ snd (SearchHybrid (snd (UpdateConfig r0 c)) now query)
           = snd (UpdateConfig (snd (SearchHybrid r0 now query)) c)).
Proof.
  intros Hnew Hv.
  split; [rewrite (UpdateConfig_accepted r c Hv); reflexivity |].
  split.
  { rewrite (UpdateConfig_accepted r c Hv). simpl.
    revert Hnew. unfold NewAgentRAGRetriever, NewResultMerger, Client.NewWeaviateClient.
    simpl. rewrite Hv.
    destruct (Validate (default DefaultMergeConfig mergeConfig)); [discriminate |].
    intros Hr. inversion Hr; subst r; clear Hr. reflexivity. }
  split.
  { intros r0 c1. rewrite (UpdateConfig_accepted _ c Hv), (UpdateConfig_accepted r0 c Hv).
    simpl. unfold UpdateConfig.
    destruct (Validate c1); reflexivity. }
  intros r0 now query.
  rewrite !(UpdateConfig_accepted _ c Hv). simpl.
  destruct (closed r0) eqn:Hc.
  - unfold SearchStatic, SearchConversation, SearchHybrid. simpl. rewrite Hc. simpl.
    rewrite ?Hc. repeat split; reflexivity.
  - rewrite (SearchStatic_snd r0 query Hc), (SearchConversation_snd r0 now query Hc),
      (SearchHybrid_snd r0 now query Hc).
    unfold SearchStatic at 1 2 3. simpl. rewrite Hc.
    unfold withClient. simpl.
    split; [destruct (Client.SearchStatic (client r0) query) as [[rs | e] wc];
            reflexivity |].
    split; [destruct (Client.SearchStatic (client r0) query) as [[rs | e] wc];
            reflexivity |].
    split.
    + unfold SearchConversation. simpl. rewrite ?Hc.
      destruct (Client.SearchConversation (client r0) query) as [[rs | e] wc];
        reflexivity.
    + unfold SearchHybrid. simpl. rewrite ?Hc.
      destruct (Client.SearchStatic (client r0) query) as [so wc1]. simpl.
      destruct (Client.SearchConversation wc1 query) as [co wc2]. simpl.
      destruct so, co; reflexivity.
Qed.

Lemma UpdateConfig_equals_rebuild_witness :
  NewAgentRAGRetriever "http://localhost:8080" EmptyString None None
  = inl (defaultRetriever "http://localhost:8080" EmptyString)
  /\ Validate (mkMergeConfig (7 / 10) (3 / 10) true 60 0 "rrf" 0) = None
  /\ NewAgentRAGRetriever "http://localhost:8080" EmptyString
       (Some (mkMergeConfig (7 / 10) (3 / 10) true 60 0 "rrf" 0)) None
     = inl (snd (UpdateConfig (defaultRetriever "http://localhost:8080" EmptyString)
                   (mkMergeConfig (7 / 10) (3 / 10) true 60 0 "rrf" 0))).
Proof.
  assert (Hv : Validate (mkMergeConfig (7 / 10) (3 / 10) true 60 0 "rrf" 0) = None).
  { apply Validate_None. unfold rangesOk. simpl. lra. }
  split; [apply NewAgentRAGRetriever_default |].
  split; [exact Hv |].
  exact (proj1 (proj2 (@UpdateConfig_equals_rebuild referenceRuntime twoDeletedBackend
                         "http://localhost:8080"%string EmptyString None None
                         (defaultRetriever "http://localhost:8080" EmptyString)
                         (mkMergeConfig (7 / 10) (3 / 10) true 60 0 "rrf" 0)
                         (NewAgentRAGRetriever_default _ _) Hv))).
Defined.
